(** * graphnet: the i3-to-SQLite conversion pipeline

    A shallow embedding of [src/gnn_reco/data/sqlite_dataconverter.py]:
    file discovery and calibration pairing, event-number allocation, the
    extraction worker, schema inference and the merge into the final
    database, followed by the properties established about them.

    Conventions.
    - Scalars extracted from a frame (Python floats and ints) are [Z]; none
      of the properties below depends on floating-point arithmetic.
    - A Python exception is a value of [exn]; a computation that may raise
      has a result in [res].  A worker returns the files it wrote together
      with the way it ended ([wres]); a sequence of SQL statements returns
      the database reached together with the exception that stopped it
      ([sres]).
    - numpy, pandas, sqlite3 and icecube are external libraries.  Their
      operations are modelled by their documented behaviour, next to the
      source function that calls them.  The extractor and the content of
      the i3 files are inputs ([Env]), as are the directory tree and the
      random draws of the shuffles ([World]).
    - The worker processes run in isolation and are joined before the
      merge starts, so a run is the list of what each worker did followed
      by the merge.

    Outline: the embedding ([IdAlloc], [Discovery], [Pandas], [Worker],
    [Sqlite], [Merger], [Orchestrator], [Scenario], and [Deployment] for
    [apply_to_files] of
    [examples/01_icetray/04_i3_module_in_native_icetray_example.py]);
    lemmas about it; the properties of the specification, C1 to C10;
    further properties of the converter, X1 to X24, and of
    [apply_to_files], X25. *)

From Stdlib Require Import ZArith List String Ascii Bool Lia Permutation.
From Stdlib Require Import DecimalString DecimalNat DecimalFacts.
From stdpp Require Import base option list strings gmap.
Import ListNotations.

Local Open Scope Z_scope.

(** ** Exceptions and results *)

Inductive exn : Type :=
| ValueError        (* numpy / pandas argument errors *)
| IndexError        (* event_no_list[event_counter] out of range *)
| KeyError          (* features['dom_x'] on a dict without the key *)
| UnboundLocalError (* query_columns read before assignment *)
| ExtractorError    (* raised inside I3Extractor *)
| GcdError          (* load_geospatial_data failed *)
| OpenError         (* dataio.I3File failed *)
| StopIteration     (* next() on an os.walk that yields nothing *)
| OperationalError  (* sqlite3: bad statement, missing table or column *)
| IntegrityError.   (* sqlite3: constraint violated *)

Inductive res (A : Type) : Type :=
| Ok (a : A)
| Raise (e : exn).
Arguments Ok {A} a.
Arguments Raise {A} e.

Definition res_bind {A B} (m : res A) (k : A -> res B) : res B :=
  match m with
  | Ok a => k a
  | Raise e => Raise e
  end.

(** ** EventIdAllocator: [np.array_split(np.arange(0,99999999,1), workers)] *)

Module IdAlloc.

(** [np.arange(start, stop, 1)] and its contiguous slices, kept as their
    two end points. *)
Record arange : Type := { start : Z; stop : Z }.

Definition arange_len (r : arange) : Z := Z.max 0 (stop r - start r).

(** [r[k]] for a non-negative index [k]; numpy raises IndexError out of
    range. *)
Definition getitem (r : arange) (k : nat) : res Z :=
  if Z.of_nat k <? arange_len r then Ok (start r + Z.of_nat k)
  else Raise IndexError.

Definition in_range (x : Z) (r : arange) : Prop := start r <= x < stop r.

(** numpy's [array_split]: with [Neach, extras = divmod(Ntotal, Nsections)]
    the section sizes are [extras] times [Neach + 1] followed by
    [Nsections - extras] times [Neach]; a section count that is not
    positive raises ValueError. *)
Definition section_sizes (Ntotal : Z) (Nsections : nat) : list Z :=
  let Neach := Ntotal / Z.of_nat Nsections in
  let extras := Ntotal mod Z.of_nat Nsections in
  repeat (Neach + 1) (Z.to_nat extras)
    ++ repeat Neach (Nsections - Z.to_nat extras)%nat.

(** Consecutive slices of an arange, of the given sizes, from offset [a]. *)
Fixpoint slices (a : Z) (sizes : list Z) : list arange :=
  match sizes with
  | [] => []
  | n :: ns => {| start := a; stop := a + n |} :: slices (a + n) ns
  end.

Definition array_split_arange (r : arange) (Nsections : nat)
  : res (list arange) :=
  match Nsections with
  | O => Raise ValueError
  | _ => Ok (slices (start r) (section_sizes (arange_len r) Nsections))
  end.

(** Consecutive chunks of a list, of the given sizes. *)
Fixpoint chunks {A} (l : list A) (sizes : list Z) : list (list A) :=
  match sizes with
  | [] => []
  | n :: ns => take (Z.to_nat n) l :: chunks (drop (Z.to_nat n) l) ns
  end.

Definition array_split_list {A} (l : list A) (Nsections : nat)
  : res (list (list A)) :=
  match Nsections with
  | O => Raise ValueError
  | _ => Ok (chunks l (section_sizes (Z.of_nat (length l)) Nsections))
  end.

(** The upper bound of the id space in [_processfiles]. *)
Definition U : Z := 99999999.

Definition event_nos (workers : nat) : res (list arange) :=
  array_split_arange {| start := 0; stop := U |} workers.

End IdAlloc.

(** ** FileDiscovery: [find_i3_files], [pairwiseshuffle], [find_files] *)

Module Discovery.

(** [sub in s] on Python strings. *)
Fixpoint contains (sub s : string) : bool :=
  String.prefix sub s
  || match s with
     | EmptyString => false
     | String _ s' => contains sub s'
     end.

Definition lower_ascii (a : ascii) : ascii :=
  let n := nat_of_ascii a in
  if ((65 <=? n) && (n <=? 90))%nat then ascii_of_nat (n + 32) else a.

(** [s.lower()]; on the letters that can make up [gcd] and [geo] it is the
    ASCII lower-casing. *)
Fixpoint lower (s : string) : string :=
  match s with
  | EmptyString => EmptyString
  | String a s' => String (lower_ascii a) (lower s')
  end.

Definition is_i3 (file : string) : bool :=
  if contains "gcd" (lower file) then false
  else if contains "geo" (lower file) then false
  else true.

Definition has_extension (file : string) (extensions : list string) : bool :=
  let check :=
    fold_left (fun check extension =>
                 if contains extension file then S check else check)
              extensions 0%nat in
  (0 <? check)%nat.

(** [os.path.join(root, file)] for a relative [file]. *)
Definition path_join (root file : string) : string :=
  match root with
  | EmptyString => file
  | _ => if String.prefix "/" (String.rev root) then root +:+ file
         else root +:+ "/" +:+ file
  end.

(** [next(os.walk(dir))]: the folders and the files directly in [dir];
    StopIteration when [dir] cannot be listed. *)
Record Listing : Type := { folders : list string; files : list string }.

Definition FileSystem : Type := string -> option Listing.

Definition walk_first (fs : FileSystem) (dir : string) : res Listing :=
  match fs dir with
  | Some l => Ok l
  | None => Raise StopIteration
  end.

(** The loop over the files of one directory level (lines 84-90 for the
    root, 102-108 for a sub-folder): the i3 files, the gcd files, and the
    last gcd file met. *)
Definition classify (root : string) (names extensions : list string)
    : list string * list string * option string :=
  fold_left
    (fun '(i3files, gcds, gcd) file =>
       if has_extension file extensions then
         if is_i3 file then (i3files ++ [path_join root file], gcds, gcd)
         else (i3files, gcds ++ [path_join root file], Some (path_join root file))
       else (i3files, gcds, gcd))
    names ([], [], None).

(** One directory level (lines 81-96 and 99-114): after the scan the gcd
    list is padded with the last gcd file, or with the rescue file when
    there is none, [len(i3files) - len(gcds)] times. *)
Definition scan_level (root : string) (names extensions : list string)
    (gcd_rescue : string) : list string * list string :=
  let '(i3files, gcds, gcd) := classify root names extensions in
  let gcd := match gcd with Some g => g | None => gcd_rescue end in
  (i3files, gcds ++ repeat gcd (length i3files - length gcds)).

(** [df.sample(frac = 1)]: a random permutation of the rows.  The random
    generator is a stream of draws; the [k]-th row of the result is drawn
    among the rows still left. *)
Fixpoint sample {A} (draws : nat -> nat) (n : nat) (l : list A) : list A :=
  match n with
  | O => []
  | S n' =>
      match l with
      | [] => []
      | x :: _ =>
          let k := (draws n mod length l)%nat in
          nth k l x :: sample draws n' (delete k l)
      end
  end.

(** [pd.DataFrame({'i3': files_list, 'gcd': gcd_list})] raises ValueError
    when the two columns differ in length. *)
Definition pairwiseshuffle (draws : nat -> nat) (files_list gcd_list : list string)
    : res (list string * list string) :=
  if (length files_list =? length gcd_list)%nat then
    let df := zip files_list gcd_list in
    let df_shuffled := sample draws (length df) df in
    Ok (map fst df_shuffled, map snd df_shuffled)
  else Raise ValueError.

(** The loop over the sub-folders (lines 97-114). *)
Fixpoint scan_folders (fs : FileSystem) (root : string) (extensions : list string)
    (gcd_rescue : string) (folders : list string)
    (files_list GCD_list : list string) : res (list string * list string) :=
  match folders with
  | [] => Ok (files_list, GCD_list)
  | folder :: rest =>
      let sub_root := path_join root folder in
      res_bind (walk_first fs sub_root) (fun sub =>
      let '(i3files_folder, gcds_folder) :=
        scan_level sub_root (files sub) extensions gcd_rescue in
      scan_folders fs root extensions gcd_rescue rest
        (files_list ++ i3files_folder) (GCD_list ++ gcds_folder))
  end.

Definition find_i3_files (fs : FileSystem) (draws : nat -> nat) (dir : string)
    (extensions : list string) (gcd_rescue : string)
    : res (list string * list string) :=
  res_bind (walk_first fs dir) (fun top =>
  let '(i3files_root, gcds_root) :=
    scan_level dir (files top) extensions gcd_rescue in
  res_bind (scan_folders fs dir extensions gcd_rescue (folders top)
              i3files_root gcds_root) (fun '(files_list, GCD_list) =>
  pairwiseshuffle draws files_list GCD_list)).

(** The default of [extensions] in [find_files]. *)
Definition default_extensions : list string := ["i3.bz2"; ".zst"; ".gz"].

(** The loop over [paths] (lines 159-162); [rng k] is the stream of draws
    of the [k]-th shuffle. *)
Fixpoint find_paths (fs : FileSystem) (rng : nat -> nat -> nat) (k : nat)
    (paths extensions : list string) (gcd_rescue : string)
    (input_files gcd_files : list string) : res (list string * list string) :=
  match paths with
  | [] => Ok (input_files, gcd_files)
  | path :: rest =>
      res_bind (find_i3_files fs (rng k) path extensions gcd_rescue)
        (fun '(input_files_mid, gcd_files_mid) =>
      find_paths fs rng (S k) rest extensions gcd_rescue
        (input_files ++ input_files_mid) (gcd_files ++ gcd_files_mid))
  end.

(** [find_files]: the lists, and the file names [save_filenames] wrote to
    [config/i3files.csv], if it was called. *)
Definition find_files (fs : FileSystem) (rng : nat -> nat -> nat)
    (paths : list string) (gcd_rescue : string) (extensions : option (list string))
    : res (list string * list string * option (list string)) :=
  let extensions := match extensions with
                    | None => default_extensions
                    | Some e => e
                    end in
  res_bind (find_paths fs rng 1 paths extensions gcd_rescue [] [])
    (fun '(input_files, gcd_files) =>
  if (0 <? length input_files)%nat then
    res_bind (pairwiseshuffle (rng 0%nat) input_files gcd_files)
      (fun '(input_files, gcd_files) =>
    Ok (input_files, gcd_files, Some input_files))
  else Ok (input_files, gcd_files, None)).

End Discovery.

(** ** pandas data frames, as far as the converter uses them *)

Module Pandas.

(** A value held by an extraction dictionary: [None], a scalar, or a
    column of scalars. *)
Inductive value : Type :=
| VNone
| VScalar (z : Z)
| VList (l : list Z).

(** A Python [dict] with string keys, in insertion order. *)
Definition dict : Type := list (string * value).

(** [d[k]]: KeyError when the key is missing. *)
Fixpoint dict_get (d : dict) (k : string) : res value :=
  match d with
  | [] => Raise KeyError
  | (k', v) :: d' => if String.eqb k' k then Ok v else dict_get d' k
  end.

Definition keys (d : dict) : list string := map fst d.

(** A row maps a column name to its cell; a missing entry is NaN. *)
Record DataFrame : Type := {
  columns : list string;
  rows : list (gmap string Z)
}.

(** [pd.DataFrame()] *)
Definition empty_frame : DataFrame := {| columns := []; rows := [] |}.

(** [len(df)] *)
Definition len (df : DataFrame) : nat := length (rows df).

(** Number of cells a dictionary value contributes once the frame built
    from the values is transposed. *)
Definition value_len (v : value) : nat :=
  match v with
  | VNone => 1
  | VScalar _ => 1
  | VList l => length l
  end.

Definition value_cell (v : value) (j : nat) : option Z :=
  match v with
  | VNone => None
  | VScalar z => match j with O => Some z | _ => None end
  | VList l => l !! j
  end.

Fixpoint row_of (d : dict) (j : nat) : gmap string Z :=
  match d with
  | [] => ∅
  | (k, v) :: d' =>
      match value_cell v j with
      | Some z => <[k := z]> (row_of d' j)
      | None => row_of d' j
      end
  end.

Definition nrows (d : dict) : nat := foldr Nat.max O (map (fun kv => value_len (snd kv)) d).

(** [pd.DataFrame(extraction.values()).T] with [columns = extraction.keys()]:
    one row per position of the value columns (a single row for a
    dictionary of scalars, none for an empty dictionary).  The extractor
    fills a dictionary with scalars or with columns; a scalar next to a
    column counts as a column of one cell. *)
Definition frame_of_dict (d : dict) : DataFrame :=
  {| columns := keys d;
     rows := map (row_of d) (seq 0 (nrows d)) |}.

(** [df[c] = z]: the column is overwritten, or added last. *)
Definition set_column (df : DataFrame) (c : string) (z : Z) : DataFrame :=
  {| columns := if bool_decide (c ∈ columns df) then columns df
                else columns df ++ [c];
     rows := map (fun r => <[c := z]> r) (rows df) |}.

Fixpoint insert_sorted (c : string) (l : list string) : list string :=
  match l with
  | [] => [c]
  | d :: l' =>
      match String.compare c d with
      | Lt => c :: l
      | Eq => l
      | Gt => d :: insert_sorted c l'
      end
  end.

(** [df.append(other, ignore_index = True, sort = True)]: the rows of
    [other] follow those of [df]; the columns are the sorted union. *)
Definition append (df other : DataFrame) : DataFrame :=
  {| columns := foldr insert_sorted [] (columns df ++ columns other);
     rows := rows df ++ rows other |}.

End Pandas.

(** ** ExtractionWorker: [parallel_extraction] and [save_to_sql] *)

Module Worker.
Import Pandas.
Export IdAlloc.

(** What [process_frame] returns for a frame: the truth, pulse-series and
    RetroReco dictionaries. *)
Record Extraction : Type := {
  truths : dict;
  features : dict;
  retros : dict
}.

(** A physics frame is opaque to the converter; it is identified with the
    outcome of [process_frame] on it. *)
Definition Frame : Type := res Extraction.

(** One call of [i3_file.pop_physics()]: it raises ([Raise]), returns a
    value that is false in a condition ([Ok None]), or returns a frame.
    Each call consumes one entry, and [i3_file.more()] holds as long as
    entries remain. *)
Definition Pop : Type := res (option Frame).

(** The collaborators reading the file system. *)
Record Env : Type := {
  load_geospatial_data : string -> res unit;
  I3File : string -> res (list Pop)
}.

Record Settings : Type := {
  input_files : list string;
  id : string;
  gcd_files : list string;
  event_no_list : arange;
  mode : string;
  pulsemap : string;
  max_dict_size : Z;
  db_name : string;
  outdir : string
}.

(** A temporary database as [save_to_sql] writes it: the [truth] table,
    the [RetroReco] table when there is one, and the pulsemap table.  The
    three are kept apart (the pulsemap key is a table name of its own),
    and [to_sql] into the new file is taken to succeed. *)
Record Shard : Type := {
  truth_table : DataFrame;
  retro_table : option DataFrame;
  pulsemap_table : DataFrame
}.

Definition File : Type := (string * Shard)%type.

(** The local variables of [parallel_extraction], and the files written
    so far (oldest first). *)
Record wstate : Type := {
  event_counter : nat;
  feature_big : DataFrame;
  truth_big : DataFrame;
  retro_big : DataFrame;
  output_count : nat;
  written : list File
}.

Definition init : wstate :=
  {| event_counter := 0; feature_big := empty_frame;
     truth_big := empty_frame; retro_big := empty_frame;
     output_count := 0; written := [] |}.

(** A worker is either still running, or has died with an exception,
    leaving the files it had written. *)
Inductive wres : Type :=
| Running (s : wstate)
| Crashed (e : exn) (files : list File).

Definition files_of (r : wres) : list File :=
  match r with
  | Running s => written s
  | Crashed _ fs => fs
  end.

Definition apply_event_no (extraction : dict) (event_no_list : arange)
    (event_counter : nat) : res DataFrame :=
  let out := frame_of_dict extraction in
  res_bind (getitem event_no_list event_counter) (fun no =>
  Ok (set_column out "event_no" no)).

Definition isempty (features : dict) : res bool :=
  res_bind (dict_get features "dom_x") (fun v =>
  match v with
  | VNone => Ok true
  | _ => Ok false
  end).

Definition str (n : nat) : string := NilZero.string_of_uint (Nat.to_uint n).

(** ['sqlite:///' + outdir + '/%s/tmp/worker-%s-%s.db' % (db_name, id,
    output_count)], without the scheme prefix. *)
Definition shard_path (st : Settings) (output_count : nat) : string :=
  outdir st +:+ "/" +:+ db_name st +:+ "/tmp/worker-" +:+ id st +:+ "-"
    +:+ str output_count +:+ ".db".

Definition save_to_sql (st : Settings) (feature_big truth_big retro_big : DataFrame)
    (output_count : nat) : File :=
  (shard_path st output_count,
   {| truth_table := truth_big;
      retro_table := if (0 <? len retro_big)%nat then Some retro_big else None;
      pulsemap_table := feature_big |}).

(** Lines 241-251: one frame accumulated into the buffers. *)
Definition frame_body (st : Settings) (s : wstate) (frame : Frame) : res wstate :=
  res_bind frame (fun x =>
  res_bind (apply_event_no (truths x) (event_no_list st) (event_counter s)) (fun truth =>
  let truth_big' := append (truth_big s) truth in
  res_bind (if (0 <? length (retros x))%nat
            then res_bind (apply_event_no (retros x) (event_no_list st) (event_counter s))
                   (fun retro => Ok (append (retro_big s) retro))
            else Ok (retro_big s)) (fun retro_big' =>
  res_bind (isempty (features x)) (fun is_empty =>
  res_bind (if is_empty then Ok (feature_big s)
            else res_bind (apply_event_no (features x) (event_no_list st) (event_counter s))
                   (fun feats => Ok (append (feature_big s) feats))) (fun feature_big' =>
  Ok {| event_counter := S (event_counter s);
        feature_big := feature_big';
        truth_big := truth_big';
        retro_big := retro_big';
        output_count := output_count s;
        written := written s |}))))).

(** Lines 252-258: flush once the truth buffer has reached the
    threshold. *)
Definition flush_if_full (st : Settings) (s : wstate) : wstate :=
  if Z.of_nat (len (truth_big s)) >=? max_dict_size st then
    {| event_counter := event_counter s;
       feature_big := empty_frame;
       truth_big := empty_frame;
       retro_big := empty_frame;
       output_count := S (output_count s);
       written := written s ++
         [save_to_sql st (feature_big s) (truth_big s) (retro_big s) (output_count s)] |}
  else s.

(** Lines 235-258: the [while i3_file.more()] loop.  Only
    [pop_physics] sits inside the [try]. *)
Fixpoint frames_loop (st : Settings) (s : wstate) (pops : list Pop) : wres :=
  match pops with
  | [] => Running s
  | pop :: rest =>
      let frame := match pop with
                   | Ok f => f
                   | Raise _ => None       (* except: frame = False *)
                   end in
      match frame with
      | Some f =>
          match frame_body st s f with
          | Ok s' => frames_loop st (flush_if_full st s') rest
          | Raise e => Crashed e (written s)
          end
      | None => frames_loop st s rest
      end
  end.

(** Lines 231-259: the loop over the worker's files; [u] is the index of
    the first file of [files] in [input_files]. *)
Fixpoint files_loop (env : Env) (st : Settings) (s : wstate) (u : nat)
    (files : list string) : wres :=
  match files with
  | [] => Running s
  | file :: rest =>
      match gcd_files st !! u with
      | None => Crashed IndexError (written s)
      | Some gcd =>
          match load_geospatial_data env gcd with
          | Raise e => Crashed e (written s)
          | Ok _ =>
              match I3File env file with
              | Raise e => Crashed e (written s)
              | Ok pops =>
                  match frames_loop st s pops with
                  | Running s' => files_loop env st s' (S u) rest
                  | Crashed e fs => Crashed e fs
                  end
              end
          end
      end
  end.

(** Lines 260-265: the flush at the end of the input. *)
Definition final_flush (st : Settings) (s : wstate) : wstate :=
  if (0 <? len (truth_big s))%nat then
    {| event_counter := event_counter s;
       feature_big := empty_frame;
       truth_big := empty_frame;
       retro_big := empty_frame;
       output_count := S (output_count s);
       written := written s ++
         [save_to_sql st (feature_big s) (truth_big s) (retro_big s) (output_count s)] |}
  else s.

Definition parallel_extraction (env : Env) (st : Settings) : wres :=
  match files_loop env st init 0 (input_files st) with
  | Running s => Running (final_flush st s)
  | Crashed e fs => Crashed e fs
  end.

End Worker.

(** ** The SQLite databases, as far as the converter uses them *)

Module Sqlite.
Import Pandas.

(** The column declarations the converter writes, and the one pandas
    chooses when [to_sql] has to create a table itself (a type inferred
    from the data, no constraint). *)
Inductive ColDecl : Type :=
| IntegerPrimaryKeyNotNull
| NotNull
| Float
| Inferred.

Record Table : Type := {
  schema : list (string * ColDecl);
  trows : list (gmap string Z)
}.

(** A database file: its tables by name, and its indexes by name, each on
    one column of one table. *)
Record Database : Type := {
  tables : gmap string Table;
  indexes : gmap string (string * string)
}.

Definition empty_db : Database := {| tables := ∅; indexes := ∅ |}.

Definition table_columns (t : Table) : list string := map fst (schema t).

(** [CREATE TABLE name (...)]: an error when the table exists. *)
Definition create_table (name : string) (sch : list (string * ColDecl))
    (db : Database) : res Database :=
  match tables db !! name with
  | Some _ => Raise OperationalError
  | None =>
      Ok {| tables := <[name := {| schema := sch; trows := [] |}]> (tables db);
            indexes := indexes db |}
  end.

(** [CREATE INDEX iname ON tname (column)]: an error when the index
    exists, or the table or the column does not. *)
Definition create_index (iname tname column : string) (db : Database)
    : res Database :=
  match indexes db !! iname with
  | Some _ => Raise OperationalError
  | None =>
      match tables db !! tname with
      | None => Raise OperationalError
      | Some t =>
          if bool_decide (column ∈ table_columns t) then
            Ok {| tables := tables db;
                  indexes := <[iname := (tname, column)]> (indexes db) |}
          else Raise OperationalError
      end
  end.

(** The next row id of an INTEGER PRIMARY KEY column: 1 in a table without
    keys, else one more than the largest key in use. *)
Definition largest_key (column : string) (rows : list (gmap string Z)) : option Z :=
  foldr (fun r m => match r !! column, m with
                    | Some v, Some w => Some (Z.max v w)
                    | Some v, None => Some v
                    | None, _ => m
                    end) None rows.

Definition next_rowid (column : string) (rows : list (gmap string Z)) : Z :=
  match largest_key column rows with
  | Some m => m + 1
  | None => 1
  end.

(** One column constraint checked against a row about to be inserted
    after [rows].  A NULL in an INTEGER PRIMARY KEY column is replaced by
    the next row id. *)
Definition check_column (rows : list (gmap string Z)) (cd : string * ColDecl)
    (row : gmap string Z) : res (gmap string Z) :=
  match snd cd with
  | IntegerPrimaryKeyNotNull =>
      match row !! fst cd with
      | Some v =>
          if bool_decide (Exists (fun r => r !! fst cd = Some v) rows)
          then Raise IntegrityError
          else Ok row
      | None => Ok (<[fst cd := next_rowid (fst cd) rows]> row)
      end
  | NotNull =>
      match row !! fst cd with
      | Some _ => Ok row
      | None => Raise IntegrityError
      end
  | Float | Inferred => Ok row
  end.

Fixpoint check_columns (rows : list (gmap string Z)) (sch : list (string * ColDecl))
    (row : gmap string Z) : res (gmap string Z) :=
  match sch with
  | [] => Ok row
  | cd :: sch' => res_bind (check_column rows cd row) (check_columns rows sch')
  end.

Definition insert_row (t : Table) (row : gmap string Z) : res Table :=
  res_bind (check_columns (trows t) (schema t) row) (fun row' =>
  Ok {| schema := schema t; trows := trows t ++ [row'] |}).

Fixpoint insert_rows (t : Table) (rows : list (gmap string Z)) : res Table :=
  match rows with
  | [] => Ok t
  | row :: rest => res_bind (insert_row t row) (fun t' => insert_rows t' rest)
  end.

(** The cells of a row that lie under the columns of its frame. *)
Definition project (cols : list string) (row : gmap string Z) : gmap string Z :=
  filter (fun kv => fst kv ∈ cols) row.

(** [df.to_sql(name, engine, index = False, if_exists = 'append')]: the
    table is created from the frame when it is missing; the rows are
    inserted under the frame's column names, in one transaction. *)
Definition to_sql (name : string) (df : DataFrame) (db : Database) : res Database :=
  match tables db !! name with
  | None =>
      match columns df with
      | [] => Raise OperationalError
      | _ =>
          res_bind (insert_rows {| schema := map (fun c => (c, Inferred)) (columns df);
                                   trows := [] |}
                                (map (project (columns df)) (rows df))) (fun t =>
          Ok {| tables := <[name := t]> (tables db); indexes := indexes db |})
      end
  | Some t =>
      match rows df with
      | [] => Ok db
      | _ =>
          if forallb (fun c => bool_decide (c ∈ table_columns t)) (columns df) then
            res_bind (insert_rows t (map (project (columns df)) (rows df))) (fun t' =>
            Ok {| tables := <[name := t']> (tables db); indexes := indexes db |})
          else Raise OperationalError
      end
  end.

(** A sequence of statements against one database file: the state reached,
    and the exception that stopped the sequence, if any.  A statement that
    fails leaves the database as it was. *)
Definition sres : Type := (Database * option exn)%type.

Definition exec (op : Database -> res Database) (db : Database) : sres :=
  match op db with
  | Ok db' => (db', None)
  | Raise e => (db, Some e)
  end.

Definition and_then (r : sres) (k : Database -> sres) : sres :=
  match snd r with
  | None => k (fst r)
  | Some e => r
  end.

End Sqlite.

(** ** SchemaInferer and DatabaseMerger: the methods of [SQLiteDataConverter]
    behind [_merge_databases] *)

Module Merger.
Import Pandas.
Export Sqlite.
Import Worker.

Definition nl : string := String (ascii_of_nat 10) EmptyString.

(** [get_temporary_database_paths]: the entries of the directory whose
    name contains [.db]. *)
Definition get_temporary_database_paths (dir : list File) : list File :=
  filter (fun f => Is_true (Discovery.contains ".db" (fst f))) dir.

(** The loop of [_extract_column_names] over the shards (lines 367-376);
    [retro_columns] is unbound before the first iteration. *)
Fixpoint scan_retro (db_files : list File) (retro_columns : option (list string))
    : option (list string) :=
  match db_files with
  | [] => retro_columns
  | db_file :: rest =>
      match retro_table (snd db_file) with
      | Some retro =>                        (* the query succeeds *)
          if (0 <? length (columns retro))%nat then Some (columns retro)   (* break *)
          else scan_retro rest (Some (columns retro))
      | None => scan_retro rest (Some [])    (* no such table: except *)
      end
  end.

Definition _extract_column_names (db_files : list File)
    : res (list string * list string * list string) :=
  match db_files with
  | [] => Raise IndexError
  | db :: _ =>
      let truth_columns := columns (truth_table (snd db)) in
      let pulse_map_columns := columns (pulsemap_table (snd db)) in
      match scan_retro db_files None with
      | Some retro_columns => Ok (truth_columns, pulse_map_columns, retro_columns)
      | None => Raise UnboundLocalError
      end
  end.

(** The declaration [_create_table] gives a column. *)
Definition column_decl (is_pulse_map : bool) (column : string) : ColDecl :=
  if String.eqb column "event_no" then
    if is_pulse_map then NotNull else IntegerPrimaryKeyNotNull
  else Float.

Definition decl_text (d : ColDecl) : string :=
  match d with
  | IntegerPrimaryKeyNotNull => " INTEGER PRIMARY KEY NOT NULL"
  | NotNull => " NOT NULL"
  | Float => " FLOAT"
  | Inferred => ""
  end.

(** The loop of [_create_table] building [query_columns] (lines 406-425);
    the variable is unbound until the first column. *)
Definition query_columns (columns : list string) (is_pulse_map : bool)
    : option string :=
  fold_left
    (fun query_columns column =>
       match query_columns with
       | None =>                                             (* count == 0 *)
           if String.eqb column "event_no" then
             if negb is_pulse_map
             then Some (column +:+ " INTEGER PRIMARY KEY NOT NULL")
             else Some (column +:+ " NOT NULL")
           else Some (column +:+ " FLOAT")
       | Some q =>
           if String.eqb column "event_no" then
             if negb is_pulse_map
             then Some (q +:+ ", " +:+ column +:+ " INTEGER PRIMARY KEY NOT NULL")
             else Some (q +:+ ", " +:+ column +:+ " NOT NULL")
           else Some (q +:+ ", " +:+ column +:+ " FLOAT")
       end)
    columns None.

(** The script [_create_table] hands to [_run_sql_code]. *)
Definition create_table_code (table_name : string) (columns : list string)
    (is_pulse_map : bool) : res string :=
  match query_columns columns is_pulse_map with
  | None => Raise UnboundLocalError
  | Some q =>
      Ok ("PRAGMA foreign_keys=off;" +:+ nl +:+ "CREATE TABLE " +:+ table_name
          +:+ " (" +:+ q +:+ ");" +:+ nl +:+ "PRAGMA foreign_keys=on;")
  end.

(** The script of [_attach_index]. *)
Definition attach_index_code (table_name : string) : string :=
  "PRAGMA foreign_keys=off;" +:+ nl +:+ "BEGIN TRANSACTION;" +:+ nl
  +:+ "CREATE INDEX event_no_" +:+ table_name +:+ " ON " +:+ table_name
  +:+ " (event_no);" +:+ nl +:+ "COMMIT TRANSACTION;" +:+ nl
  +:+ "PRAGMA foreign_keys=on;".

(** The text of a [CREATE TABLE] statement for a schema, and of the two
    scripts around the statements they hold. *)
Definition render_schema (sch : list (string * ColDecl)) : string :=
  String.concat ", " (map (fun cd => fst cd +:+ decl_text (snd cd)) sch).

Definition render_create_table (table_name : string) (sch : list (string * ColDecl))
    : string :=
  "PRAGMA foreign_keys=off;" +:+ nl +:+ "CREATE TABLE " +:+ table_name
  +:+ " (" +:+ render_schema sch +:+ ");" +:+ nl +:+ "PRAGMA foreign_keys=on;".

Definition _attach_index (table_name : string) (db : Database) : sres :=
  exec (create_index ("event_no_" +:+ table_name) table_name "event_no") db.

(** [_create_table]: the script is built, then run; the statement it holds
    creates the table with the schema [column_decl] gives. *)
Definition _create_table (table_name : string) (columns : list string)
    (is_pulse_map : bool) (db : Database) : sres :=
  match create_table_code table_name columns is_pulse_map with
  | Raise e => (db, Some e)
  | Ok _ =>
      and_then
        (exec (create_table table_name
                 (map (fun c => (c, column_decl is_pulse_map c)) columns)) db)
        (fun db' => if is_pulse_map then _attach_index table_name db'
                    else (db', None))
  end.

Definition _create_empty_tables (pulse_map : string)
    (truth_columns pulse_map_columns retro_columns : list string)
    (db : Database) : sres :=
  and_then (_create_table "truth" truth_columns false db) (fun db =>
  and_then (if (1 <? length retro_columns)%nat
            then _create_table "RetroReco" retro_columns false db
            else (db, None)) (fun db =>
  _create_table pulse_map pulse_map_columns true db)).

Definition _submit_truth (truth : DataFrame) (db : Database) : sres :=
  exec (to_sql "truth" truth) db.

Definition _submit_pulse_maps (features : DataFrame) (pulse_map : string)
    (db : Database) : sres :=
  exec (to_sql pulse_map features) db.

(** [retro] is the frame read from the shard, or the empty list when the
    shard has no RetroReco table. *)
Definition _submit_retro (retro : option DataFrame) (db : Database) : sres :=
  match retro with
  | Some retro =>
      if (0 <? len retro)%nat then exec (to_sql "RetroReco" retro) db
      else (db, None)
  | None => (db, None)
  end.

Definition _extract_everything (db : Shard)
    : DataFrame * DataFrame * option DataFrame :=
  (truth_table db, pulsemap_table db, retro_table db).

Fixpoint _merge_temporary_databases (db_files : list File) (pulse_map : string)
    (db : Database) : sres :=
  match db_files with
  | [] => (db, None)
  | file :: rest =>
      let '(truth, features, retro) := _extract_everything (snd file) in
      and_then (_submit_truth truth db) (fun db =>
      and_then (_submit_pulse_maps features pulse_map db) (fun db =>
      and_then (_submit_retro retro db) (fun db =>
      _merge_temporary_databases rest pulse_map db)))
  end.

(** What [_merge_databases] leaves behind. *)
Record Merged : Type := {
  final : option Database;       (* data/<db_name>.db, if a script ran on it *)
  tmp_left : list File;          (* what is left of the tmp directory *)
  merge_log : list string;       (* what was printed *)
  merge_raised : option exn
}.

(** [_merge_databases] over the content of the tmp directory, the final
    database not existing yet. *)
Definition _merge_databases (outdir db_name pulsemap : string) (tmp : list File)
    : Merged :=
  let path_tmp := outdir +:+ "/" +:+ db_name +:+ "/tmp" in
  let db_files := get_temporary_database_paths tmp in
  if (0 <? length db_files)%nat then
    let found := "Found " +:+ str (length db_files) +:+ " .db-files in " +:+ path_tmp in
    match _extract_column_names db_files with
    | Raise e =>
        {| final := None; tmp_left := tmp;
           merge_log := [found]; merge_raised := Some e |}
    | Ok (truth_columns, pulse_map_columns, retro_columns) =>
        let r :=
          and_then (_create_empty_tables pulsemap truth_columns pulse_map_columns
                      retro_columns empty_db) (fun db =>
          _merge_temporary_databases db_files pulsemap db) in
        {| final := match truth_columns with
                    | [] => None             (* no script was run *)
                    | _ => Some (fst r)
                    end;
           tmp_left := match snd r with None => [] | Some _ => tmp end;
           merge_log := [found]; merge_raised := snd r |}
    end
  else
    {| final := None; tmp_left := tmp;
       merge_log := ["No temporary database files found!"];
       merge_raised := None |}.

End Merger.

(** ** Orchestrator: [SQLiteDataConverter._processfiles] *)

Module Orchestrator.
Import Pandas.
Export Merger.
Import Worker.

(** The arguments of [SQLiteDataConverter].  A worker count that is not
    positive is [0] here: [np.array_split] refuses both alike. *)
Record Converter : Type := {
  c_paths : list string;
  c_mode : string;
  c_pulsemap : string;
  c_gcd_rescue : string;
  c_outdir : string;
  c_db_name : string;
  c_workers : nat;
  c_max_dict_size : Z
}.

(** What a run reads from outside: the directory tree, the random draws of
    the shuffles, the i3 and gcd files, and the order in which
    [os.listdir] returns the tmp directory. *)
Record World : Type := {
  tree : Discovery.FileSystem;
  rng : nat -> nat -> nat;
  wenv : Env;
  listdir_draws : nat -> nat
}.

(** What a run leaves behind. *)
Record Outcome : Type := {
  csv : option (list string);   (* config/i3files.csv *)
  pool : list wres;             (* what each worker did *)
  merged : option Merged;       (* [None]: [_merge_databases] was not called *)
  log : list string;
  raised : option exn           (* the exception [_processfiles] ends with *)
}.

(** [repr] of a list of plain strings. *)
Definition repr_list (l : list string) : string :=
  "[" +:+ String.concat ", " (map (fun p => "'" +:+ p +:+ "'") l) +:+ "]".

Definition counting (paths : list string) : string :=
  "Counting files in: " +:+ nl +:+ repr_list paths +:+ nl
  +:+ " This might take a few minutes...".

Definition no_files_found (paths : list string) : string :=
  "ERROR: No files found in: " +:+ repr_list paths +:+ " " +:+ nl
  +:+ " Please make sure your folder structure adheres to IceCube convention".

(** The loop building [settings] (lines 324-325). *)
Fixpoint make_settings (c : Converter) (i : nat)
    (file_list gcd_file_list : list (list string)) (event_nos : list arange)
    : list Settings :=
  match file_list, gcd_file_list, event_nos with
  | files :: file_list', gcds :: gcd_file_list', nos :: event_nos' =>
      {| input_files := files; id := str i; gcd_files := gcds;
         event_no_list := nos; mode := c_mode c; pulsemap := c_pulsemap c;
         max_dict_size := c_max_dict_size c; db_name := c_db_name c;
         outdir := c_outdir c |}
      :: make_settings c (S i) file_list' gcd_file_list' event_nos'
  | _, _, _ => []
  end.

Definition plan (c : Converter) (input_files gcd_files : list string)
    : res (list Settings) :=
  let workers := if (length input_files <? c_workers c)%nat
                 then length input_files else c_workers c in
  res_bind (array_split_arange {| start := 0; stop := U |} workers) (fun event_nos =>
  res_bind (array_split_list input_files workers) (fun file_list =>
  res_bind (array_split_list gcd_files workers) (fun gcd_file_list =>
  Ok (make_settings c 0 file_list gcd_file_list event_nos)))).

(** [os.listdir] of the tmp directory, empty before the run: the files
    the workers wrote, in some order. *)
Definition listdir (w : World) (written : list File) : list File :=
  Discovery.sample (listdir_draws w) (length written) written.

(** [p.map_async(parallel_extraction, settings)], [p.close()], [p.join()]:
    every worker runs to its end or to its exception.  The result object
    of [map_async], which holds the exceptions, is dropped. *)
Definition map_async (w : World) (settings : list Settings) : list wres :=
  map (parallel_extraction (wenv w)) settings.

Definition _processfiles (c : Converter) (w : World) : Outcome :=
  match Discovery.find_files (tree w) (rng w) (c_paths c) (c_gcd_rescue c) None with
  | Raise e =>
      {| csv := None; pool := []; merged := None;
         log := [counting (c_paths c)]; raised := Some e |}
  | Ok (input_files, gcd_files, csv) =>
      if (0 <? length input_files)%nat then
        match plan c input_files gcd_files with
        | Raise e =>
            {| csv := csv; pool := []; merged := None;
               log := [counting (c_paths c)]; raised := Some e |}
        | Ok settings =>
            let pool := map_async w settings in
            let m := _merge_databases (c_outdir c) (c_db_name c) (c_pulsemap c)
                       (listdir w (concat (map files_of pool))) in
            {| csv := csv; pool := pool; merged := Some m;
               log := [counting (c_paths c); "starting pool!"; "pool"] ++ merge_log m;
               raised := merge_raised m |}
        end
      else
        {| csv := csv; pool := []; merged := None;
           log := [counting (c_paths c); no_files_found (c_paths c)];
           raised := None |}
  end.

End Orchestrator.

(** ** Deployment: [apply_to_files] of
    [examples/01_icetray/04_i3_module_in_native_icetray_example.py] *)

Module Deployment.

(** [s.split(sep)] for a separator of one character: the pieces between
    the separators, at least one. *)
Fixpoint split (sep : ascii) (s : string) : list string :=
  match s with
  | EmptyString => [EmptyString]
  | String c s' =>
      if Ascii.eqb c sep then EmptyString :: split sep s'
      else match split sep s' with
           | piece :: rest => String c piece :: rest
           | [] => [String c EmptyString]
           end
  end.

(** [l[-1]]: IndexError on an empty list. *)
Definition last_item {A} (l : list A) : res A :=
  match List.last (map Some l) None with
  | Some x => Ok x
  | None => Raise IndexError
  end.

Inductive Stream : Type := DAQ | Physics | TrayInfo | Simulation.

(** An [I3Tray] as [apply_to_files] configures it before it is executed:
    the reader, the modules in the order added, and the writer. *)
Record Tray (Module_ : Type) : Type := {
  reader_filenames : list string;
  tray_modules : list Module_;
  writer_streams : list Stream;
  writer_filename : string
}.
Arguments reader_filenames {Module_} t.
Arguments tray_modules {Module_} t.
Arguments writer_streams {Module_} t.
Arguments writer_filename {Module_} t.

(** The trays [apply_to_files] sets up and executes, one for each i3 file,
    in order. *)
Fixpoint apply_to_files {Module_} (i3_files : list string) (gcd_file : string)
    (output_folder : string) (modules : list Module_)
    : res (list (Tray Module_)) :=
  match i3_files with
  | [] => Ok []
  | i3_file :: rest =>
      res_bind (last_item (split "/" i3_file)) (fun name =>
      let tray :=
        {| reader_filenames := [gcd_file; i3_file];
           tray_modules := modules;
           writer_streams := [DAQ; Physics; TrayInfo; Simulation];
           writer_filename := output_folder +:+ "/" +:+ name |} in
      res_bind (apply_to_files rest gcd_file output_folder modules) (fun trays =>
      Ok (tray :: trays)))
  end.

End Deployment.

(** ** Concrete frames, files and settings used for evaluation *)

Module Scenario.
Import Pandas Worker.

(** A frame with two pulses. *)
Definition x_ok : Extraction :=
  {| truths := [("energy", VScalar 5); ("zenith", VScalar 1)];
     features := [("dom_x", VList [1; 2]); ("charge", VList [7; 8])];
     retros := [] |}.

(** A frame whose pulse series is empty: [dom_x] is [None]. *)
Definition x_empty : Extraction :=
  {| truths := [("energy", VScalar 6); ("zenith", VScalar 2)];
     features := [("dom_x", VNone); ("charge", VNone)];
     retros := [] |}.

(** A frame whose pulse dictionary has no [dom_x] key at all. *)
Definition x_absent : Extraction :=
  {| truths := [("energy", VScalar 6); ("zenith", VScalar 2)];
     features := [("charge", VList [7])];
     retros := [] |}.

(** One worker, ten ids, two events per shard, one input file. *)
Definition st0 : Settings :=
  {| input_files := ["a.i3.zst"]; id := "0"; gcd_files := ["gcd.i3.gz"];
     event_no_list := {| start := 0; stop := 10 |};
     mode := "oscNext"; pulsemap := "SRTInIcePulses"; max_dict_size := 2;
     db_name := "db"; outdir := "out" |}.

(** An environment in which every gcd file loads and every i3 file holds
    the given sequence of [pop_physics] outcomes. *)
Definition env_of (pops : list Pop) : Env :=
  {| load_geospatial_data := fun _ => Ok tt; I3File := fun _ => Ok pops |}.

(** A directory with its gcd file at the top and its i3 files one level
    down. *)
Definition tree_gcd_top : Discovery.FileSystem := fun dir =>
  if String.eqb dir "data" then
    Some {| Discovery.folders := ["run1"];
            Discovery.files := ["GeoCalibDetectorStatus.i3.gz"] |}
  else if String.eqb dir "data/run1" then
    Some {| Discovery.folders := [];
            Discovery.files := ["a.i3.zst"; "b.i3.zst"] |}
  else None.


(** Shards as workers write them: one without RetroReco table, and two
    with a RetroReco row for the same event number. *)
Definition shard_plain : Shard :=
  {| truth_table := {| columns := ["energy"; "event_no"];
                       rows := [{[ "energy" := 5; "event_no" := 0 ]}] |};
     retro_table := None;
     pulsemap_table := {| columns := ["dom_x"; "event_no"];
                          rows := [{[ "dom_x" := 1; "event_no" := 0 ]}] |} |}.

Definition shard_retro (event_no : Z) : Shard :=
  {| truth_table := {| columns := ["energy"; "event_no"];
                       rows := [{[ "energy" := 6; "event_no" := event_no ]}] |};
     retro_table :=
       Some {| columns := ["azimuth_retro"; "event_no"];
               rows := [{[ "azimuth_retro" := 3; "event_no" := 7 ]}] |};
     pulsemap_table := {| columns := ["dom_x"; "event_no"];
                          rows := [{[ "dom_x" := 2; "event_no" := event_no ]}] |} |}.


Definition tmp_duplicate_retro : list File :=
  [("worker-0-0.db", shard_retro 1); ("worker-1-0.db", shard_retro 2)].

(** Two i3 files in one directory, the first of which cannot be opened,
    converted by two workers. *)
Definition tree_two_files : Discovery.FileSystem := fun dir =>
  if String.eqb dir "data" then
    Some {| Discovery.folders := [];
            Discovery.files := ["a.i3.zst"; "b.i3.zst"] |}
  else None.

Definition env_first_unreadable : Env :=
  {| load_geospatial_data := fun _ => Ok tt;
     I3File := fun file =>
       if String.eqb file "data/a.i3.zst" then Raise OpenError
       else Ok [Ok (Some (Ok x_ok))] |}.

Definition converter : Orchestrator.Converter :=
  {| Orchestrator.c_paths := ["data"]; Orchestrator.c_mode := "oscNext";
     Orchestrator.c_pulsemap := "SRTInIcePulses";
     Orchestrator.c_gcd_rescue := "rescue.i3.gz";
     Orchestrator.c_outdir := "out"; Orchestrator.c_db_name := "db";
     Orchestrator.c_workers := 2; Orchestrator.c_max_dict_size := 2 |}.

Definition world_first_unreadable : Orchestrator.World :=
  {| Orchestrator.tree := tree_two_files;
     Orchestrator.rng := fun _ _ => 0%nat;
     Orchestrator.wenv := env_first_unreadable;
     Orchestrator.listdir_draws := fun _ => 0%nat |}.

(** Three i3 files and one gcd file in one directory, five frames of which
    one has an empty pulse series, two workers, two events per shard. *)
Definition tree_three_files : Discovery.FileSystem := fun dir =>
  if String.eqb dir "data" then
    Some {| Discovery.folders := [];
            Discovery.files := ["GeoCalibDetectorStatus.i3.gz"; "a.i3.zst";
                                "b.i3.zst"; "c.i3.zst"] |}
  else None.

Definition frame_with_pulse (e : Z) : Extraction :=
  {| truths := [("energy", VScalar e)];
     features := [("dom_x", VList [e])];
     retros := [] |}.

Definition frame_without_pulse (e : Z) : Extraction :=
  {| truths := [("energy", VScalar e)];
     features := [("dom_x", VNone)];
     retros := [] |}.

Definition env_five_frames : Env :=
  {| load_geospatial_data := fun _ => Ok tt;
     I3File := fun file =>
       if String.eqb file "data/a.i3.zst" then
         Ok [Ok (Some (Ok (frame_with_pulse 1))); Ok (Some (Ok (frame_with_pulse 2)))]
       else if String.eqb file "data/b.i3.zst" then
         Ok [Ok (Some (Ok (frame_with_pulse 3)));
             Ok (Some (Ok (frame_without_pulse 4)))]
       else Ok [Ok (Some (Ok (frame_with_pulse 5)))] |}.

Definition world_five_frames : Orchestrator.World :=
  {| Orchestrator.tree := tree_three_files;
     Orchestrator.rng := fun k n => (k + 2 * n)%nat;
     Orchestrator.wenv := env_five_frames;
     Orchestrator.listdir_draws := fun n => n |}.


End Scenario.

(** * Lemmas about the embedding *)

(** ** Properties of the allocation *)

Section IdAllocFacts.
Import IdAlloc.

Fixpoint sumZ (l : list Z) : Z :=
  match l with [] => 0 | x :: xs => x + sumZ xs end.

Lemma sumZ_app l1 l2 : sumZ (l1 ++ l2) = sumZ l1 + sumZ l2.
Proof. induction l1 as [|x l1 IH]; simpl; lia. Qed.

Lemma sumZ_repeat x n : sumZ (repeat x n) = x * Z.of_nat n.
Proof. induction n as [|n IH]; simpl repeat; simpl sumZ; lia. Qed.

Lemma section_sizes_length Ntotal Nsections :
  0 <= Ntotal -> (0 < Nsections)%nat ->
  length (section_sizes Ntotal Nsections) = Nsections.
Proof.
  intros Hn Hw. unfold section_sizes.
  rewrite length_app, !repeat_length.
  assert (0 <= Ntotal mod Z.of_nat Nsections < Z.of_nat Nsections)
    by (apply Z.mod_pos_bound; lia).
  lia.
Qed.

Lemma section_sizes_sum Ntotal Nsections :
  0 <= Ntotal -> (0 < Nsections)%nat ->
  sumZ (section_sizes Ntotal Nsections) = Ntotal.
Proof.
  intros Hn Hw. unfold section_sizes.
  rewrite sumZ_app, !sumZ_repeat.
  pose proof (Z.div_mod Ntotal (Z.of_nat Nsections) ltac:(lia)) as Hdm.
  assert (0 <= Ntotal mod Z.of_nat Nsections < Z.of_nat Nsections) as Hb
    by (apply Z.mod_pos_bound; lia).
  rewrite Nat2Z.inj_sub by lia. rewrite Z2Nat.id by lia.
  nia.
Qed.

Lemma section_sizes_nonneg Ntotal Nsections :
  0 <= Ntotal -> (0 < Nsections)%nat ->
  Forall (fun n => 0 <= n) (section_sizes Ntotal Nsections).
Proof.
  intros Hn Hw. unfold section_sizes.
  assert (0 <= Ntotal / Z.of_nat Nsections) by (apply Z.div_pos; lia).
  apply Forall_app; split; apply Forall_forall; intros x Hx;
    apply list_elem_of_In, repeat_spec in Hx; lia.
Qed.

Lemma slices_length a sizes : length (slices a sizes) = length sizes.
Proof. revert a; induction sizes as [|n ns IH]; intros a; simpl; auto. Qed.

(** Each slice is a well-formed interval inside [a, a + sum). *)
Lemma slices_bounds sizes : forall a i r,
  Forall (fun n => 0 <= n) sizes ->
  slices a sizes !! i = Some r ->
  a <= start r /\ start r <= stop r /\ stop r <= a + sumZ sizes.
Proof.
  induction sizes as [|n ns IH]; intros a i r Hnn Hi; [done|].
  inversion Hnn as [|? ? Hn Hns]; subst.
  assert (0 <= sumZ ns) as Hs.
  { clear -Hns. induction Hns; simpl; lia. }
  destruct i as [|i]; simpl in Hi.
  - inversion Hi; subst; simpl. lia.
  - apply IH in Hi; [|done]. simpl. lia.
Qed.

(** Contiguity: a slice stops where the next one starts. *)
Lemma slices_contiguous sizes : forall a i r r',
  slices a sizes !! i = Some r ->
  slices a sizes !! S i = Some r' ->
  stop r = start r'.
Proof.
  induction sizes as [|n ns IH]; intros a i r r' Hi Hi'; [done|].
  destruct i as [|i]; simpl in Hi, Hi'.
  - inversion Hi; subst; simpl.
    destruct ns; [done|]. simpl in Hi'. by inversion Hi'.
  - eapply IH; eauto.
Qed.

(** Monotonicity: a later slice lies entirely above an earlier one. *)
Lemma slices_ordered sizes : forall a i j r r',
  Forall (fun n => 0 <= n) sizes ->
  (i < j)%nat ->
  slices a sizes !! i = Some r ->
  slices a sizes !! j = Some r' ->
  stop r <= start r'.
Proof.
  induction sizes as [|n ns IH]; intros a i j r r' Hnn Hij Hi Hj; [done|].
  inversion Hnn as [|? ? Hn Hns]; subst.
  destruct j as [|j]; [lia|]. simpl in Hj.
  destruct i as [|i]; simpl in Hi.
  - inversion Hi; subst; simpl.
    apply slices_bounds in Hj; [lia|done].
  - eapply (IH (a + n) i j); eauto. lia.
Qed.

(** Coverage: every point of [a, a + sum) lies in some slice. *)
Lemma slices_cover sizes : forall a x,
  Forall (fun n => 0 <= n) sizes ->
  a <= x < a + sumZ sizes ->
  exists i r, slices a sizes !! i = Some r /\ in_range x r.
Proof.
  induction sizes as [|n ns IH]; intros a x Hnn Hx; simpl in Hx; [lia|].
  inversion Hnn as [|? ? Hn Hns]; subst.
  destruct (Z_lt_dec x (a + n)) as [Hlt|Hge].
  - exists 0%nat, {| start := a; stop := a + n |}. split; [done|].
    unfold in_range; simpl; lia.
  - destruct (IH (a + n) x Hns) as (i & r & Hi & Hr); [lia|].
    exists (S i), r. by split.
Qed.

End IdAllocFacts.

(** ** The id ranges of a run *)

Section RunIds.
Import Pandas Worker Orchestrator.

Lemma make_settings_lookup c file_list : forall k gcd_file_list event_nos i st,
  make_settings c k file_list gcd_file_list event_nos !! i = Some st ->
  event_nos !! i = Some (event_no_list st) /\ id st = str (k + i).
Proof.
  induction file_list as [|files file_list IH];
    intros k [|gcds gcd_file_list] [|nos event_nos] i st; simpl; try done.
  destruct i as [|i]; simpl.
  - intros [= <-]; simpl. split; [done|]. f_equal. lia.
  - intros Hi. apply IH in Hi as [? ->]. split; [done|]. f_equal. lia.
Qed.

(** The ranges [event_nos] hands out: well-formed, contiguous, increasing,
    covering [0, U) and pairwise disjoint. *)
Lemma event_nos_partition (W : nat) :
  (1 <= W)%nat ->
  exists ranges,
    event_nos W = Ok ranges
    /\ length ranges = W
    /\ (forall i r, ranges !! i = Some r -> 0 <= start r /\ start r <= stop r /\ stop r <= U)
    /\ (forall r, ranges !! 0%nat = Some r -> start r = 0)
    /\ (forall r, ranges !! (W - 1)%nat = Some r -> stop r = U)
    /\ (forall i r r', ranges !! i = Some r -> ranges !! S i = Some r' ->
                       stop r = start r')
    /\ (forall i j r r', (i < j)%nat -> ranges !! i = Some r -> ranges !! j = Some r' ->
                         stop r <= start r')
    /\ (forall x, 0 <= x < U -> exists i r, ranges !! i = Some r /\ in_range x r).
Proof.
  intros HW. unfold event_nos, array_split_arange.
  destruct W as [|W']; [lia|]. set (W := S W') in *.
  change (arange_len {| start := 0; stop := U |}) with U. simpl start.
  assert (HU : 0 <= U) by (unfold U; lia).
  pose proof (section_sizes_nonneg U W HU ltac:(lia)) as Hnn.
  pose proof (section_sizes_sum U W HU ltac:(lia)) as Hsum.
  pose proof (section_sizes_length U W HU ltac:(lia)) as Hlen.
  eexists; split; [reflexivity|].
  split; [by rewrite slices_length|].
  split. { intros i r Hi. apply slices_bounds in Hi; [lia|done]. }
  split. { intros r Hr. destruct (section_sizes U W); [done|].
           simpl in Hr. by injection Hr as <-. }
  split.
  { intros r Hr.
    assert (Hlast : forall sizes a, Forall (fun n => 0 <= n) sizes ->
              slices a sizes !! (length sizes - 1)%nat = Some r ->
              stop r = a + sumZ sizes).
    { clear. induction sizes as [|n ns IH]; intros a Hnn Hr; [done|].
      inversion Hnn as [|? ? Hn Hns]; subst.
      destruct ns as [|m ns].
      - simpl in Hr. injection Hr as <-. simpl. lia.
      - simpl length in Hr.
        replace (S (S (length ns)) - 1)%nat with (S (length (m :: ns) - 1)) in Hr
          by (simpl; lia).
        apply IH in Hr; [|done]. rewrite Hr. simpl. lia. }
    replace (W - 1)%nat with (length (section_sizes U W) - 1)%nat in Hr by lia.
    apply Hlast in Hr; [lia|done]. }
  split. { intros i r r'. apply slices_contiguous. }
  split. { intros i j r r'. by apply slices_ordered. }
  intros x Hx. apply slices_cover; [done|lia].
Qed.

Lemma ranges_disjoint (ranges : list arange) :
  (forall i j r r', (i < j)%nat -> ranges !! i = Some r -> ranges !! j = Some r' ->
                    stop r <= start r') ->
  forall i j r r' x,
    ranges !! i = Some r -> ranges !! j = Some r' ->
    in_range x r -> in_range x r' -> i = j.
Proof.
  intros Hord i j r r' x Hi Hj Hx Hx'. unfold in_range in *.
  destruct (Nat.lt_trichotomy i j) as [Hlt|[Heq|Hgt]]; [|done|].
  - pose proof (Hord i j r r' Hlt Hi Hj). lia.
  - pose proof (Hord j i r' r Hgt Hj Hi). lia.
Qed.

End RunIds.

(** ** Discovery facts *)

Section DiscoveryFacts.
Import Discovery.

(** What one directory level contributes, in terms of what [classify]
    found there. *)
Lemma scan_level_spec root names extensions gcd_rescue i3files gcds last :
  classify root names extensions = (i3files, gcds, last) ->
  scan_level root names extensions gcd_rescue =
    (i3files,
     gcds ++ repeat (match last with Some g => g | None => gcd_rescue end)
                    (length i3files - length gcds)).
Proof. unfold scan_level. by intros ->. Qed.

(** No gcd file at the level: every i3 file gets the rescue file. *)
Lemma scan_level_rescue root names extensions gcd_rescue i3files :
  classify root names extensions = (i3files, [], None) ->
  scan_level root names extensions gcd_rescue =
    (i3files, repeat gcd_rescue (length i3files)).
Proof.
  intros H. rewrite (scan_level_spec _ _ _ _ _ _ _ H). simpl.
  by rewrite Nat.sub_0_r.
Qed.

(** One gcd file and at least one i3 file: every i3 file gets that gcd
    file. *)
Lemma scan_level_broadcast root names extensions gcd_rescue i3files g :
  classify root names extensions = (i3files, [g], Some g) ->
  (1 <= length i3files)%nat ->
  scan_level root names extensions gcd_rescue = (i3files, repeat g (length i3files)).
Proof.
  intros H Hlen. rewrite (scan_level_spec _ _ _ _ _ _ _ H).
  destruct i3files as [|f i3files]; simpl in *; [lia|].
  by rewrite Nat.sub_0_r.
Qed.

(** More gcd files than i3 files: the gcd list is the longer one. *)
Lemma scan_level_surplus root names extensions gcd_rescue i3files gcds last :
  classify root names extensions = (i3files, gcds, last) ->
  (length i3files < length gcds)%nat ->
  scan_level root names extensions gcd_rescue = (i3files, gcds).
Proof.
  intros H Hlen. rewrite (scan_level_spec _ _ _ _ _ _ _ H).
  replace (length i3files - length gcds)%nat with 0%nat by lia.
  simpl. by rewrite app_nil_r.
Qed.

(** [sample] over all the rows is a permutation, whatever the draws. *)
Lemma sample_Permutation {A} draws (l : list A) :
  Permutation (sample draws (length l) l) l.
Proof.
  remember (length l) as n eqn:Hn. revert l Hn.
  induction n as [|n IH]; intros l Hn.
  - destruct l; [done|discriminate].
  - destruct l as [|x l]; [discriminate|]. cbn [sample].
    set (k := (draws (S n) mod length (x :: l))%nat).
    assert (Hk : (k < length (x :: l))%nat)
      by (apply Nat.mod_upper_bound; simpl; lia).
    destruct (lookup_lt_is_Some_2 (x :: l) k Hk) as [y Hy].
    rewrite (nth_lookup_Some _ _ x _ Hy).
    etrans; [|symmetry; apply (delete_Permutation (x :: l) k y Hy)].
    constructor. apply IH.
    rewrite length_delete by eauto. simpl in *. lia.
Qed.

(** The shuffle keeps every i3 file with its gcd file. *)
Lemma pairwiseshuffle_pairs draws files_list gcd_list a b :
  pairwiseshuffle draws files_list gcd_list = Ok (a, b) ->
  Permutation (zip a b) (zip files_list gcd_list).
Proof.
  unfold pairwiseshuffle. destruct (_ =? _)%nat; [|done].
  intros [= <- <-]. rewrite zip_fst_snd. apply sample_Permutation.
Qed.

Lemma pairwiseshuffle_lengths draws files_list gcd_list a b :
  pairwiseshuffle draws files_list gcd_list = Ok (a, b) -> length a = length b.
Proof.
  unfold pairwiseshuffle. destruct (_ =? _)%nat; [|done].
  intros [= <- <-]. by rewrite !length_map.
Qed.

Lemma find_i3_files_lengths fs draws dir extensions gcd_rescue a b :
  find_i3_files fs draws dir extensions gcd_rescue = Ok (a, b) ->
  length a = length b.
Proof.
  unfold find_i3_files, res_bind.
  destruct (walk_first fs dir) as [top|]; [|done].
  destruct (scan_level _ _ _ _) as [i3files_root gcds_root].
  destruct (scan_folders _ _ _ _ _ _ _) as [[files_list GCD_list]|]; [|done].
  apply pairwiseshuffle_lengths.
Qed.

Lemma find_paths_lengths fs rng paths : forall k extensions gcd_rescue input_files gcd_files a b,
  length input_files = length gcd_files ->
  find_paths fs rng k paths extensions gcd_rescue input_files gcd_files = Ok (a, b) ->
  length a = length b.
Proof.
  induction paths as [|path rest IH];
    intros k extensions gcd_rescue input_files gcd_files a b Hlen; simpl.
  - by intros [= <- <-].
  - unfold res_bind.
    destruct (find_i3_files _ _ _ _ _) as [[mid gmid]|] eqn:Hmid; [|done].
    apply find_i3_files_lengths in Hmid.
    apply IH. rewrite !length_app. lia.
Qed.


End DiscoveryFacts.

(** ** Worker facts: loop invariants *)

Section WorkerInvariant.
Import Pandas Worker.

Variables (env : Env) (st : Settings).

(** An invariant [I] of the local variables, what it implies for the files
    written so far, [F], and what is known of every frame, [P]. *)
Variable I : wstate -> Prop.
Variable F : list File -> Prop.
Variable P : Extraction -> Prop.

(** The frames behind a sequence of [pop_physics] outcomes satisfy [P]. *)
Definition pop_frame (p : Pop) : Prop :=
  match p with
  | Ok (Some (Ok x)) => P x
  | _ => True
  end.

Hypothesis invariant_step : forall s x s',
  P x -> I s -> frame_body st s (Ok x) = Ok s' -> I (flush_if_full st s').
Hypothesis invariant_files : forall s, I s -> F (written s).

(** A worker still running satisfies the invariant, a dead one has left
    files that satisfy [F]. *)
Definition holds (w : wres) : Prop :=
  match w with
  | Running s => I s
  | Crashed _ fs => F fs
  end.

Lemma frames_loop_invariant pops : forall s,
  Forall pop_frame pops -> I s -> holds (frames_loop st s pops).
Proof.
  induction pops as [|pop rest IH]; intros s Hpops Hs; simpl; [done|].
  inversion Hpops as [|? ? Hpop Hrest]; subst.
  destruct pop as [[f|]|e]; [|by apply IH..].
  destruct (frame_body st s f) as [s'|e] eqn:Hbody; [|by apply invariant_files].
  destruct f as [x|]; [|done].
  apply IH; [done|]. by eapply invariant_step.
Qed.

Lemma files_loop_invariant files : forall s u,
  (forall file pops, I3File env file = Ok pops -> Forall pop_frame pops) ->
  I s -> holds (files_loop env st s u files).
Proof.
  induction files as [|file rest IH]; intros s u Henv Hs; simpl; [done|].
  destruct (gcd_files st !! u); [|by apply invariant_files].
  destruct (load_geospatial_data env _); [|by apply invariant_files].
  destruct (I3File env file) as [pops|] eqn:Hfile; [|by apply invariant_files].
  pose proof (frames_loop_invariant pops s (Henv _ _ Hfile) Hs) as Hloop.
  destruct (frames_loop st s pops) as [s'|e fs]; [|done].
  by apply IH.
Qed.

End WorkerInvariant.

Lemma pop_frame_True (pops : list Worker.Pop) : Forall (pop_frame (fun _ => True)) pops.
Proof. apply Forall_forall. by intros [[[x|]|]|]. Qed.

(** ** Worker facts: where event numbers come from *)

Section WorkerIds.
Import Pandas Worker.

(** Every row of the frame carries an [event_no] of the range. *)
Definition frame_ids_in (r : arange) (df : DataFrame) : Prop :=
  Forall (fun row => exists z, row !! "event_no" = Some z /\ in_range z r) (rows df).

Definition shard_ids_in (r : arange) (sh : Shard) : Prop :=
  frame_ids_in r (truth_table sh)
  /\ (forall df, retro_table sh = Some df -> frame_ids_in r df)
  /\ frame_ids_in r (pulsemap_table sh).

Definition buffers_ids_in (r : arange) (s : wstate) : Prop :=
  frame_ids_in r (truth_big s) /\ frame_ids_in r (retro_big s)
  /\ frame_ids_in r (feature_big s)
  /\ Forall (fun f : File => shard_ids_in r (snd f)) (written s).

Lemma getitem_in_range r k z : getitem r k = Ok z -> in_range z r.
Proof.
  unfold getitem, arange_len, in_range.
  destruct (Z.ltb_spec (Z.of_nat k) (Z.max 0 (stop r - start r))); [|done].
  intros [= <-]. lia.
Qed.

Lemma getitem_Ok r k z :
  getitem r k = Ok z <-> Z.of_nat k < stop r - start r /\ z = start r + Z.of_nat k.
Proof.
  unfold getitem, arange_len.
  destruct (Z.ltb_spec (Z.of_nat k) (Z.max 0 (stop r - start r))); split.
  - intros [= <-]. lia.
  - intros [_ ->]. done.
  - done.
  - lia.
Qed.

Lemma frame_ids_in_empty r : frame_ids_in r empty_frame.
Proof. constructor. Qed.

Lemma frame_ids_in_append r df other :
  frame_ids_in r df -> frame_ids_in r other -> frame_ids_in r (append df other).
Proof. unfold frame_ids_in, append; simpl. apply Forall_app_2. Qed.

Lemma apply_event_no_ids d r k df :
  apply_event_no d r k = Ok df -> frame_ids_in r df.
Proof.
  unfold apply_event_no, res_bind.
  destruct (getitem r k) as [z|] eqn:Hz; [|done]. intros [= <-].
  apply getitem_in_range in Hz.
  unfold frame_ids_in, set_column; simpl.
  apply Forall_forall. intros row Hrow.
  apply list_elem_of_fmap in Hrow as (row0 & -> & _).
  exists z. by rewrite lookup_insert_eq.
Qed.

Create HintDb ids.
#[local] Hint Resolve frame_ids_in_empty frame_ids_in_append apply_event_no_ids : ids.

Lemma frame_body_ids st s f s' :
  buffers_ids_in (event_no_list st) s ->
  frame_body st s f = Ok s' ->
  buffers_ids_in (event_no_list st) s'.
Proof.
  intros (Ht & Hr & Hf & Hw). unfold frame_body, res_bind.
  destruct f as [x|]; [|done].
  destruct (apply_event_no (truths x) _ _) as [truth|] eqn:Etruth; [|done].
  destruct (0 <? length (retros x))%nat.
  - destruct (apply_event_no (retros x) _ _) as [retro|] eqn:Eretro; [|done].
    destruct (isempty (features x)) as [[|]|]; [| |done].
    + intros [= <-]; repeat split; simpl;
        eauto using frame_ids_in_append, apply_event_no_ids.
    + destruct (apply_event_no (features x) _ _) as [feats|] eqn:Efeats; [|done].
      intros [= <-]; repeat split; simpl;
        eauto using frame_ids_in_append, apply_event_no_ids.
  - destruct (isempty (features x)) as [[|]|]; [| |done].
    + intros [= <-]; repeat split; simpl;
        eauto using frame_ids_in_append, apply_event_no_ids.
    + destruct (apply_event_no (features x) _ _) as [feats|] eqn:Efeats; [|done].
      intros [= <-]; repeat split; simpl;
        eauto using frame_ids_in_append, apply_event_no_ids.
Qed.

Lemma save_to_sql_ids st r fb tb rb k :
  frame_ids_in r tb -> frame_ids_in r rb -> frame_ids_in r fb ->
  shard_ids_in r (snd (save_to_sql st fb tb rb k)).
Proof.
  intros Ht Hr Hf. unfold save_to_sql, shard_ids_in; simpl.
  repeat split; auto. intros df. destruct (0 <? len rb)%nat; congruence.
Qed.

Lemma flush_if_full_ids st s :
  buffers_ids_in (event_no_list st) s ->
  buffers_ids_in (event_no_list st) (flush_if_full st s).
Proof.
  intros (Ht & Hr & Hf & Hw). unfold flush_if_full.
  destruct (_ >=? _); [|done].
  repeat split; simpl; auto using frame_ids_in_empty.
  apply Forall_app_2; [done|]. constructor; [|constructor].
  by apply save_to_sql_ids.
Qed.

Lemma final_flush_ids st s :
  buffers_ids_in (event_no_list st) s ->
  buffers_ids_in (event_no_list st) (final_flush st s).
Proof.
  intros (Ht & Hr & Hf & Hw). unfold final_flush.
  destruct (_ <? _)%nat; [|done].
  repeat split; simpl; auto using frame_ids_in_empty.
  apply Forall_app_2; [done|]. constructor; [|constructor].
  by apply save_to_sql_ids.
Qed.

Lemma parallel_extraction_ids env st :
  Forall (fun f : File => shard_ids_in (event_no_list st) (snd f))
         (files_of (parallel_extraction env st)).
Proof.
  unfold parallel_extraction.
  pose proof (files_loop_invariant env st
                (buffers_ids_in (event_no_list st))
                (Forall (fun f : File => shard_ids_in (event_no_list st) (snd f)))
                (fun _ => True)) as Hloop.
  specialize (Hloop ltac:(intros s x s' _ Hs Hb; eapply flush_if_full_ids, frame_body_ids; eauto)).
  specialize (Hloop ltac:(by intros s (_ & _ & _ & Hw))).
  specialize (Hloop (input_files st) init 0%nat
                ltac:(intros; apply pop_frame_True)).
  assert (Hinit : buffers_ids_in (event_no_list st) init)
    by (repeat split; simpl; auto using frame_ids_in_empty).
  specialize (Hloop Hinit).
  destruct (files_loop env st init 0 (input_files st)) as [s|e fs]; simpl in *.
  - by apply final_flush_ids.
  - done.
Qed.

End WorkerIds.

(** ** Worker facts: one frame *)

Section WorkerFrame.
Import Pandas Worker.

(** The frame a dictionary contributes once numbered with [no]. *)
Definition numbered (d : dict) (no : Z) : DataFrame :=
  set_column (frame_of_dict d) "event_no" no.

Lemma apply_event_no_Ok d r k df :
  apply_event_no d r k = Ok df <->
  exists no, getitem r k = Ok no /\ df = numbered d no.
Proof.
  unfold apply_event_no, res_bind, numbered.
  destruct (getitem r k) as [no|]; split.
  - intros [= <-]. eauto.
  - intros (no' & [= <-] & ->). done.
  - done.
  - intros (? & ? & _). done.
Qed.


Lemma len_numbered d no : len (numbered d no) = nrows d.
Proof.
  unfold len, numbered, set_column, frame_of_dict; simpl.
  by rewrite !length_map, length_seq.
Qed.

Lemma numbered_event_no d no :
  Forall (fun row => row !! "event_no" = Some no) (rows (numbered d no)).
Proof.
  unfold numbered, set_column; simpl. apply Forall_forall. intros row Hrow.
  apply list_elem_of_fmap in Hrow as (row0 & -> & _).
  by rewrite lookup_insert_eq.
Qed.

(** Inversion of a successful [frame_body]: the extractor returned, the
    counter was inside the range, the truth fragment was appended, the
    other two buffers were appended to or left alone, and the counter
    advanced by one. *)
Lemma frame_body_Ok st s f s' :
  frame_body st s f = Ok s' ->
  exists x no,
    f = Ok x
    /\ getitem (event_no_list st) (event_counter s) = Ok no
    /\ truth_big s' = append (truth_big s) (numbered (truths x) no)
    /\ retro_big s' =
         (if (0 <? length (retros x))%nat
          then append (retro_big s) (numbered (retros x) no)
          else retro_big s)
    /\ (exists is_empty, isempty (features x) = Ok is_empty
        /\ feature_big s' =
             (if is_empty then feature_big s
              else append (feature_big s) (numbered (features x) no)))
    /\ event_counter s' = S (event_counter s)
    /\ output_count s' = output_count s
    /\ written s' = written s.
Proof.
  unfold frame_body, apply_event_no, res_bind, numbered.
  destruct f as [x|]; [|done].
  destruct (getitem _ _) as [no|]; [|done].
  destruct (isempty (features x)) as [is_empty|] eqn:Hemp.
  - intros Hs'. exists x, no.
    destruct (0 <? length (retros x))%nat, is_empty;
      injection Hs' as <-; simpl; eauto 12.
  - destruct (0 <? length (retros x))%nat; done.
Qed.

(** The converse: when the extractor returned, the counter is inside the
    range and [dom_x] can be read, the frame is accumulated. *)
Lemma frame_body_runs st s x no is_empty :
  getitem (event_no_list st) (event_counter s) = Ok no ->
  isempty (features x) = Ok is_empty ->
  frame_body st s (Ok x) =
    Ok {| event_counter := S (event_counter s);
          feature_big := if is_empty then feature_big s
                         else append (feature_big s) (numbered (features x) no);
          truth_big := append (truth_big s) (numbered (truths x) no);
          retro_big := if (0 <? length (retros x))%nat
                       then append (retro_big s) (numbered (retros x) no)
                       else retro_big s;
          output_count := output_count s;
          written := written s |}.
Proof.
  intros Hno Hemp.
  unfold frame_body, apply_event_no, res_bind, numbered.
  rewrite Hno, Hemp.
  by destruct (0 <? length (retros x))%nat, is_empty.
Qed.

Lemma isempty_None d : dict_get d "dom_x" = Ok VNone -> isempty d = Ok true.
Proof. unfold isempty, res_bind. by intros ->. Qed.

Lemma isempty_absent d : dict_get d "dom_x" = Raise KeyError -> isempty d = Raise KeyError.
Proof. unfold isempty, res_bind. by intros ->. Qed.


(** [frames_loop] skips a call of [pop_physics] that raises or returns a
    false value, wherever it occurs. *)
Lemma frames_loop_skip st pre post p : forall s,
  (p = Ok None \/ exists e, p = Raise e) ->
  frames_loop st s (pre ++ p :: post) = frames_loop st s (pre ++ post).
Proof.
  induction pre as [|q pre IH]; intros s Hp; simpl.
  - by destruct Hp as [->|[e ->]].
  - destruct q as [[f|]|e]; auto.
    destruct (frame_body st s f); auto.
Qed.

(** An exception of the extractor is outside the [try]: the worker dies
    with it. *)
Lemma frames_loop_extractor_raises st s e post :
  frames_loop st s (Ok (Some (Raise e)) :: post) = Crashed e (written s).
Proof. reflexivity. Qed.

End WorkerFrame.

(** ** Worker facts: batches and shard files *)

Section WorkerBatches.
Import Pandas Worker.

Variable env : Env.
Variable st : Settings.


(** Every frame the extractor returns has a one-row truth fragment. *)
Definition one_truth_row (x : Extraction) : Prop := nrows (truths x) = 1%nat.

Definition env_one_truth_row : Prop :=
  forall file pops, I3File env file = Ok pops -> Forall (pop_frame one_truth_row) pops.












(** The frames a worker meets in its files. *)
Definition is_frame (p : Pop) : bool :=
  match p with Ok (Some _) => true | _ => false end.

Definition frames_in (files : list string) : nat :=
  foldr (fun file n =>
           match I3File env file with
           | Ok pops => (length (filter is_frame pops) + n)%nat
           | Raise _ => n
           end) 0%nat files.

Lemma frames_loop_counter pops : forall s s',
  frames_loop st s pops = Running s' ->
  event_counter s' = (event_counter s + length (filter is_frame pops))%nat.
Proof.
  induction pops as [|pop rest IH]; intros s s'; simpl.
  - intros [= <-]. lia.
  - destruct pop as [[f|]|e]; simpl; rewrite ?filter_cons; simpl; auto.
    destruct (frame_body st s f) as [s1|e] eqn:Hbody; [|done].
    intros Hrest. apply IH in Hrest. rewrite Hrest.
    apply frame_body_Ok in Hbody as (x & no & _ & _ & _ & _ & _ & Hec & _).
    assert (event_counter (flush_if_full st s1) = event_counter s1) as ->
      by (unfold flush_if_full; by destruct (_ >=? _)).
    rewrite Hec. simpl. lia.
Qed.

Lemma files_loop_counter files : forall s u s',
  files_loop env st s u files = Running s' ->
  event_counter s' = (event_counter s + frames_in files)%nat.
Proof.
  induction files as [|file rest IH]; intros s u s'; simpl.
  - intros [= <-]. lia.
  - destruct (gcd_files st !! u); [|done].
    destruct (load_geospatial_data env _); [|done].
    destruct (I3File env file) as [pops|] eqn:Hfile; [|done].
    destruct (frames_loop st s pops) as [s1|e fs] eqn:Hloop; [|done].
    intros Hrest. apply IH in Hrest. apply frames_loop_counter in Hloop. lia.
Qed.







End WorkerBatches.

(** ** Shard file names *)

Section ShardNames.
Import Pandas Worker.

Lemma string_app_nil (t : string) : "" +:+ t = t.
Proof. reflexivity. Qed.

Lemma string_app_cons a (s t : string) : String a s +:+ t = String a (s +:+ t).
Proof. reflexivity. Qed.

Lemma string_app_assoc (s t u : string) : (s +:+ t) +:+ u = s +:+ (t +:+ u).
Proof.
  induction s as [|a s IH]; [done|].
  by rewrite !string_app_cons, IH.
Qed.

Lemma string_length_app (s t : string) :
  String.length (s +:+ t) = (String.length s + String.length t)%nat.
Proof.
  induction s as [|a s IH]; [done|].
  rewrite string_app_cons. simpl. by rewrite IH.
Qed.

Lemma string_app_inv_tail (t s1 s2 : string) : s1 +:+ t = s2 +:+ t -> s1 = s2.
Proof.
  revert s2. induction s1 as [|a s1 IH]; intros [|b s2] Heq; [done| | |].
  - apply (f_equal String.length) in Heq.
    rewrite string_app_nil, string_app_cons in Heq. simpl in Heq.
    rewrite string_length_app in Heq. lia.
  - apply (f_equal String.length) in Heq.
    rewrite string_app_nil, string_app_cons in Heq. simpl in Heq.
    rewrite string_length_app in Heq. lia.
  - rewrite !string_app_cons in Heq. injection Heq as -> Heq.
    f_equal. by apply IH.
Qed.

(** Python's [str] of a non-negative int is injective. *)
Lemma to_uint_nonnil n : Nat.to_uint n <> Decimal.Nil.
Proof.
  rewrite <- (DecimalNat.Unsigned.of_to n) at 1.
  rewrite DecimalNat.Unsigned.to_of. unfold Decimal.unorm.
  by destruct (Decimal.nzhead (Nat.to_uint n)).
Qed.

Lemma str_inj i j : str i = str j -> i = j.
Proof.
  unfold str. intros Heq.
  apply (f_equal NilZero.uint_of_string) in Heq.
  rewrite !NilZero.usu in Heq by apply to_uint_nonnil.
  injection Heq as Heq. by apply DecimalNat.Unsigned.to_uint_inj.
Qed.

Lemma shard_path_inj st i j : shard_path st i = shard_path st j -> i = j.
Proof.
  unfold shard_path. intros Heq.
  repeat apply String.app_inj in Heq.
  apply string_app_inv_tail in Heq. by apply str_inj.
Qed.

(** Files named by their position have pairwise distinct names. *)
Lemma positional_names_NoDup st (fs : list File) :
  (forall i f, fs !! i = Some f -> fst f = shard_path st i) ->
  NoDup (map fst fs).
Proof.
  intros Hnames. apply NoDup_alt. intros i j name Hi Hj.
  apply list_lookup_fmap_Some in Hi as (f & -> & Hfi).
  apply list_lookup_fmap_Some in Hj as (g & Hfg & Hgj).
  apply Hnames in Hfi, Hgj.
  apply (shard_path_inj st). congruence.
Qed.

End ShardNames.

(** ** Worker facts: a file that cannot be opened *)

Section WorkerFiles.
Import Pandas Worker.

Lemma files_loop_app env st pre : forall s u rest,
  files_loop env st s u (pre ++ rest) =
    match files_loop env st s u pre with
    | Running s' => files_loop env st s' (u + length pre) rest
    | Crashed e fs => Crashed e fs
    end.
Proof.
  induction pre as [|file pre IH]; intros s u rest; simpl.
  - by rewrite Nat.add_0_r.
  - destruct (gcd_files st !! u); [|done].
    destruct (load_geospatial_data env _); [|done].
    destruct (I3File env file) as [pops|]; [|done].
    destruct (frames_loop st s pops) as [s1|e fs]; [|done].
    rewrite IH. by replace (S u + length pre)%nat with (u + S (length pre))%nat by lia.
Qed.

(** Opening [file], or loading its gcd file, raises [e]. *)
Definition cannot_open (env : Env) (st : Settings) (u : nat) (file : string)
    (e : exn) : Prop :=
  exists gcd, gcd_files st !! u = Some gcd
    /\ (load_geospatial_data env gcd = Raise e
        \/ (exists r, load_geospatial_data env gcd = Ok r) /\ I3File env file = Raise e).

(** The worker dies at the first file it cannot open: the later files are
    not read, the buffers are dropped, and only the files written before
    are left. *)
Lemma parallel_extraction_cannot_open env st pre file post s' e :
  input_files st = pre ++ file :: post ->
  files_loop env st init 0 pre = Running s' ->
  cannot_open env st (length pre) file e ->
  parallel_extraction env st = Crashed e (written s').
Proof.
  intros Hfiles Hpre (gcd & Hgcd & Hfail).
  unfold parallel_extraction. rewrite Hfiles, files_loop_app, Hpre. simpl.
  rewrite Hgcd.
  destruct Hfail as [->|[[r ->] ->]]; done.
Qed.

End WorkerFiles.

(** ** Worker facts: the RetroReco table of a shard *)

Section ShardRetro.
Import Pandas Worker.

(** A RetroReco table in a shard has rows and columns. *)
Definition shard_wf (sh : Shard) : Prop :=
  forall df, retro_table sh = Some df -> (0 < len df)%nat /\ columns df <> [].

Lemma insert_sorted_nonempty c l : insert_sorted c l <> [].
Proof.
  destruct l as [|d l]; simpl; [done|].
  by destruct (String.compare c d).
Qed.

Lemma numbered_columns d no : columns (numbered d no) <> [].
Proof.
  unfold numbered, set_column, frame_of_dict; simpl.
  case_bool_decide as Hin.
  - intros Hk. rewrite Hk in Hin. by inversion Hin.
  - by destruct (keys d).
Qed.

Lemma append_numbered_columns df d no : columns (append df (numbered d no)) <> [].
Proof.
  change (columns (append df (numbered d no)))
    with (foldr insert_sorted [] (columns df ++ columns (numbered d no))).
  pose proof (numbered_columns d no) as Hn.
  destruct (columns df ++ columns (numbered d no)) as [|c cols] eqn:Hc.
  - apply app_eq_nil in Hc as [_ Hc]. done.
  - simpl. apply insert_sorted_nonempty.
Qed.

(** Every shard a worker writes is well formed. *)
Lemma parallel_extraction_shards_wf env st :
  Forall (fun f : File => shard_wf (snd f)) (files_of (parallel_extraction env st)).
Proof.
  set (I := fun s => (retro_big s = empty_frame \/ columns (retro_big s) <> [])
                     /\ Forall (fun f : File => shard_wf (snd f)) (written s)).
  assert (Hflush : forall s tb fb k,
            I s -> Forall (fun f : File => shard_wf (snd f))
                     (written s ++ [save_to_sql st fb tb (retro_big s) k])).
  { intros s tb fb k [Hr Hw]. apply Forall_app_2; [done|].
    constructor; [|constructor]. intros df. simpl.
    destruct (Nat.ltb_spec 0 (len (retro_big s))); [|done].
    intros [= <-]. split; [done|].
    destruct Hr as [Hr|Hr]; [|done]. rewrite Hr in *.
    unfold len in *; simpl in *; lia. }
  unfold parallel_extraction.
  pose proof (files_loop_invariant env st I
                (Forall (fun f : File => shard_wf (snd f))) (fun _ => True)) as Hloop.
  assert (Hstep : forall s x s', True -> I s -> frame_body st s (Ok x) = Ok s' ->
                                 I (flush_if_full st s')).
  { intros s x s' _ [Hr Hw] Hbody.
    apply frame_body_Ok in Hbody as (x' & no & _ & _ & _ & Hrb & _ & _ & _ & Hwr).
    assert (Hs' : I s').
    { split; [|by rewrite Hwr]. rewrite Hrb.
      destruct (0 <? length (retros x'))%nat; [|done].
      right. apply append_numbered_columns. }
    unfold flush_if_full. destruct (_ >=? _); [|done].
    split; [by left|]. by apply Hflush. }
  specialize (Hloop Hstep ltac:(by intros s [_ Hw]) (input_files st) init 0%nat
                ltac:(intros; apply pop_frame_True)
                ltac:(split; [by left|constructor])).
  destruct (files_loop env st init 0 (input_files st)) as [s|e fs]; simpl in *; [|done].
  unfold final_flush. destruct (_ <? _)%nat; [|apply Hloop].
  simpl. by apply Hflush.
Qed.

(** The shards [_merge_databases] finds after a run are well formed. *)
Lemma merged_shards_wf w settings :
  Forall (fun f : File => shard_wf (snd f))
    (Merger.get_temporary_database_paths
       (Orchestrator.listdir w
          (concat (map files_of (Orchestrator.map_async w settings))))).
Proof.
  apply Forall_forall. intros f Hf.
  apply list_elem_of_filter in Hf as [_ Hf].
  unfold Orchestrator.listdir in Hf.
  rewrite sample_Permutation in Hf.
  apply list_elem_of_In, List.in_concat in Hf as (fs & Hfs & Hf).
  apply List.in_map_iff in Hfs as (r & <- & Hr).
  unfold Orchestrator.map_async in Hr.
  apply List.in_map_iff in Hr as (st & <- & _).
  pose proof (parallel_extraction_shards_wf (Orchestrator.wenv w) st) as Hwf.
  rewrite Forall_forall in Hwf. by apply Hwf, list_elem_of_In.
Qed.

End ShardRetro.

(** ** Table creation facts *)

Section CreationFacts.
Import Pandas Worker Merger.

(** The schema [_create_table] declares. *)
Definition declared_schema (is_pulse_map : bool) (columns : list string)
    : list (string * ColDecl) :=
  map (fun c => (c, column_decl is_pulse_map c)) columns.

Definition column_text (is_pulse_map : bool) (c : string) : string :=
  c +:+ decl_text (column_decl is_pulse_map c).

Lemma query_columns_step is_pulse_map columns : forall q,
  fold_left
    (fun query_columns column =>
       match query_columns with
       | None =>
           if String.eqb column "event_no" then
             if negb is_pulse_map
             then Some (column +:+ " INTEGER PRIMARY KEY NOT NULL")
             else Some (column +:+ " NOT NULL")
           else Some (column +:+ " FLOAT")
       | Some q =>
           if String.eqb column "event_no" then
             if negb is_pulse_map
             then Some (q +:+ ", " +:+ column +:+ " INTEGER PRIMARY KEY NOT NULL")
             else Some (q +:+ ", " +:+ column +:+ " NOT NULL")
           else Some (q +:+ ", " +:+ column +:+ " FLOAT")
       end) columns (Some q)
  = Some (fold_left (fun q c => q +:+ ", " +:+ column_text is_pulse_map c) columns q).
Proof.
  induction columns as [|c columns IH]; intros q; [done|].
  simpl. unfold column_text at 2, column_decl.
  destruct (String.eqb c "event_no"), is_pulse_map; simpl; apply IH.
Qed.

Lemma concat_fold (xs : list string) : forall p x0,
  fold_left (fun q x => q +:+ ", " +:+ x) xs (p +:+ x0)
  = p +:+ String.concat ", " (x0 :: xs).
Proof.
  induction xs as [|y ys IH]; intros p x0; [done|].
  change (fold_left (fun q x => q +:+ ", " +:+ x) (y :: ys) (p +:+ x0))
    with (fold_left (fun q x => q +:+ ", " +:+ x) ys ((p +:+ x0) +:+ ", " +:+ y)).
  rewrite <- (string_app_assoc (p +:+ x0) ", " y).
  rewrite (string_app_assoc p x0 ", "), <- string_app_assoc.
  rewrite IH.
  change (String.concat ", " (x0 :: y :: ys))
    with (x0 +:+ ", " +:+ String.concat ", " (y :: ys)).
  by rewrite !string_app_assoc.
Qed.

Lemma render_declared is_pulse_map columns :
  render_schema (declared_schema is_pulse_map columns)
  = String.concat ", " (map (column_text is_pulse_map) columns).
Proof. unfold render_schema, declared_schema. by rewrite map_map. Qed.

(** The text the loop of [_create_table] builds is the rendering of the
    declared schema. *)
Lemma query_columns_render is_pulse_map columns :
  columns <> [] ->
  query_columns columns is_pulse_map
  = Some (render_schema (declared_schema is_pulse_map columns)).
Proof.
  destruct columns as [|c columns]; [done|]. intros _.
  unfold query_columns. simpl fold_left at 1.
  assert (Hfirst : (if String.eqb c "event_no"
                    then if negb is_pulse_map
                         then Some (c +:+ " INTEGER PRIMARY KEY NOT NULL")
                         else Some (c +:+ " NOT NULL")
                    else Some (c +:+ " FLOAT"))
                   = Some (column_text is_pulse_map c)).
  { unfold column_text, column_decl.
    by destruct (String.eqb c "event_no"), is_pulse_map. }
  rewrite Hfirst, query_columns_step.
  f_equal. rewrite render_declared. simpl map.
  pose proof (concat_fold (map (column_text is_pulse_map) columns) ""
                (column_text is_pulse_map c)) as Hc.
  rewrite !string_app_nil in Hc. rewrite <- Hc.
  clear. generalize (column_text is_pulse_map c).
  induction columns as [|d columns IH]; intros q; [done|]. simpl. apply IH.
Qed.

Lemma create_table_code_render table_name columns is_pulse_map :
  columns <> [] ->
  create_table_code table_name columns is_pulse_map
  = Ok (render_create_table table_name (declared_schema is_pulse_map columns)).
Proof.
  intros Hne. unfold create_table_code.
  by rewrite query_columns_render.
Qed.

Lemma create_table_code_empty table_name is_pulse_map :
  create_table_code table_name [] is_pulse_map = Raise UnboundLocalError.
Proof. reflexivity. Qed.

(** [_create_table] on a database without the table (and, for a pulsemap,
    without the index): the table appears with the declared schema and no
    row, and for a pulsemap the index on [event_no] with it. *)
Lemma _create_table_plain table_name columns db :
  columns <> [] ->
  tables db !! table_name = None ->
  _create_table table_name columns false db =
    ({| tables := <[table_name := {| schema := declared_schema false columns;
                                     trows := [] |}]> (tables db);
        indexes := indexes db |}, None).
Proof.
  intros Hne Hfree. unfold _create_table.
  rewrite create_table_code_render by done.
  unfold exec, create_table. by rewrite Hfree.
Qed.

Lemma _create_table_pulsemap table_name columns db :
  "event_no" ∈ columns ->
  tables db !! table_name = None ->
  indexes db !! ("event_no_" +:+ table_name) = None ->
  _create_table table_name columns true db =
    ({| tables := <[table_name := {| schema := declared_schema true columns;
                                     trows := [] |}]> (tables db);
        indexes := <["event_no_" +:+ table_name := (table_name, "event_no")]>
                     (indexes db) |}, None).
Proof.
  intros Hin Hfree Hifree. unfold _create_table.
  rewrite create_table_code_render by (by destruct columns; [inversion Hin|]).
  unfold exec, create_table. rewrite Hfree. unfold and_then; simpl.
  unfold _attach_index, exec, create_index; simpl.
  rewrite Hifree, lookup_insert_eq.
  unfold table_columns, declared_schema; simpl. rewrite map_map; simpl.
  rewrite map_id. by rewrite bool_decide_eq_true_2.
Qed.

(** A failed or successful [_create_table] never removes or alters another
    table. *)
Lemma _create_table_other table_name columns is_pulse_map db name :
  name <> table_name ->
  tables (fst (_create_table table_name columns is_pulse_map db)) !! name
  = tables db !! name.
Proof.
  intros Hne. unfold _create_table.
  destruct (create_table_code _ _ _); [|done].
  unfold exec, create_table.
  destruct (tables db !! table_name) eqn:Hfree; simpl; [done|].
  unfold and_then; simpl. destruct is_pulse_map; simpl.
  - unfold _attach_index, exec, create_index; simpl.
    destruct (indexes db !! _); simpl; [by rewrite lookup_insert_ne|].
    rewrite lookup_insert_eq.
    destruct (bool_decide _); simpl; by rewrite lookup_insert_ne.
  - by rewrite lookup_insert_ne.
Qed.

End CreationFacts.

(** ** SQLite facts: inserting rows *)

Section SqliteFacts.
Import Pandas Sqlite.

(** Some row of the table has the key [v] in its [event_no] column. *)
Definition has_key (t : Table) (v : Z) : Prop :=
  Exists (fun r => r !! "event_no" = Some v) (trows t).

Lemma check_column_extends rows cd (row row' : gmap string Z) :
  check_column rows cd row = Ok row' ->
  forall k v, row !! k = Some v -> row' !! k = Some v.
Proof.
  unfold check_column. destruct (snd cd).
  - destruct (row !! fst cd) as [w|] eqn:Hw.
    + destruct (bool_decide _); [done|]. by intros [= <-].
    + intros [= <-] k v Hk. rewrite lookup_insert_ne; [done|]. congruence.
  - destruct (row !! fst cd); [|done]. by intros [= <-].
  - by intros [= <-].
  - by intros [= <-].
Qed.

Lemma check_columns_extends rows sch : forall (row row' : gmap string Z),
  check_columns rows sch row = Ok row' ->
  forall k v, row !! k = Some v -> row' !! k = Some v.
Proof.
  induction sch as [|cd sch IH]; intros row row'; simpl.
  - by intros [= <-].
  - unfold res_bind. destruct (check_column rows cd row) as [row1|] eqn:H1; [|done].
    intros Hrest k v Hk. eapply IH; [done|]. by eapply check_column_extends.
Qed.

(** A row that passes the checks of a table whose [event_no] is the
    primary key brings a key no row of the table has. *)
Lemma check_columns_fresh rows sch : forall (row row' : gmap string Z) v,
  ("event_no", IntegerPrimaryKeyNotNull) ∈ sch ->
  check_columns rows sch row = Ok row' ->
  row !! "event_no" = Some v ->
  ~ Exists (fun r => r !! "event_no" = Some v) rows.
Proof.
  induction sch as [|cd sch IH]; intros row row' v Hin; [by inversion Hin|].
  simpl. unfold res_bind.
  destruct (check_column rows cd row) as [row1|] eqn:H1; [|done].
  intros Hrest Hv.
  apply elem_of_cons in Hin as [<-|Hin].
  - unfold check_column in H1. simpl in H1. rewrite Hv in H1.
    destruct (bool_decide _) eqn:Hd; [done|].
    by apply bool_decide_eq_false_1 in Hd.
  - eapply IH; [done|done|]. by eapply check_column_extends.
Qed.

Lemma insert_row_Ok t row t' :
  insert_row t row = Ok t' ->
  exists row', check_columns (trows t) (schema t) row = Ok row'
               /\ t' = {| schema := schema t; trows := trows t ++ [row'] |}.
Proof.
  unfold insert_row, res_bind.
  destruct (check_columns _ _ _) as [row'|]; [|done].
  intros [= <-]. eauto.
Qed.

(** The keys a list of rows brings explicitly. *)
Definition explicit_keys (rows : list (gmap string Z)) : list Z :=
  omap (fun r => r !! "event_no") rows.

(** Inserting rows keeps the schema and the keys already there. *)
Lemma insert_rows_keeps rows : forall t t',
  insert_rows t rows = Ok t' ->
  schema t' = schema t /\ (forall v, has_key t v -> has_key t' v).
Proof.
  induction rows as [|row rows IH]; intros t t'; simpl.
  - by intros [= <-].
  - unfold res_bind. destruct (insert_row t row) as [t1|] eqn:H1; [|done].
    intros Hrest. apply IH in Hrest as [Hs Hk].
    apply insert_row_Ok in H1 as (row' & _ & ->). simpl in *.
    split; [done|]. intros v Hv. apply Hk. unfold has_key; simpl.
    apply Exists_app. by left.
Qed.

(** Into a table whose [event_no] is the primary key, rows are inserted
    only with keys that are new. *)
Lemma insert_rows_fresh rows : forall t t' L,
  ("event_no", IntegerPrimaryKeyNotNull) ∈ schema t ->
  NoDup L ->
  (forall v, v ∈ L -> has_key t v) ->
  insert_rows t rows = Ok t' ->
  NoDup (L ++ explicit_keys rows)
  /\ (forall v, v ∈ L ++ explicit_keys rows -> has_key t' v).
Proof.
  induction rows as [|row rows IH]; intros t t' L Hpk HL Hkeys; simpl.
  - intros [= <-]. unfold explicit_keys; simpl. by rewrite app_nil_r.
  - unfold res_bind. destruct (insert_row t row) as [t1|] eqn:H1; [|done].
    intros Hrest.
    apply insert_row_Ok in H1 as (row' & Hcheck & ->).
    unfold explicit_keys; simpl.
    destruct (row !! "event_no") as [v|] eqn:Hv; simpl.
    + assert (Hfresh : v ∉ L).
      { intros Hin. eapply check_columns_fresh; eauto. by apply Hkeys. }
      replace (L ++ v :: omap (fun r => r !! "event_no") rows)
        with ((L ++ [v]) ++ explicit_keys rows)
        by (by rewrite <- app_assoc).
      refine (IH {| schema := schema t; trows := trows t ++ [row'] |} t'
                 (L ++ [v]) Hpk _ _ Hrest).
      * apply NoDup_app. split; [done|]. split; [|apply NoDup_singleton].
        intros x Hx Hx'. apply list_elem_of_singleton in Hx'. by subst.
      * intros x Hx. unfold has_key; simpl. apply Exists_app.
        apply elem_of_app in Hx as [Hx|Hx]; [left; by apply Hkeys|right].
        apply list_elem_of_singleton in Hx as ->. constructor.
        by eapply check_columns_extends.
    + refine (IH {| schema := schema t; trows := trows t ++ [row'] |} t'
                 L Hpk HL _ Hrest).
      intros x Hx. unfold has_key; simpl. apply Exists_app. left. by apply Hkeys.
Qed.

Lemma project_lookup cols (row : gmap string Z) k :
  project cols row !! k = if bool_decide (k ∈ cols) then row !! k else None.
Proof.
  unfold project.
  destruct (row !! k) as [v|] eqn:Hk.
  - case_bool_decide as Hin.
    + apply map_lookup_filter_Some. by split.
    + apply map_lookup_filter_None. right. intros v' Hv'. simpl. done.
  - assert (filter (fun kv : string * Z => fst kv ∈ cols) row !! k = None) as ->
      by (apply map_lookup_filter_None; by left).
    by destruct (bool_decide _).
Qed.

(** The keys a frame brings: those of its rows when it has an [event_no]
    column, none otherwise. *)
Definition frame_keys (df : DataFrame) : list Z :=
  if bool_decide ("event_no" ∈ columns df) then explicit_keys (rows df) else [].

Lemma explicit_keys_project df :
  explicit_keys (map (project (columns df)) (rows df)) = frame_keys df.
Proof.
  unfold frame_keys, explicit_keys.
  generalize (rows df) as rows. generalize (columns df) as cols.
  intros cols rows. destruct (bool_decide ("event_no" ∈ cols)) eqn:Hin.
  - induction rows as [|row rows IH]; [done|].
    cbn [map omap list_omap]. rewrite project_lookup, Hin. by rewrite IH.
  - induction rows as [|row rows IH]; [done|].
    cbn [map omap list_omap]. rewrite project_lookup, Hin. by rewrite IH.
Qed.

End SqliteFacts.

(** ** SQLite facts: [to_sql] *)

Section ToSqlFacts.
Import Pandas Sqlite.

Lemma frame_keys_no_rows df : rows df = [] -> frame_keys df = [].
Proof. unfold frame_keys. intros ->. by destruct (bool_decide _). Qed.

Lemma to_sql_other name df db db' n :
  to_sql name df db = Ok db' -> n <> name ->
  tables db' !! n = tables db !! n.
Proof.
  unfold to_sql, res_bind. intros Hrun Hne.
  destruct (tables db !! name) as [t|].
  - destruct (rows df); [by injection Hrun as <-|].
    destruct (forallb _ _); [|done].
    destruct (insert_rows _ _); [|done].
    injection Hrun as <-. simpl. by rewrite lookup_insert_ne.
  - destruct (columns df); [done|].
    destruct (insert_rows _ _); [|done].
    injection Hrun as <-. simpl. by rewrite lookup_insert_ne.
Qed.

(** A table that exists keeps its schema and its keys through any
    [to_sql]. *)
Lemma to_sql_keeps name df db db' n t :
  to_sql name df db = Ok db' ->
  tables db !! n = Some t ->
  exists t', tables db' !! n = Some t' /\ schema t' = schema t
             /\ (forall v, has_key t v -> has_key t' v).
Proof.
  intros Hrun Hn. destruct (decide (n = name)) as [->|Hne].
  - unfold to_sql, res_bind in Hrun. rewrite Hn in Hrun.
    destruct (rows df); [injection Hrun as <-; eauto|].
    destruct (forallb _ _); [|done].
    destruct (insert_rows _ _) as [t'|] eqn:Hins; [|done].
    injection Hrun as <-. simpl. rewrite lookup_insert_eq.
    apply insert_rows_keeps in Hins as [? ?]. eauto.
  - rewrite <- (to_sql_other _ _ _ _ _ Hrun Hne) in Hn. eauto.
Qed.


(** [to_sql] into a table declared by [_create_table] (not as a
    pulsemap): the keys of the frame are new. *)
Lemma to_sql_fresh name df db db' t H L :
  tables db !! name = Some t ->
  schema t = declared_schema false H ->
  NoDup L ->
  (forall v, v ∈ L -> has_key t v) ->
  to_sql name df db = Ok db' ->
  exists t', tables db' !! name = Some t' /\ schema t' = schema t
             /\ NoDup (L ++ frame_keys df)
             /\ (forall v, v ∈ L ++ frame_keys df -> has_key t' v).
Proof.
  intros Ht Hs HL Hkeys. unfold to_sql, res_bind. rewrite Ht.
  destruct (rows df) as [|row rows] eqn:Hrows.
  - intros [= <-]. rewrite frame_keys_no_rows, app_nil_r by done. eauto.
  - destruct (forallb _ _) eqn:Hcols; [|done].
    destruct (insert_rows _ _) as [t'|] eqn:Hins; [|done].
    intros [= <-]. simpl. rewrite lookup_insert_eq. exists t'.
    split; [done|].
    destruct (insert_rows_keeps _ _ _ Hins) as [Hs' Hmono]. split; [done|].
    rewrite <- Hrows, <- explicit_keys_project in *.
    destruct (decide ("event_no" ∈ columns df)) as [Hin|Hout].
    + eapply insert_rows_fresh; [|done|done|done].
      rewrite Hs. unfold declared_schema.
      rewrite forallb_forall in Hcols.
      apply list_elem_of_In, Hcols, bool_decide_eq_true_1 in Hin.
      unfold table_columns in Hin. rewrite Hs in Hin.
      unfold declared_schema in Hin. rewrite map_map in Hin. simpl in Hin.
      rewrite map_id in Hin.
      apply list_elem_of_fmap. exists "event_no". by split.
    + rewrite explicit_keys_project. unfold frame_keys.
      rewrite bool_decide_eq_false_2 by done. rewrite app_nil_r.
      split; [done|]. intros v Hv. by apply Hmono, Hkeys.
Qed.

Lemma exec_Ok op db db' : exec op db = (db', None) -> op db = Ok db'.
Proof. unfold exec. destruct (op db); by intros [= <-]. Qed.

Lemma and_then_Ok r k db' :
  and_then r k = (db', None) ->
  exists db1, r = (db1, None) /\ k db1 = (db', None).
Proof.
  unfold and_then. destruct r as [db1 [e|]]; simpl; [done|]. eauto.
Qed.

End ToSqlFacts.

(** ** Merge facts *)

Section MergeFacts.
Import Pandas Worker Merger.



Lemma _create_table_Ok table_name columns is_pulse_map db db' :
  _create_table table_name columns is_pulse_map db = (db', None) ->
  tables db !! table_name = None
  /\ tables db' !! table_name
     = Some {| schema := declared_schema is_pulse_map columns; trows := [] |}.
Proof.
  unfold _create_table.
  destruct (create_table_code _ _ _); [|done].
  unfold exec, create_table.
  destruct (tables db !! table_name) eqn:Hfree; [done|].
  unfold and_then; simpl. destruct is_pulse_map.
  - unfold _attach_index, exec, create_index; simpl.
    destruct (indexes db !! _); [done|].
    rewrite lookup_insert_eq. destruct (bool_decide _); [|done].
    intros [= <-]. simpl. by rewrite lookup_insert_eq.
  - intros [= <-]. simpl. by rewrite lookup_insert_eq.
Qed.

Lemma merge_cons_Ok f rest pulse_map db db' :
  _merge_temporary_databases (f :: rest) pulse_map db = (db', None) ->
  exists db1 db2 db3,
    to_sql "truth" (truth_table (snd f)) db = Ok db1
    /\ to_sql pulse_map (pulsemap_table (snd f)) db1 = Ok db2
    /\ _submit_retro (retro_table (snd f)) db2 = (db3, None)
    /\ _merge_temporary_databases rest pulse_map db3 = (db', None).
Proof.
  simpl. intros Hrun.
  apply and_then_Ok in Hrun as (db1 & H1 & Hrun).
  apply and_then_Ok in Hrun as (db2 & H2 & Hrun).
  apply and_then_Ok in Hrun as (db3 & H3 & Hrun).
  apply exec_Ok in H1, H2. eauto 10.
Qed.







(** The keys the RetroReco tables of the shards bring, in merge order. *)
Definition shard_retro_keys (f : File) : list Z :=
  match retro_table (snd f) with
  | Some df => frame_keys df
  | None => []
  end.

Definition retro_keys (files : list File) : list Z :=
  concat (map shard_retro_keys files).

(** A merge that completes into a RetroReco table declared by
    [_create_table] has met every key once. *)
Lemma merge_keys pulse_map H files : forall db db' L t,
  pulse_map <> "RetroReco" ->
  tables db !! "RetroReco" = Some t ->
  schema t = declared_schema false H ->
  NoDup L ->
  (forall v, v ∈ L -> has_key t v) ->
  _merge_temporary_databases files pulse_map db = (db', None) ->
  NoDup (L ++ retro_keys files).
Proof.
  induction files as [|f files IH]; intros db db' L t Hpm Ht Hs HL Hkeys Hrun.
  - unfold retro_keys; simpl. by rewrite app_nil_r.
  - apply merge_cons_Ok in Hrun as (db1 & db2 & db3 & H1 & H2 & H3 & Hrest).
    destruct (to_sql_keeps _ _ _ _ _ _ H1 Ht) as (t1 & Ht1 & Hs1 & Hk1).
    destruct (to_sql_keeps _ _ _ _ _ _ H2 Ht1) as (t2 & Ht2 & Hs2 & Hk2).
    unfold retro_keys; simpl. fold (retro_keys files).
    unfold shard_retro_keys at 1. unfold _submit_retro in H3.
    destruct (retro_table (snd f)) as [df|].
    + destruct (Nat.ltb_spec 0 (len df)) as [Hlen|Hlen].
      * apply exec_Ok in H3.
        destruct (to_sql_fresh "RetroReco" df db2 db3 t2 H L) as (t3 & Ht3 & Hs3 & HL3 & Hk3);
          [done|congruence|done|by intros; apply Hk2, Hk1, Hkeys|done|].
        rewrite app_assoc. eapply IH; [done|exact Ht3|congruence|done|done|exact Hrest].
      * injection H3 as <-.
        rewrite frame_keys_no_rows by (unfold len in Hlen; by destruct (rows df); [|simpl in Hlen; lia]).
        simpl. eapply IH; [done|exact Ht2|congruence|done| |exact Hrest].
        intros; by apply Hk2, Hk1, Hkeys.
    + injection H3 as <-. simpl.
      eapply IH; [done|exact Ht2|congruence|done| |exact Hrest].
      intros; by apply Hk2, Hk1, Hkeys.
Qed.



Lemma create_empty_tables_Ok_retro pulse_map tc pc rc db db' :
  (1 < length rc)%nat ->
  _create_empty_tables pulse_map tc pc rc db = (db', None) ->
  pulse_map <> "RetroReco"
  /\ tables db' !! "RetroReco"
     = Some {| schema := declared_schema false rc; trows := [] |}.
Proof.
  intros Hrc Hrun. unfold _create_empty_tables in Hrun.
  apply and_then_Ok in Hrun as (db1 & H1 & Hrun).
  apply and_then_Ok in Hrun as (db2 & H2 & H3).
  apply Nat.ltb_lt in Hrc. rewrite Hrc in H2.
  apply _create_table_Ok in H2 as [_ H2].
  pose proof (_create_table_Ok _ _ _ _ _ H3) as [Hfree _].
  assert (Hpm : pulse_map <> "RetroReco") by (intros ->; congruence).
  split; [done|].
  pose proof (_create_table_other pulse_map pc true db2 "RetroReco" ltac:(congruence)) as Ho.
  rewrite H3 in Ho. simpl in Ho. congruence.
Qed.

End MergeFacts.

(** ** A complete run *)

Section CompleteRun.
Import Pandas Worker Merger Orchestrator.

(** Three event files, one calibration file in their directory, two
    workers, batch size 2, five frames of which one has an empty pulse
    series: the truth table ends with five rows, the pulsemap table with
    four, the tmp directory is empty after the merge, and the csv lists
    the three event files, in the order drawn. *)
Example five_frames_two_workers :
  let o := _processfiles Scenario.converter Scenario.world_five_frames in
  raised o = None
  /\ csv o = Some ["data/b.i3.zst"; "data/c.i3.zst"; "data/a.i3.zst"]
  /\ map (fun r => map fst (files_of r)) (pool o)
     = [["out/db/tmp/worker-0-0.db"; "out/db/tmp/worker-0-1.db"];
        ["out/db/tmp/worker-1-0.db"]]
  /\ exists m db, merged o = Some m /\ final m = Some db /\ tmp_left m = []
       /\ (length <$> (trows <$> tables db !! "truth")) = Some 5%nat
       /\ (length <$> (trows <$> tables db !! "SRTInIcePulses")) = Some 4%nat.
Proof.
  vm_compute. split; [reflexivity|]. split; [reflexivity|].
  split; [reflexivity|]. eexists _, _. repeat split; reflexivity.
Qed.

End CompleteRun.

(** * The properties of the specification *)

Section Claims.
Import Pandas Worker Merger Orchestrator.

(** C1.  For every worker count [W >= 1], [np.array_split] over
    [np.arange(0, U)] with [U = 99999999] yields [W] ranges inside
    [0, U) that are contiguous (each stops where the next starts, the
    first starts at 0, the last stops at [U]), increasing, pairwise
    disjoint and whose union is exactly [0, U); and in a run planned with
    [W] workers, every row of every file a worker writes, truth rows first
    of all, carries an [event_no] of that worker's own range. *)
Theorem event_ids_partition_and_stay_in_own_range (W : nat) :
  (1 <= W)%nat ->
  exists ranges,
    event_nos W = Ok ranges
    /\ length ranges = W
    /\ (forall i r, ranges !! i = Some r ->
                    0 <= start r /\ start r <= stop r /\ stop r <= U)
    /\ (forall r, ranges !! 0%nat = Some r -> start r = 0)
    /\ (forall r, ranges !! (W - 1)%nat = Some r -> stop r = U)
    /\ (forall i r r', ranges !! i = Some r -> ranges !! S i = Some r' ->
                       stop r = start r')
    /\ (forall i j r r', (i < j)%nat -> ranges !! i = Some r -> ranges !! j = Some r' ->
                         stop r <= start r')
    /\ (forall x, 0 <= x < U <-> exists i r, ranges !! i = Some r /\ in_range x r)
    /\ (forall i j r r' x, ranges !! i = Some r -> ranges !! j = Some r' ->
                           in_range x r -> in_range x r' -> i = j)
    /\ (forall c input_files gcd_files settings env i st,
          (if (length input_files <? c_workers c)%nat
           then length input_files else c_workers c) = W ->
          plan c input_files gcd_files = Ok settings ->
          settings !! i = Some st ->
          exists r, ranges !! i = Some r
                    /\ Forall (fun f : File => shard_ids_in r (snd f))
                              (files_of (parallel_extraction env st))).
Proof.
  intros HW.
  destruct (event_nos_partition W HW)
    as (ranges & Hsplit & Hlen & Hwf & Hfirst & Hlast & Hcontig & Hord & Hcover).
  exists ranges. repeat (split; [done|]).
  split.
  { intros x; split; [by apply Hcover|].
    intros (i & r & Hi & Hx). destruct (Hwf i r Hi) as (? & ? & ?).
    unfold in_range in Hx. lia. }
  split; [by apply ranges_disjoint|].
  intros c input_files gcd_files settings env i st HWc Hplan Hst.
  unfold plan in Hplan. rewrite HWc in Hplan.
  fold (event_nos W) in Hplan. rewrite Hsplit in Hplan. simpl in Hplan.
  destruct (array_split_list input_files W) as [file_list|]; [|done].
  destruct (array_split_list gcd_files W) as [gcd_file_list|]; [|done].
  simpl in Hplan. injection Hplan as <-.
  apply make_settings_lookup in Hst as [Hr _].
  exists (event_no_list st). split; [done|].
  apply parallel_extraction_ids.
Qed.

(** C1 for three workers: the ranges are [0, 33333333), [33333333,
    66666666) and [66666666, 99999999). *)
Lemma event_ids_partition_witness :
  exists ranges,
    event_nos 3 = Ok ranges
    /\ ranges = [ {| start := 0; stop := 33333333 |};
                  {| start := 33333333; stop := 66666666 |};
                  {| start := 66666666; stop := 99999999 |} ]
    /\ (forall x, 0 <= x < U <-> exists i r, ranges !! i = Some r /\ in_range x r).
Proof.
  destruct (event_ids_partition_and_stay_in_own_range 3)
    as (ranges & Hsplit & _ & _ & _ & _ & _ & _ & Hcover & _).
  - lia.
  - exists ranges. split; [exact Hsplit|]. split; [|exact Hcover].
    vm_compute in Hsplit. by injection Hsplit as <-.
Defined.



(** C3 as stated does not hold: an exception raised by the extractor on one
    frame is not caught.  With a file whose first frame makes the extractor
    raise and whose second frame is sound, the worker dies on the first
    frame and writes nothing, while the second frame alone would have been
    written to a shard. *)
Lemma extractor_error_aborts_worker :
  parallel_extraction
    (Scenario.env_of [Ok (Some (Raise ExtractorError)); Ok (Some (Ok Scenario.x_ok))])
    Scenario.st0 = Crashed ExtractorError []
  /\ exists s, parallel_extraction (Scenario.env_of [Ok (Some (Ok Scenario.x_ok))])
                 Scenario.st0 = Running s
               /\ length (written s) = 1%nat.
Proof. split; [reflexivity|]. eexists. split; reflexivity. Qed.

(** C3, amended.  In the frame loop of a file, a call of [pop_physics] that
    raises is caught locally and only that frame is skipped: the loop goes
    on with the remaining frames exactly as if the call had not been there.
    An exception raised by the extractor while processing a frame is not
    caught: the worker dies with it, keeping only the files already
    written. *)
Theorem pop_error_skips_only_that_frame st s pre post e :
  frames_loop st s (pre ++ Raise e :: post) = frames_loop st s (pre ++ post)
  /\ frames_loop st s (Ok (Some (Raise e)) :: post) = Crashed e (written s).
Proof.
  split.
  - apply frames_loop_skip. right. by exists e.
  - apply frames_loop_extractor_raises.
Qed.

(** C4 as stated does not hold: the failure does not reach the
    orchestrator.  With two i3 files and two workers, the worker whose file
    cannot be opened dies with OpenError; [_processfiles] nevertheless
    calls [_merge_databases], which merges the other worker's shard, and
    returns without an exception. *)
Lemma open_failure_is_absorbed_by_pool :
  let o := _processfiles Scenario.converter Scenario.world_first_unreadable in
  pool o !! 0%nat = Some (Crashed OpenError [])
  /\ raised o = None
  /\ exists m db, merged o = Some m /\ merge_raised m = None
                  /\ final m = Some db /\ tmp_left m = []
                  /\ (length <$> (trows <$> tables db !! "truth")) = Some 1%nat.
Proof.
  vm_compute. split; [reflexivity|]. split; [reflexivity|].
  eexists _, _. repeat split; reflexivity.
Qed.

(** C4, amended.  In every run in which discovery found files and the
    work was split: a failure opening an i3 file or loading its gcd file
    is fatal to that worker (it dies with the exception, the later files
    of its share are not read, its buffers are dropped and only the
    shards it had already written remain), but the failure is absorbed by
    the pool: [_processfiles] always goes on to [_merge_databases] over
    the shards that were written, and ends with what the merge ends
    with. *)
Theorem open_failure_kills_worker_not_run c w input_files gcd_files csv0 settings :
  Discovery.find_files (tree w) (rng w) (c_paths c) (c_gcd_rescue c) None
    = Ok (input_files, gcd_files, csv0) ->
  (0 < length input_files)%nat ->
  plan c input_files gcd_files = Ok settings ->
  let o := _processfiles c w in
  let m := _merge_databases (c_outdir c) (c_db_name c) (c_pulsemap c)
             (listdir w (concat (map files_of (pool o)))) in
  pool o = map (parallel_extraction (wenv w)) settings
  /\ merged o = Some m
  /\ raised o = merge_raised m
  /\ forall i st pre file post s' e,
       settings !! i = Some st ->
       Worker.input_files st = pre ++ file :: post ->
       files_loop (wenv w) st init 0 pre = Running s' ->
       cannot_open (wenv w) st (length pre) file e ->
       pool o !! i = Some (Crashed e (written s')).
Proof.
  intros Hfind Hlen Hplan o m.
  assert (Ho : o = {| csv := csv0;
                      pool := map_async w settings;
                      merged := Some (_merge_databases (c_outdir c) (c_db_name c)
                                  (c_pulsemap c)
                                  (listdir w (concat (map files_of (map_async w settings)))));
                      log := [counting (c_paths c); "starting pool!"; "pool"]
                             ++ merge_log (_merge_databases (c_outdir c) (c_db_name c)
                                  (c_pulsemap c)
                                  (listdir w (concat (map files_of (map_async w settings)))));
                      raised := merge_raised (_merge_databases (c_outdir c) (c_db_name c)
                                  (c_pulsemap c)
                                  (listdir w (concat (map files_of (map_async w settings))))) |}).
  { subst o. unfold _processfiles. rewrite Hfind.
    apply Nat.ltb_lt in Hlen. rewrite Hlen, Hplan. reflexivity. }
  subst m. rewrite Ho. simpl.
  repeat split.
  intros i st pre file post s' e Hst Hfiles Hpre Hfail.
  unfold map_async. rewrite list_lookup_fmap, Hst. simpl. f_equal.
  by eapply parallel_extraction_cannot_open.
Qed.

(** The amended C4 at the run with two files, the first unreadable. *)
Lemma open_failure_witness :
  let o := _processfiles Scenario.converter Scenario.world_first_unreadable in
  (exists m, merged o = Some m /\ raised o = merge_raised m)
  /\ pool o !! 0%nat = Some (Crashed OpenError []).
Proof.
  intros o.
  destruct (open_failure_kills_worker_not_run Scenario.converter
              Scenario.world_first_unreadable
              ["data/a.i3.zst"; "data/b.i3.zst"] ["rescue.i3.gz"; "rescue.i3.gz"]
              (Some ["data/a.i3.zst"; "data/b.i3.zst"])
              [ {| Worker.input_files := ["data/a.i3.zst"]; id := "0";
                   gcd_files := ["rescue.i3.gz"];
                   event_no_list := {| start := 0; stop := 50000000 |};
                   mode := "oscNext"; pulsemap := "SRTInIcePulses";
                   max_dict_size := 2; db_name := "db"; outdir := "out" |};
                {| Worker.input_files := ["data/b.i3.zst"]; id := "1";
                   gcd_files := ["rescue.i3.gz"];
                   event_no_list := {| start := 50000000; stop := 99999999 |};
                   mode := "oscNext"; pulsemap := "SRTInIcePulses";
                   max_dict_size := 2; db_name := "db"; outdir := "out" |} ])
    as (_ & Hm & Hr & Hdead).
  - reflexivity.
  - simpl. lia.
  - reflexivity.
  - split; [eauto|].
    eapply (Hdead 0%nat _ [] "data/a.i3.zst" [] init OpenError); try reflexivity.
    exists "rescue.i3.gz". split; [reflexivity|]. right. split; [by exists tt|reflexivity].
Defined.

(** C5: the code at a directory whose gcd file lies at the top level and
    whose two i3 files lie in a sub-folder.  The top level contributes no
    i3 file and one gcd file, the sub-folder two i3 files and the rescue
    file twice: the lists handed to [pairwiseshuffle] have lengths 2 and
    3, and [find_i3_files] raises ValueError instead of returning paired
    lists.  At a level with two gcd files and three i3 files the first i3
    file is paired with the first gcd file and the others with the
    second. *)
Theorem find_i3_files_unpaired_lists draws :
  Discovery.scan_level "data" ["GeoCalibDetectorStatus.i3.gz"]
    Discovery.default_extensions "rescue.i3.gz"
  = ([], ["data/GeoCalibDetectorStatus.i3.gz"])
  /\ Discovery.scan_level "data/run1" ["a.i3.zst"; "b.i3.zst"]
       Discovery.default_extensions "rescue.i3.gz"
     = (["data/run1/a.i3.zst"; "data/run1/b.i3.zst"], ["rescue.i3.gz"; "rescue.i3.gz"])
  /\ Discovery.find_i3_files Scenario.tree_gcd_top draws "data"
       Discovery.default_extensions "rescue.i3.gz" = Raise ValueError
  /\ Discovery.scan_level "d"
       ["gcd_1.i3.gz"; "gcd_2.i3.gz"; "x.i3.zst"; "y.i3.zst"; "z.i3.zst"]
       Discovery.default_extensions "rescue.i3.gz"
     = (["d/x.i3.zst"; "d/y.i3.zst"; "d/z.i3.zst"],
        ["d/gcd_1.i3.gz"; "d/gcd_2.i3.gz"; "d/gcd_2.i3.gz"]).
Proof. repeat split; reflexivity. Qed.





(** C8 as stated does not hold when [dom_x] is absent: reading the key
    raises KeyError, the frame is not accumulated and the worker dies. *)
Lemma absent_dom_x_aborts_worker :
  isempty (features Scenario.x_absent) = Raise KeyError
  /\ frame_body Scenario.st0 init (Ok Scenario.x_absent) = Raise KeyError
  /\ parallel_extraction (Scenario.env_of [Ok (Some (Ok Scenario.x_absent))])
       Scenario.st0 = Crashed KeyError [].
Proof. repeat split; reflexivity. Qed.

(** C8, amended.  For every processed frame whose pulse dictionary holds
    [None] under [dom_x], as long as the worker's range is not exhausted:
    no pulsemap row is recorded, the truth fragment is appended with the
    next id of the range as its [event_no], and the counter advances by
    one; the counter, the truth buffer and the RetroReco buffer end up as
    they do for any other pulse dictionary of the same frame. *)
Theorem empty_pulse_frame_keeps_truth_and_id st s x :
  dict_get (features x) "dom_x" = Ok VNone ->
  Z.of_nat (event_counter s) < stop (event_no_list st) - start (event_no_list st) ->
  let no := start (event_no_list st) + Z.of_nat (event_counter s) in
  exists s',
    frame_body st s (Ok x) = Ok s'
    /\ feature_big s' = feature_big s
    /\ truth_big s' = append (truth_big s) (numbered (truths x) no)
    /\ Forall (fun row => row !! "event_no" = Some no) (rows (numbered (truths x) no))
    /\ event_counter s' = S (event_counter s)
    /\ forall feats s'',
         frame_body st s (Ok {| truths := truths x; features := feats;
                                retros := retros x |}) = Ok s'' ->
         event_counter s'' = event_counter s'
         /\ truth_big s'' = truth_big s'
         /\ retro_big s'' = retro_big s'.
Proof.
  intros Hdom Hroom no.
  assert (Hno : getitem (event_no_list st) (event_counter s) = Ok no)
    by (apply getitem_Ok; done).
  eexists. split; [apply (frame_body_runs st s x no true Hno), isempty_None, Hdom|].
  split; [done|]. split; [done|]. split; [apply numbered_event_no|].
  split; [done|]. intros feats s'' Hrun.
  apply frame_body_Ok in Hrun
    as (x' & no' & [= <-] & Hno' & Htb & Hrb & _ & Hec & _).
  rewrite Hno in Hno'. injection Hno' as <-.
  simpl in *. by rewrite Hec, Htb, Hrb.
Qed.

(** The amended C8 at a frame with an empty pulse series, in the initial
    state of a worker with ten ids. *)
Lemma empty_pulse_frame_witness :
  exists s',
    frame_body Scenario.st0 init (Ok Scenario.x_empty) = Ok s'
    /\ feature_big s' = empty_frame
    /\ len (truth_big s') = 1%nat
    /\ event_counter s' = 1%nat.
Proof.
  destruct (empty_pulse_frame_keeps_truth_and_id Scenario.st0 init Scenario.x_empty)
    as (s' & Hrun & Hf & Ht & _ & Hc & _).
  - reflexivity.
  - simpl. lia.
  - exists s'. rewrite Ht. repeat split; assumption || reflexivity.
Defined.



(** C10.  Whenever schema inference returns a RetroReco header of more
    than one column (the test under which [_create_empty_tables] creates
    the table): the RetroReco table is created like the truth table, its
    [event_no] column declared INTEGER PRIMARY KEY NOT NULL and every other
    column FLOAT; consequently, when the RetroReco tables of the shards
    together hold two rows with the same [event_no], the merge fails. *)
Theorem duplicate_retro_event_no_fails_merge
    outdir db_name pulsemap tmp truth_columns pulse_map_columns retro_columns :
  let db_files := get_temporary_database_paths tmp in
  _extract_column_names db_files
    = Ok (truth_columns, pulse_map_columns, retro_columns) ->
  (1 < length retro_columns)%nat ->
  (forall db db',
      _create_empty_tables pulsemap truth_columns pulse_map_columns retro_columns db
        = (db', None) ->
      tables db' !! "RetroReco"
      = Some {| schema := map (fun c => (c, if String.eqb c "event_no"
                                            then IntegerPrimaryKeyNotNull
                                            else Float)) retro_columns;
                trows := [] |})
  /\ (forall a b v,
        a <> b ->
        retro_keys db_files !! a = Some v ->
        retro_keys db_files !! b = Some v ->
        exists e, merge_raised (_merge_databases outdir db_name pulsemap tmp) = Some e).
Proof.
  intros db_files Hnames Hbig. split.
  - intros db db' Hcreate.
    by destruct (create_empty_tables_Ok_retro _ _ _ _ _ _ Hbig Hcreate) as [_ ->].
  - intros a b v Hab Ha Hb.
    destruct (merge_raised _) as [e|] eqn:Hraised; [eauto|]. exfalso.
    unfold _merge_databases in Hraised. fold db_files in Hraised.
    assert (Hlen : (0 <? length db_files)%nat = true).
    { apply Nat.ltb_lt. destruct db_files; [done|simpl; lia]. }
    rewrite Hlen, Hnames in Hraised. simpl in Hraised.
    destruct (and_then _ _) as [db' e] eqn:Hrun. simpl in Hraised. subst e.
    apply and_then_Ok in Hrun as (db1 & Hcreate & Hmerge).
    destruct (create_empty_tables_Ok_retro _ _ _ _ _ _ Hbig Hcreate) as [Hpm Ht].
    pose proof (merge_keys pulsemap retro_columns db_files db1 db' [] _
                  Hpm Ht eq_refl (NoDup_nil_2) ltac:(by intros ? ?%elem_of_nil)
                  Hmerge) as Hnodup.
    simpl in Hnodup. apply Hab. by eapply NoDup_lookup.
Qed.

(** C10 at two shards whose RetroReco tables both hold a row for event 7:
    the merge ends with an exception, the constraint violation of the
    second row. *)
Lemma duplicate_retro_witness :
  exists e, merge_raised (_merge_databases "out" "db" "SRTInIcePulses"
                            Scenario.tmp_duplicate_retro) = Some e
            /\ e = IntegrityError.
Proof.
  destruct (duplicate_retro_event_no_fails_merge "out" "db" "SRTInIcePulses"
              Scenario.tmp_duplicate_retro
              ["energy"; "event_no"] ["dom_x"; "event_no"]
              ["azimuth_retro"; "event_no"]) as [_ Hdup].
  - reflexivity.
  - simpl. lia.
  - destruct (Hdup 0%nat 1%nat 7) as [e He]; [lia|reflexivity|reflexivity|].
    exists e. split; [exact He|].
    vm_compute in He. by injection He as <-.
Defined.

End Claims.

(** * Further properties of the converter *)

(** ** File names: [has_extension] and [is_i3] *)

Section NameTests.
Import Discovery.

Lemma string_app_nil_r (s : string) : s +:+ "" = s.
Proof.
  induction s as [|c s IH]; [done|]. by rewrite string_app_cons, IH.
Qed.

Lemma string_prefix_spec (a : string) : forall s,
  String.prefix a s = true <-> exists post, s = a +:+ post.
Proof.
  induction a as [|c a IH]; intros s.
  - split; [|by destruct s]. intros _. exists s. by rewrite string_app_nil.
  - destruct s as [|d s]; simpl.
    + split; [done|]. intros [post H]. by rewrite string_app_cons in H.
    + destruct (ascii_dec c d) as [->|Hne].
      * rewrite IH. split; intros [post H]; exists post.
        -- by rewrite string_app_cons, H.
        -- rewrite string_app_cons in H. by injection H.
      * split; [done|]. intros [post H].
        rewrite string_app_cons in H. injection H as H1 H2. congruence.
Qed.

(** [sub in s]: [sub] occurs somewhere in [s]. *)
Lemma contains_spec (sub : string) : forall s,
  contains sub s = true <-> exists pre post, s = pre +:+ sub +:+ post.
Proof.
  intros s. split.
  - induction s as [|c s IH]; cbn [contains]; rewrite orb_true_iff.
    + intros [H|H]; [|done]. apply string_prefix_spec in H as [post H].
      exists "", post. by rewrite string_app_nil.
    + intros [H|H].
      * apply string_prefix_spec in H as [post H].
        exists "", post. by rewrite string_app_nil.
      * destruct (IH H) as (pre & post & ->).
        exists (String c pre), post. by rewrite string_app_cons.
  - intros (pre & post & ->).
    induction pre as [|c pre IH].
    + rewrite string_app_nil.
      assert (String.prefix sub (sub +:+ post) = true) as H
        by (apply string_prefix_spec; eauto).
      destruct (sub +:+ post); cbn [contains]; by rewrite H.
    + rewrite string_app_cons. cbn [contains]. rewrite IH. apply orb_true_r.
Qed.

Lemma has_extension_count file extensions : forall n,
  (n <= fold_left (fun check extension =>
                     if contains extension file then S check else check)
                  extensions n)%nat
  /\ ((n < fold_left (fun check extension =>
                        if contains extension file then S check else check)
                     extensions n)%nat
      <-> exists ext, ext ∈ extensions /\ contains ext file = true).
Proof.
  induction extensions as [|e extensions IH]; intros n; simpl.
  - split; [lia|]. split; [lia|]. intros (ext & H & _). by apply elem_of_nil in H.
  - destruct (contains e file) eqn:He.
    + destruct (IH (S n)) as [Hle _]. split; [lia|].
      split; [|lia]. intros _. exists e. split; [left|done].
    + destruct (IH n) as [Hle Hiff]. split; [done|].
      rewrite Hiff. split; intros (ext & Hin & Hc); exists ext.
      * split; [by right|done].
      * split; [|done]. apply elem_of_cons in Hin as [->|Hin]; [congruence|done].
Qed.

Lemma lower_app (a b : string) : lower (a +:+ b) = lower a +:+ lower b.
Proof.
  induction a as [|c a IH].
  - by rewrite !string_app_nil.
  - rewrite string_app_cons. simpl. by rewrite IH, string_app_cons.
Qed.

Lemma lower_split (a b : string) : forall s,
  lower s = a +:+ b ->
  exists s1 s2, s = s1 +:+ s2 /\ lower s1 = a /\ lower s2 = b.
Proof.
  induction a as [|c a IH]; intros s H.
  - rewrite string_app_nil in H. exists "", s. by rewrite string_app_nil.
  - rewrite string_app_cons in H. destruct s as [|d s]; [done|].
    simpl in H. injection H as Hc Hs.
    destruct (IH s Hs) as (s1 & s2 & -> & H1 & H2).
    exists (String d s1), s2. rewrite string_app_cons. simpl.
    by rewrite Hc, H1.
Qed.

Lemma contains_lower (marker file : string) :
  contains marker (lower file) = true <->
  exists pre g post, file = pre +:+ g +:+ post /\ lower g = marker.
Proof.
  rewrite contains_spec. split.
  - intros (pre & post & H).
    apply lower_split in H as (s1 & s2 & -> & H1 & H2).
    apply lower_split in H2 as (g & s3 & -> & H2 & H3).
    by exists s1, g, s3.
  - intros (pre & g & post & -> & <-).
    exists (lower pre), (lower post). by rewrite !lower_app.
Qed.

(** X1. [has_extension] accepts a file exactly when one of the extensions
    occurs somewhere in its name, not only at its end; without extensions
    it accepts no file. *)
Theorem has_extension_iff_substring file extensions :
  has_extension file extensions = true <->
  exists ext pre post, ext ∈ extensions /\ file = pre +:+ ext +:+ post.
Proof.
  unfold has_extension. rewrite Nat.ltb_lt.
  rewrite (proj2 (has_extension_count file extensions 0%nat)).
  split.
  - intros (ext & Hin & Hc). apply contains_spec in Hc as (pre & post & ->).
    by exists ext, pre, post.
  - intros (ext & pre & post & Hin & ->). exists ext. split; [done|].
    apply contains_spec. eauto.
Qed.

(** X2. [is_i3] rejects a name exactly when the letters gcd or geo occur in
    it, in any mix of upper and lower case and anywhere in the name. *)
Theorem is_i3_false_iff_marker file :
  is_i3 file = false <->
  exists pre g post,
    file = pre +:+ g +:+ post /\ (lower g = "gcd" \/ lower g = "geo").
Proof.
  unfold is_i3. split.
  - destruct (contains "gcd" (lower file)) eqn:Hgcd.
    + intros _. apply contains_lower in Hgcd as (pre & g & post & ? & ?).
      exists pre, g, post. auto.
    + destruct (contains "geo" (lower file)) eqn:Hgeo; [|done].
      intros _. apply contains_lower in Hgeo as (pre & g & post & ? & ?).
      exists pre, g, post. auto.
  - intros (pre & g & post & Hfile & [Hg|Hg]).
    + assert (contains "gcd" (lower file) = true) as ->; [|done].
      apply contains_lower. by exists pre, g, post.
    + assert (contains "geo" (lower file) = true) as ->.
      { apply contains_lower. by exists pre, g, post. }
      by destruct (contains "gcd" (lower file)).
Qed.

End NameTests.

(** ** Discovery: the shuffle, the directory levels, the manifest *)

Section DiscoveryPairs.
Import Discovery.

Lemma pairwiseshuffle_spec draws files_list gcd_list :
  (length files_list = length gcd_list ->
   exists a b,
     pairwiseshuffle draws files_list gcd_list = Ok (a, b)
     /\ Permutation (zip a b) (zip files_list gcd_list)
     /\ Permutation a files_list
     /\ Permutation b gcd_list)
  /\ (length files_list <> length gcd_list ->
      pairwiseshuffle draws files_list gcd_list = Raise ValueError).
Proof.
  unfold pairwiseshuffle. split; intros Hlen.
  - rewrite (proj2 (Nat.eqb_eq _ _) Hlen).
    eexists _, _. split; [reflexivity|].
    pose proof (sample_Permutation draws (zip files_list gcd_list)) as Hperm.
    split; [by rewrite zip_fst_snd|].
    split.
    + etrans; [apply Permutation_map, Hperm|].
      change (map fst ?l) with (l.*1). rewrite fst_zip; [done|lia].
    + etrans; [apply Permutation_map, Hperm|].
      change (map snd ?l) with (l.*2). rewrite snd_zip; [done|lia].
  - by rewrite (proj2 (Nat.eqb_neq _ _) Hlen).
Qed.

(** X3. [pairwiseshuffle] returns exactly when the two lists are equally
    long; it then permutes the two lists, keeping every i3 file at the
    index of its gcd file.  Lists of different length raise ValueError. *)
Theorem pairwiseshuffle_keeps_pairs draws files_list gcd_list :
  (length files_list = length gcd_list ->
   exists a b,
     pairwiseshuffle draws files_list gcd_list = Ok (a, b)
     /\ Permutation (zip a b) (zip files_list gcd_list)
     /\ Permutation a files_list
     /\ Permutation b gcd_list)
  /\ (length files_list <> length gcd_list ->
      pairwiseshuffle draws files_list gcd_list = Raise ValueError).
Proof. apply pairwiseshuffle_spec. Qed.

(** X3 at two files and a generator that always draws the second row
    left. *)
Lemma pairwiseshuffle_keeps_pairs_witness :
  exists a b,
    pairwiseshuffle (fun _ => 1%nat) ["a.i3"; "b.i3"] ["g1"; "g2"] = Ok (a, b)
    /\ Permutation (zip a b) (zip ["a.i3"; "b.i3"] ["g1"; "g2"])
    /\ Permutation a ["a.i3"; "b.i3"]
    /\ Permutation b ["g1"; "g2"].
Proof.
  apply (proj1 (pairwiseshuffle_keeps_pairs (fun _ => 1%nat)
                  ["a.i3"; "b.i3"] ["g1"; "g2"])).
  reflexivity.
Defined.

(** The numbers of i3 files and of gcd files [classify] finds at a
    level, and the levels at which no gcd file is left over. *)
Definition level_counts (root : string) (names extensions : list string)
    : nat * nat :=
  let '(i3files, gcds, _) := classify root names extensions in
  (length i3files, length gcds).

Definition balanced (root : string) (names extensions : list string) : Prop :=
  (snd (level_counts root names extensions)
   <= fst (level_counts root names extensions))%nat.

Definition all_balanced (fs : FileSystem) (dir : string) (top : Listing)
    (extensions : list string) : Prop :=
  balanced dir (files top) extensions
  /\ forall folder sub,
       folder ∈ folders top ->
       fs (path_join dir folder) = Some sub ->
       balanced (path_join dir folder) (files sub) extensions.

(** The pairs a level contributes, and those of a directory with its
    sub-folders. *)
Definition level_pairs (root : string) (names extensions : list string)
    (gcd_rescue : string) : list (string * string) :=
  let '(i3files, gcds) := scan_level root names extensions gcd_rescue in
  zip i3files gcds.

Definition folder_pairs (fs : FileSystem) (dir : string)
    (extensions : list string) (gcd_rescue : string) (folder : string)
    : list (string * string) :=
  match fs (path_join dir folder) with
  | Some sub => level_pairs (path_join dir folder) (files sub) extensions gcd_rescue
  | None => []
  end.

Definition tree_pairs (fs : FileSystem) (dir : string) (top : Listing)
    (extensions : list string) (gcd_rescue : string) : list (string * string) :=
  level_pairs dir (files top) extensions gcd_rescue
  ++ concat (map (folder_pairs fs dir extensions gcd_rescue) (folders top)).

Lemma scan_level_lengths root names extensions gcd_rescue i3files gcds :
  scan_level root names extensions gcd_rescue = (i3files, gcds) ->
  (length i3files <= length gcds)%nat
  /\ (length i3files = length gcds <-> balanced root names extensions).
Proof.
  unfold scan_level, balanced, level_counts.
  destruct (classify root names extensions) as [[i3 g] last].
  intros [= <- <-]. rewrite length_app, repeat_length. simpl. lia.
Qed.

Lemma scan_folders_spec fs root extensions gcd_rescue folders :
  forall files_list GCD_list a b,
    (length files_list <= length GCD_list)%nat ->
    scan_folders fs root extensions gcd_rescue folders files_list GCD_list
      = Ok (a, b) ->
    (length a <= length b)%nat
    /\ (length a = length b <->
        length files_list = length GCD_list
        /\ forall folder sub,
             folder ∈ folders ->
             fs (path_join root folder) = Some sub ->
             balanced (path_join root folder) (files sub) extensions)
    /\ (length a = length b ->
        zip a b = zip files_list GCD_list
                  ++ concat (map (folder_pairs fs root extensions gcd_rescue) folders)).
Proof.
  induction folders as [|folder rest IH]; intros fl gl a b Hle; simpl.
  - intros [= <- <-]. split; [done|]. split.
    + split; [|tauto]. intros H. split; [done|].
      intros ? ? Hin. by apply elem_of_nil in Hin.
    + intros _. by rewrite app_nil_r.
  - unfold walk_first, res_bind.
    destruct (fs (path_join root folder)) as [sub|] eqn:Hsub; [|done].
    destruct (scan_level _ _ _ _) as [i3 g] eqn:Hlevel.
    pose proof (scan_level_lengths _ _ _ _ _ _ Hlevel) as [Hl1 Hl2].
    intros Hscan. apply IH in Hscan; [|rewrite !length_app; lia].
    destruct Hscan as (Hab & Hiff & Hzip). split; [done|]. split.
    + rewrite Hiff, !length_app. split.
      * intros [Hlen Hrest]. split; [lia|].
        intros f s Hin Hf. apply elem_of_cons in Hin as [->|Hin].
        -- rewrite Hsub in Hf. injection Hf as <-. apply Hl2. lia.
        -- by apply Hrest.
      * intros [Hlen Hall]. split.
        -- assert (length i3 = length g); [|lia].
           apply Hl2, Hall; [left|done].
        -- intros f s Hin. apply Hall. by right.
    + intros Heq. rewrite (Hzip Heq).
      apply Hiff in Heq as [Heq _]. rewrite !length_app in Heq.
      assert (length fl = length gl) as Hfl by lia.
      rewrite zip_with_app by done.
      rewrite <- app_assoc. f_equal. f_equal.
      unfold folder_pairs, level_pairs. by rewrite Hsub, Hlevel.
Qed.

Lemma scan_folders_Ok fs root extensions gcd_rescue folders :
  forall files_list GCD_list,
    (forall folder, folder ∈ folders -> is_Some (fs (path_join root folder))) ->
    exists a b,
      scan_folders fs root extensions gcd_rescue folders files_list GCD_list
        = Ok (a, b).
Proof.
  induction folders as [|folder rest IH]; intros fl gl Hwalk; simpl; [eauto|].
  unfold walk_first, res_bind.
  destruct (Hwalk folder) as [sub ->]; [left|].
  destruct (scan_level _ _ _ _) as [i3 g].
  apply IH. intros f Hin. apply Hwalk. by right.
Qed.

(** What [find_i3_files] does once the directory and its sub-folders can
    be listed. *)
Lemma find_i3_files_spec fs draws dir extensions gcd_rescue top :
  fs dir = Some top ->
  (forall folder, folder ∈ folders top -> is_Some (fs (path_join dir folder))) ->
  (all_balanced fs dir top extensions /\
   exists a b, find_i3_files fs draws dir extensions gcd_rescue = Ok (a, b)
               /\ Permutation (zip a b) (tree_pairs fs dir top extensions gcd_rescue))
  \/ (~ all_balanced fs dir top extensions /\
      find_i3_files fs draws dir extensions gcd_rescue = Raise ValueError).
Proof.
  intros Htop Hwalk. unfold find_i3_files, walk_first, res_bind. rewrite Htop.
  destruct (scan_level dir (files top) extensions gcd_rescue) as [i3 g] eqn:Hlevel.
  pose proof (scan_level_lengths _ _ _ _ _ _ Hlevel) as [Hl1 Hl2].
  destruct (scan_folders_Ok fs dir extensions gcd_rescue (folders top) i3 g Hwalk)
    as (fl & gl & Hscan).
  rewrite Hscan.
  apply scan_folders_spec in Hscan as (Hle & Hiff & Hzip); [|done].
  destruct (pairwiseshuffle_spec draws fl gl) as [Hok Hbad].
  destruct (decide (length fl = length gl)) as [Heq|Hne].
  - left. pose proof (proj1 Hiff Heq) as [Hroot Hsubs]. split.
    + split; [by apply Hl2|done].
    + destruct (Hok Heq) as (a & b & -> & Hperm & _). exists a, b.
      split; [done|]. rewrite Hperm, (Hzip Heq).
      unfold tree_pairs, level_pairs. by rewrite Hlevel.
  - right. split; [|by apply Hbad].
    intros [Hroot Hsubs]. apply Hne, Hiff. split; [by apply Hl2|done].
Qed.

(** X4. In a directory that can be listed together with its sub-folders,
    [find_i3_files] returns exactly when no level holds more gcd files
    than i3 files; in every other case it raises ValueError. *)
Theorem find_i3_files_returns_iff_balanced fs draws dir extensions gcd_rescue top :
  fs dir = Some top ->
  (forall folder, folder ∈ folders top -> is_Some (fs (path_join dir folder))) ->
  ((exists a b, find_i3_files fs draws dir extensions gcd_rescue = Ok (a, b))
   <-> all_balanced fs dir top extensions)
  /\ (find_i3_files fs draws dir extensions gcd_rescue = Raise ValueError
      <-> ~ all_balanced fs dir top extensions).
Proof.
  intros Htop Hwalk.
  destruct (find_i3_files_spec fs draws dir extensions gcd_rescue top Htop Hwalk)
    as [[Hbal (a & b & Hfind & _)]|[Hbal Hfind]]; rewrite Hfind.
  - split; [split; eauto|]. split; [done|tauto].
  - split; [|tauto]. split; [|tauto]. by intros (a & b & ?).
Qed.

(** X4 at a directory with its gcd file at the top and its i3 files one
    level down: the top level is not balanced. *)
Lemma find_i3_files_returns_iff_balanced_witness :
  let top := {| folders := ["run1"]; files := ["GeoCalibDetectorStatus.i3.gz"] |} in
  ((exists a b, find_i3_files Scenario.tree_gcd_top (fun _ => 0%nat) "data"
                  default_extensions "rescue.i3.gz" = Ok (a, b))
   <-> all_balanced Scenario.tree_gcd_top "data" top default_extensions)
  /\ (find_i3_files Scenario.tree_gcd_top (fun _ => 0%nat) "data"
        default_extensions "rescue.i3.gz" = Raise ValueError
      <-> ~ all_balanced Scenario.tree_gcd_top "data" top default_extensions).
Proof.
  intros top.
  apply (find_i3_files_returns_iff_balanced Scenario.tree_gcd_top (fun _ => 0%nat)
           "data" default_extensions "rescue.i3.gz" top).
  - reflexivity.
  - intros folder Hin. apply list_elem_of_singleton in Hin as ->.
    eexists. reflexivity.
Defined.

(** X5. When [find_i3_files] returns, its pairs are, up to the shuffle,
    those of the directory levels: at each level the k-th i3 file with the
    k-th gcd file, and the i3 files beyond the gcd files with the last gcd
    file of the level or, when the level has none, with the rescue file. *)
Theorem find_i3_files_pairs_by_level fs draws dir extensions gcd_rescue top a b :
  fs dir = Some top ->
  (forall folder, folder ∈ folders top -> is_Some (fs (path_join dir folder))) ->
  find_i3_files fs draws dir extensions gcd_rescue = Ok (a, b) ->
  Permutation (zip a b) (tree_pairs fs dir top extensions gcd_rescue).
Proof.
  intros Htop Hwalk Hfind.
  destruct (find_i3_files_spec fs draws dir extensions gcd_rescue top Htop Hwalk)
    as [[_ (a' & b' & Hfind' & Hperm)]|[_ Hfind']]; rewrite Hfind in Hfind'.
  - by injection Hfind' as <- <-.
  - done.
Qed.

(** X5 at a directory holding one gcd file and three i3 files. *)
Lemma find_i3_files_pairs_by_level_witness :
  Permutation
    (zip ["data/a.i3.zst"; "data/b.i3.zst"; "data/c.i3.zst"]
         ["data/GeoCalibDetectorStatus.i3.gz"; "data/GeoCalibDetectorStatus.i3.gz";
          "data/GeoCalibDetectorStatus.i3.gz"])
    (tree_pairs Scenario.tree_three_files "data"
       {| folders := [];
          files := ["GeoCalibDetectorStatus.i3.gz"; "a.i3.zst"; "b.i3.zst"; "c.i3.zst"] |}
       default_extensions "rescue.i3.gz").
Proof.
  apply (find_i3_files_pairs_by_level Scenario.tree_three_files (fun _ => 0%nat)
           "data" default_extensions "rescue.i3.gz").
  - reflexivity.
  - intros folder Hin. by apply elem_of_nil in Hin.
  - vm_compute. reflexivity.
Defined.

Lemma find_files_csv fs rng paths gcd_rescue extensions input_files gcd_files csv :
  find_files fs rng paths gcd_rescue extensions = Ok (input_files, gcd_files, csv) ->
  length input_files = length gcd_files
  /\ csv = match input_files with [] => None | _ => Some input_files end.
Proof.
  unfold find_files, res_bind.
  destruct (find_paths _ _ _ _ _ _ _ _) as [[inp gcds]|] eqn:Hpaths; [|done].
  apply find_paths_lengths in Hpaths; [|done].
  destruct (0 <? length inp)%nat eqn:Hpos.
  - destruct (pairwiseshuffle _ inp gcds) as [[a b]|] eqn:Hsh; [|done].
    intros [= <- <- <-].
    split; [by eapply pairwiseshuffle_lengths|].
    destruct (pairwiseshuffle_spec (rng 0%nat) inp gcds) as [Hok _].
    destruct (Hok Hpaths) as (a' & b' & Hsh' & _ & Hperm & _).
    rewrite Hsh in Hsh'. injection Hsh' as <- <-.
    destruct a; [|done]. apply Permutation_nil in Hperm. subst inp. done.
  - intros [= <- <- <-]. split; [done|].
    apply Nat.ltb_ge in Hpos. by destruct inp; [|simpl in Hpos; lia].
Qed.

(** X6. The manifest [find_files] writes lists exactly the input files it
    returns, in the order in which it returns them; it is not written when
    no input file was found.  The two lists it returns are equally
    long. *)
Theorem find_files_manifest fs rng paths gcd_rescue extensions
    input_files gcd_files csv :
  find_files fs rng paths gcd_rescue extensions = Ok (input_files, gcd_files, csv) ->
  length input_files = length gcd_files
  /\ csv = match input_files with [] => None | _ => Some input_files end.
Proof. apply find_files_csv. Qed.

(** X6 at a directory holding one gcd file and three i3 files. *)
Lemma find_files_manifest_witness :
  let input := ["data/a.i3.zst"; "data/b.i3.zst"; "data/c.i3.zst"] in
  let gcds := ["data/GeoCalibDetectorStatus.i3.gz"; "data/GeoCalibDetectorStatus.i3.gz";
               "data/GeoCalibDetectorStatus.i3.gz"] in
  length input = length gcds /\ Some input = Some input.
Proof.
  intros input gcds.
  apply (find_files_manifest Scenario.tree_three_files (fun _ _ => 0%nat) ["data"]
           "rescue.i3.gz" None input gcds (Some input)).
  vm_compute. reflexivity.
Defined.

End DiscoveryPairs.

(** ** Discovery: what a directory level holds, and a path that fails *)

Section DiscoveryLevels.
Import Discovery Pandas Worker Merger Orchestrator.

Lemma last_cons {A} (a : A) l d : List.last (a :: l) d = List.last l a.
Proof.
  revert a d. induction l as [|b l IH]; intros a d; [done|].
  change (List.last (a :: b :: l) d) with (List.last (b :: l) d).
  by rewrite !IH.
Qed.

(** The names of a level that count as i3 files, and those that count as
    gcd files. *)
Definition i3_names (names extensions : list string) : list string :=
  List.filter (fun file => has_extension file extensions && is_i3 file) names.

Definition gcd_names (names extensions : list string) : list string :=
  List.filter (fun file => has_extension file extensions && negb (is_i3 file)) names.

Lemma classify_fold root extensions names : forall i3files gcds gcd,
  fold_left
    (fun '(i3files, gcds, gcd) file =>
       if has_extension file extensions then
         if is_i3 file then (i3files ++ [path_join root file], gcds, gcd)
         else (i3files, gcds ++ [path_join root file], Some (path_join root file))
       else (i3files, gcds, gcd))
    names (i3files, gcds, gcd)
  = (i3files ++ map (path_join root) (i3_names names extensions),
     gcds ++ map (path_join root) (gcd_names names extensions),
     List.last (map Some (map (path_join root) (gcd_names names extensions))) gcd).
Proof.
  unfold i3_names, gcd_names.
  induction names as [|file names IH]; intros i3files gcds gcd.
  - simpl. by rewrite !app_nil_r.
  - cbn [fold_left List.filter].
    destruct (has_extension file extensions); [|apply IH].
    destruct (is_i3 file); cbn [andb negb]; rewrite IH.
    + cbn [map]. by rewrite <- app_assoc.
    + cbn [map]. by rewrite <- app_assoc, last_cons.
Qed.

(** X7. The loop over the files of a directory level collects, in the
    order of the listing and each joined to the directory: as i3 files the
    names that have an accepted extension and pass [is_i3], as gcd files
    the names that have an accepted extension and do not; the gcd file it
    keeps for padding is the last of the latter. *)
Theorem classify_collects_by_name root names extensions :
  classify root names extensions
  = (map (path_join root) (i3_names names extensions),
     map (path_join root) (gcd_names names extensions),
     List.last (map Some (map (path_join root) (gcd_names names extensions))) None).
Proof. unfold classify. by rewrite classify_fold. Qed.

Lemma find_paths_raises fs rng pre p post extensions gcd_rescue e :
  forall k input_files gcd_files,
    (forall i q, pre !! i = Some q ->
       exists r, find_i3_files fs (rng (k + i)%nat) q extensions gcd_rescue = Ok r) ->
    find_i3_files fs (rng (k + length pre)%nat) p extensions gcd_rescue = Raise e ->
    find_paths fs rng k (pre ++ p :: post) extensions gcd_rescue input_files gcd_files
    = Raise e.
Proof.
  induction pre as [|q pre IH]; intros k inp gcds Hpre Hp.
  - simpl in *. rewrite Nat.add_0_r in Hp. by rewrite Hp.
  - cbn [app find_paths].
    destruct (Hpre 0%nat q eq_refl) as [[a b] Hq].
    rewrite Nat.add_0_r in Hq. rewrite Hq. cbn [res_bind].
    apply IH.
    + intros i q' Hi. destruct (Hpre (S i) q' Hi) as [r Hr].
      exists r. by replace (S k + i)%nat with (k + S i)%nat by lia.
    + simpl in Hp. by replace (S k + length pre)%nat with (k + S (length pre))%nat by lia.
Qed.

(** X8. A path on which [find_i3_files] raises ends the run before
    anything is extracted: when the paths before it are scanned without
    exception, [_processfiles] ends with that exception, no manifest has
    been written, no worker has run and nothing is merged, whatever the
    other paths hold. *)
Theorem failing_path_aborts_run c w pre p post e :
  c_paths c = pre ++ p :: post ->
  (forall i q, pre !! i = Some q ->
     exists r, find_i3_files (tree w) (rng w (S i)) q default_extensions
                 (c_gcd_rescue c) = Ok r) ->
  find_i3_files (tree w) (rng w (S (length pre))) p default_extensions
    (c_gcd_rescue c) = Raise e ->
  _processfiles c w =
    {| csv := None; pool := []; merged := None;
       log := [counting (c_paths c)]; raised := Some e |}.
Proof.
  intros Hpaths Hpre Hp. unfold _processfiles, find_files.
  rewrite Hpaths at 1.
  by rewrite (find_paths_raises (tree w) (rng w) pre p post default_extensions
                (c_gcd_rescue c) e 1%nat [] [] Hpre Hp).
Qed.

Definition world_gcd_top : World :=
  {| tree := Scenario.tree_gcd_top; rng := fun _ _ => 0%nat;
     wenv := Scenario.env_of []; listdir_draws := fun _ => 0%nat |}.

(** X8 at a directory whose gcd file lies one level above its i3 files:
    the scan raises ValueError. *)
Lemma failing_path_aborts_run_witness :
  _processfiles Scenario.converter world_gcd_top =
    {| csv := None; pool := []; merged := None;
       log := [counting ["data"]]; raised := Some ValueError |}.
Proof.
  apply (failing_path_aborts_run Scenario.converter world_gcd_top [] "data" []
           ValueError).
  - reflexivity.
  - intros i q Hi. done.
  - vm_compute. reflexivity.
Defined.

End DiscoveryLevels.

(** ** The worker: numbering one dictionary *)

Section Numbering.
Import Pandas Worker.





End Numbering.

(** ** The worker: the ids of the truth rows *)

Section TruthIds.
Import Pandas Worker.

(** The truth rows of a list of shards, in the order of the files. *)
Definition truth_rows_of (fs : list File) : list (gmap string Z) :=
  concat (map (fun f : File => rows (truth_table (snd f))) fs).

Definition event_no_of (row : gmap string Z) : option Z := row !! "event_no".

(** The first [n] ids of a range, from the [a]-th on. *)
Definition ids_from (r : arange) (a n : nat) : list (option Z) :=
  map (fun k => Some (start r + Z.of_nat k)) (seq a n).

Lemma truth_rows_of_snoc fs f :
  truth_rows_of (fs ++ [f]) = truth_rows_of fs ++ rows (truth_table (snd f)).
Proof.
  unfold truth_rows_of. rewrite map_app, concat_app. simpl. by rewrite app_nil_r.
Qed.

Lemma ids_from_app r a n m :
  ids_from r a n ++ ids_from r (a + n) m = ids_from r a (n + m).
Proof. unfold ids_from. by rewrite seq_app, map_app. Qed.

Lemma numbered_one_row d no :
  nrows d = 1%nat ->
  map event_no_of (rows (numbered d no)) = [Some no].
Proof.
  intros Hd. unfold numbered, set_column, frame_of_dict; simpl.
  rewrite Hd. simpl. unfold event_no_of. by rewrite lookup_insert_eq.
Qed.

(** The ids written and buffered so far are the first [event_counter] ids
    of the range, in order. *)
Definition ids_inv (st : Settings) (s : wstate) : Prop :=
  exists a b,
    event_counter s = (a + b)%nat
    /\ map event_no_of (truth_rows_of (written s)) = ids_from (event_no_list st) 0 a
    /\ map event_no_of (rows (truth_big s)) = ids_from (event_no_list st) a b.

Lemma ids_inv_step st s x s' :
  one_truth_row x -> ids_inv st s ->
  frame_body st s (Ok x) = Ok s' -> ids_inv st (flush_if_full st s').
Proof.
  intros Hx (a & b & Hc & Hw & Hb) Hbody.
  apply frame_body_Ok in Hbody
    as (x' & no & [= <-] & Hno & Ht & _ & _ & Hc' & _ & Hw').
  apply getitem_Ok in Hno as [_ ->].
  assert (map event_no_of (rows (truth_big s'))
          = ids_from (event_no_list st) a (b + 1)) as Hb'.
  { rewrite Ht.
    change (rows (append ?d ?o)) with (rows d ++ rows o).
    rewrite map_app, Hb, (numbered_one_row _ _ Hx).
    rewrite <- ids_from_app. by rewrite Hc. }
  unfold flush_if_full. destruct (_ >=? _).
  - exists (a + (b + 1))%nat, 0%nat. simpl.
    split; [lia|]. split; [|done].
    rewrite truth_rows_of_snoc, map_app, Hw', Hw. simpl.
    rewrite Hb'. apply (ids_from_app _ 0).
  - exists a, (b + 1)%nat. split; [lia|]. by rewrite Hw'.
Qed.

Lemma ids_inv_final st s : ids_inv st s ->
  map event_no_of (truth_rows_of (written (final_flush st s)))
  = ids_from (event_no_list st) 0 (event_counter s).
Proof.
  intros (a & b & Hc & Hw & Hb). unfold final_flush.
  destruct (0 <? len (truth_big s))%nat eqn:Hlen; simpl.
  - rewrite truth_rows_of_snoc, map_app, Hw. simpl. rewrite Hb, Hc.
    apply (ids_from_app _ 0).
  - apply Nat.ltb_ge in Hlen. unfold len in Hlen.
    destruct (rows (truth_big s)); [|simpl in Hlen; lia].
    destruct b; [|done]. by rewrite Hw, Hc, Nat.add_0_r.
Qed.

Lemma worker_ids_seq env st :
  env_one_truth_row env ->
  exists n,
    map event_no_of (truth_rows_of (files_of (parallel_extraction env st)))
    = ids_from (event_no_list st) 0 n
    /\ forall s, parallel_extraction env st = Running s ->
                 n = frames_in env (input_files st).
Proof.
  intros Henv. unfold parallel_extraction.
  pose proof (files_loop_invariant env st (ids_inv st)
                (fun fs => exists n, map event_no_of (truth_rows_of fs)
                                     = ids_from (event_no_list st) 0 n)
                one_truth_row) as Hinv.
  specialize (Hinv (fun s x s' Hx Hs Hb => ids_inv_step st s x s' Hx Hs Hb)).
  assert (forall s, ids_inv st s ->
            exists n, map event_no_of (truth_rows_of (written s))
                      = ids_from (event_no_list st) 0 n) as Hfiles.
  { intros s (a & b & _ & Hw & _). eauto. }
  specialize (Hinv Hfiles (input_files st) init 0%nat Henv).
  assert (ids_inv st init) as Hinit by (by exists 0%nat, 0%nat).
  specialize (Hinv Hinit).
  destruct (files_loop env st init 0 (input_files st)) as [s|e fs] eqn:Hloop;
    simpl in *.
  - exists (event_counter s). split; [by apply ids_inv_final|].
    intros _ _. by apply files_loop_counter in Hloop.
  - destruct Hinv as [n Hn]. exists n. by split.
Qed.

(** X10. When every frame gives one truth row, the truth rows a worker
    writes carry, in the order written, the ids of its range from the
    first one on without a gap; a worker that returns has used one id for
    each frame of its files. *)
Theorem worker_ids_consecutive env st :
  env_one_truth_row env ->
  exists n,
    map event_no_of (truth_rows_of (files_of (parallel_extraction env st)))
    = map (fun k => Some (start (event_no_list st) + Z.of_nat k)) (seq 0 n)
    /\ forall s, parallel_extraction env st = Running s ->
                 n = frames_in env (input_files st).
Proof. apply worker_ids_seq. Qed.

(** Three frames in the one file of a worker, the second with an empty
    pulse series. *)
Definition three_frames : Env :=
  Scenario.env_of [Ok (Some (Ok Scenario.x_ok)); Ok (Some (Ok Scenario.x_empty));
                   Ok (Some (Ok Scenario.x_ok))].

(** X10 at a worker meeting three frames. *)
Lemma worker_ids_consecutive_witness :
  exists n,
    map event_no_of (truth_rows_of (files_of (parallel_extraction three_frames Scenario.st0)))
    = map (fun k => Some (start (event_no_list Scenario.st0) + Z.of_nat k)) (seq 0 n)
    /\ forall s, parallel_extraction three_frames Scenario.st0 = Running s ->
                 n = frames_in three_frames (input_files Scenario.st0).
Proof.
  apply (worker_ids_consecutive three_frames Scenario.st0).
  intros file pops [= <-]. repeat constructor.
Defined.

(** X11. A worker that returns has met no more frames than its range holds
    ids: with more frames in its files it ends with an exception. *)
Theorem worker_returns_within_range env st s :
  parallel_extraction env st = Running s ->
  Z.of_nat (frames_in env (input_files st)) <= arange_len (event_no_list st).
Proof.
  unfold parallel_extraction.
  pose proof (files_loop_invariant env st
                (fun s => Z.of_nat (event_counter s) <= arange_len (event_no_list st))
                (fun _ => True) (fun _ => True)) as Hinv.
  assert (forall s x s', True ->
            Z.of_nat (event_counter s) <= arange_len (event_no_list st) ->
            frame_body st s (Ok x) = Ok s' ->
            Z.of_nat (event_counter (flush_if_full st s'))
            <= arange_len (event_no_list st)) as Hstep.
  { intros s0 x s' _ _ Hbody.
    apply frame_body_Ok in Hbody as (x' & no & _ & Hno & _ & _ & _ & Hc & _).
    apply getitem_Ok in Hno as [Hno _].
    unfold flush_if_full. destruct (_ >=? _); simpl; rewrite Hc;
      unfold arange_len; lia. }
  specialize (Hinv Hstep (fun _ _ => Logic.I) (input_files st) init 0%nat
                (fun _ pops _ => pop_frame_True pops)).
  destruct (files_loop env st init 0 (input_files st)) as [s0|e fs] eqn:Hloop;
    [|done].
  intros _. apply files_loop_counter in Hloop. simpl in *.
  rewrite <- Hloop. apply Hinv. unfold arange_len. lia.
Qed.

(** X11 at a worker with ten ids meeting three frames. *)
Lemma worker_returns_within_range_witness :
  Z.of_nat (frames_in three_frames (input_files Scenario.st0))
  <= arange_len (event_no_list Scenario.st0).
Proof.
  eapply (worker_returns_within_range three_frames Scenario.st0).
  vm_compute. reflexivity.
Defined.




End TruthIds.

(** ** The worker: what a shard holds *)

Section ShardContent.
Import Pandas Worker.














(** Every pulse row and RetroReco row of the shard has the id of a truth
    row of the same shard. *)
Definition covered (truth df : DataFrame) : Prop :=
  forall row, row ∈ rows df ->
    exists trow, trow ∈ rows truth /\ is_Some (event_no_of row)
                 /\ event_no_of trow = event_no_of row.

Definition refers_to_truth (sh : Shard) : Prop :=
  covered (truth_table sh) (pulsemap_table sh)
  /\ forall df, retro_table sh = Some df -> covered (truth_table sh) df.

Definition covered_inv (s : wstate) : Prop :=
  covered (truth_big s) (feature_big s)
  /\ covered (truth_big s) (retro_big s)
  /\ Forall (fun f : File => refers_to_truth (snd f)) (written s).

Lemma covered_empty truth : covered truth empty_frame.
Proof. intros row H. by apply elem_of_nil in H. Qed.

Lemma covered_append truth df d d' no :
  (1 <= nrows d)%nat ->
  covered truth df ->
  covered (append truth (numbered d no)) df
  /\ covered (append truth (numbered d no)) (append df (numbered d' no)).
Proof.
  intros Hd Hcov.
  assert (forall row, row ∈ rows df ->
            exists trow, trow ∈ rows (append truth (numbered d no))
                         /\ is_Some (event_no_of row)
                         /\ event_no_of trow = event_no_of row) as Hold.
  { intros row Hrow. destruct (Hcov row Hrow) as (trow & Hin & Hsome & Heq).
    exists trow. split; [|done]. simpl. apply elem_of_app. by left. }
  split; [done|].
  intros row Hrow. simpl in Hrow. apply elem_of_app in Hrow as [Hrow|Hrow].
  { by apply Hold. }
  pose proof (numbered_event_no d' no) as Hnew.
  rewrite Forall_forall in Hnew. specialize (Hnew row Hrow).
  pose proof (len_numbered d no) as Hlen. unfold len in Hlen.
  destruct (rows (numbered d no)) as [|trow trows] eqn:Hrows;
    [simpl in Hlen; lia|].
  pose proof (numbered_event_no d no) as Htrow.
  rewrite Hrows in Htrow. apply Forall_cons in Htrow as [Htrow _].
  exists trow. split.
  - change (rows (append ?a ?b)) with (rows a ++ rows b).
    rewrite Hrows. apply elem_of_app. right. left.
  - unfold event_no_of. by rewrite Hnew, Htrow.
Qed.

Lemma save_to_sql_refers st fb tb rb k :
  covered tb fb -> covered tb rb ->
  refers_to_truth (snd (save_to_sql st fb tb rb k)).
Proof.
  intros Hf Hr. unfold save_to_sql, refers_to_truth; simpl.
  split; [done|]. intros df. by destruct (0 <? len rb)%nat; [intros [= <-]|].
Qed.

Lemma covered_inv_step st s x s' :
  one_truth_row x -> covered_inv s -> frame_body st s (Ok x) = Ok s' ->
  covered_inv (flush_if_full st s').
Proof.
  intros Hx (Hf & Hr & Hw) Hbody.
  apply frame_body_Ok in Hbody
    as (x' & no & [= <-] & _ & Ht' & Hr' & (e & _ & Hf') & _ & _ & Hw').
  assert (1 <= nrows (truths x))%nat as Hrows by (unfold one_truth_row in Hx; lia).
  assert (covered (truth_big s') (feature_big s')) as Hfc.
  { rewrite Ht', Hf'.
    destruct (covered_append (truth_big s) (feature_big s) (truths x) (features x)
                no Hrows Hf) as [? ?].
    by destruct e. }
  assert (covered (truth_big s') (retro_big s')) as Hrc.
  { rewrite Ht', Hr'.
    destruct (covered_append (truth_big s) (retro_big s) (truths x) (retros x)
                no Hrows Hr) as [? ?].
    by destruct (0 <? _)%nat. }
  unfold flush_if_full. destruct (_ >=? _).
  - split; [apply covered_empty|]. split; [apply covered_empty|].
    simpl. rewrite Hw'. apply Forall_app. split; [done|].
    apply Forall_cons_2; [|apply Forall_nil_2].
    by apply save_to_sql_refers.
  - split; [done|]. split; [done|]. by rewrite Hw'.
Qed.

(** X14. When every frame gives one truth row, each pulse row and each
    RetroReco row of a shard has an [event_no], and it is the [event_no]
    of a truth row of the same shard. *)
Theorem shard_rows_refer_to_truth env st :
  env_one_truth_row env ->
  Forall (fun f : File => refers_to_truth (snd f))
         (files_of (parallel_extraction env st)).
Proof.
  intros Henv. unfold parallel_extraction.
  pose proof (files_loop_invariant env st covered_inv
                (Forall (fun f : File => refers_to_truth (snd f)))
                one_truth_row) as Hinv.
  specialize (Hinv (covered_inv_step st)).
  assert (forall s, covered_inv s ->
            Forall (fun f : File => refers_to_truth (snd f)) (written s)) as Hfiles
    by (by intros s (_ & _ & ?)).
  specialize (Hinv Hfiles (input_files st) init 0%nat Henv).
  assert (covered_inv init) as Hinit.
  { split; [apply covered_empty|]. split; [apply covered_empty|].
    apply Forall_nil_2. }
  specialize (Hinv Hinit).
  destruct (files_loop env st init 0 (input_files st)) as [s|e fs]; simpl in *;
    [|done].
  destruct Hinv as (Hf & Hr & Hw). unfold final_flush.
  destruct (0 <? len (truth_big s))%nat; [|done]. simpl.
  apply Forall_app. split; [done|].
  apply Forall_cons_2; [|apply Forall_nil_2].
  by apply save_to_sql_refers.
Qed.

(** X14 at a worker meeting three frames. *)
Lemma shard_rows_refer_to_truth_witness :
  Forall (fun f : File => refers_to_truth (snd f))
         (files_of (parallel_extraction three_frames Scenario.st0)).
Proof.
  apply (shard_rows_refer_to_truth three_frames Scenario.st0).
  intros file pops [= <-]. repeat constructor.
Defined.

End ShardContent.

(** ** The names of the shards of a run *)

Section RunNames.
Import Pandas Worker Merger Orchestrator.

(** The files a worker leaves are named by their position. *)
Lemma written_positional env st :
  forall i f, files_of (parallel_extraction env st) !! i = Some f ->
              fst f = shard_path st i.
Proof.
  unfold parallel_extraction.
  set (I := fun s : wstate =>
              output_count s = length (written s)
              /\ forall i f, written s !! i = Some f -> fst f = shard_path st i).
  pose proof (files_loop_invariant env st I
                (fun fs => forall i f, fs !! i = Some f -> fst f = shard_path st i)
                (fun _ => True)) as Hinv.
  assert (forall s : wstate, I s ->
            I {| event_counter := event_counter s;
                 feature_big := empty_frame; truth_big := empty_frame;
                 retro_big := empty_frame;
                 output_count := S (output_count s);
                 written := written s ++
                   [save_to_sql st (feature_big s) (truth_big s) (retro_big s)
                      (output_count s)] |}) as Hflush.
  { intros s [Hc Hn]. split; simpl.
    - rewrite length_app. simpl. lia.
    - intros i f Hi. apply lookup_app_Some in Hi as [Hi|[Hlen Hi]]; [by apply Hn|].
      apply list_lookup_singleton_Some in Hi as [Hi <-]. simpl.
      f_equal. unfold File in *. lia. }
  assert (forall s x s', True -> I s -> frame_body st s (Ok x) = Ok s' ->
                         I (flush_if_full st s')) as Hstep.
  { intros s x s' _ [Hc Hn] Hbody.
    apply frame_body_Ok in Hbody as (x' & no & _ & _ & _ & _ & _ & _ & Hc' & Hw').
    assert (I s') as Hs' by (unfold I; by rewrite Hc', Hw').
    unfold flush_if_full. destruct (_ >=? _); [by apply Hflush|done]. }
  specialize (Hinv Hstep (fun s Hs => proj2 Hs) (input_files st) init 0%nat
                (fun _ pops _ => pop_frame_True pops)).
  assert (I init) as Hinit by (split; [done|by intros []]).
  specialize (Hinv Hinit).
  destruct (files_loop env st init 0 (input_files st)) as [s|e fs]; simpl in *;
    [|done].
  unfold final_flush. destruct (0 <? _)%nat; [|by apply Hinv].
  by apply Hflush.
Qed.

Lemma shard_path_has_db st k : Discovery.contains ".db" (shard_path st k) = true.
Proof.
  apply contains_spec.
  exists (outdir st +:+ "/" +:+ db_name st +:+ "/tmp/worker-" +:+ id st +:+ "-"
          +:+ str k), "".
  unfold shard_path. by rewrite !string_app_assoc.
Qed.

Lemma filter_all {A} (P : A -> Prop) `{forall x, Decision (P x)} (l : list A) :
  Forall P l -> filter P l = l.
Proof.
  induction 1 as [|x l Hx Hl IH]; [done|].
  by rewrite filter_cons_True, IH.
Qed.

Lemma listdir_finds_every_shard w settings :
  get_temporary_database_paths
    (listdir w (concat (map files_of (map_async w settings))))
  = listdir w (concat (map files_of (map_async w settings)))
  /\ Permutation (listdir w (concat (map files_of (map_async w settings))))
                 (concat (map files_of (map_async w settings))).
Proof.
  assert (Permutation (listdir w (concat (map files_of (map_async w settings))))
                      (concat (map files_of (map_async w settings)))) as Hperm
    by apply sample_Permutation.
  split; [|done].
  unfold get_temporary_database_paths. apply filter_all.
  rewrite Hperm. apply Forall_forall. intros f Hf.
  apply list_elem_of_In, in_concat in Hf as (fs & Hfs & Hf).
  apply in_map_iff in Hfs as (r & <- & Hr).
  unfold map_async in Hr. apply in_map_iff in Hr as (st & <- & _).
  apply list_elem_of_In, list_elem_of_lookup in Hf as [i Hi].
  apply written_positional in Hi. rewrite Hi, shard_path_has_db. done.
Qed.

(** X15. The merge finds every file the workers wrote: the list
    [get_temporary_database_paths] returns is the list of those files, in
    the order of the directory listing. *)
Theorem merge_finds_every_shard w settings :
  get_temporary_database_paths
    (listdir w (concat (map files_of (map_async w settings))))
  = listdir w (concat (map files_of (map_async w settings)))
  /\ Permutation (listdir w (concat (map files_of (map_async w settings))))
                 (concat (map files_of (map_async w settings))).
Proof. apply listdir_finds_every_shard. Qed.

End RunNames.

(** ** A run: what no two workers share *)

Section RunUnique.
Import Pandas Worker Merger Orchestrator.

Lemma NoDup_concat_indexed {A} (ls : list (list A)) :
  (forall i l, ls !! i = Some l -> NoDup l) ->
  (forall i j l1 l2 x,
     ls !! i = Some l1 -> ls !! j = Some l2 -> x ∈ l1 -> x ∈ l2 -> i = j) ->
  NoDup (concat ls).
Proof.
  induction ls as [|l ls IH]; intros Hnd Hdisj; simpl; [constructor|].
  apply NoDup_app. split; [by apply (Hnd 0%nat)|]. split.
  - intros x Hx Hx'. apply list_elem_of_In, in_concat in Hx' as (l' & Hl' & Hx').
    apply list_elem_of_In, list_elem_of_lookup in Hl' as [j Hj].
    apply list_elem_of_In in Hx'.
    by specialize (Hdisj 0%nat (S j) l l' x eq_refl Hj Hx Hx').
  - apply IH.
    + intros i l'. apply (Hnd (S i)).
    + intros i j l1 l2 x Hi Hj H1 H2.
      specialize (Hdisj (S i) (S j) l1 l2 x Hi Hj H1 H2). lia.
Qed.

(** [str] writes digits only. *)
Fixpoint no_dash (s : string) : Prop :=
  match s with
  | EmptyString => True
  | String c s' => c <> "-"%char /\ no_dash s'
  end.

Lemma str_no_dash n : no_dash (str n).
Proof.
  unfold str, NilZero.string_of_uint.
  assert (forall d, no_dash (NilEmpty.string_of_uint d)) as H
    by (induction d; simpl; done).
  destruct (Nat.to_uint n); try apply H. simpl. done.
Qed.

Lemma dash_split (a : string) : forall b x y,
  no_dash a -> no_dash b ->
  a +:+ "-" +:+ x = b +:+ "-" +:+ y -> a = b /\ x = y.
Proof.
  induction a as [|c a IH]; intros [|d b] x y Ha Hb;
    rewrite ?string_app_nil, ?string_app_cons, ?string_app_nil.
  - by intros [= ->].
  - intros [= <- _]. by destruct Hb.
  - intros [= -> _]. by destruct Ha.
  - intros [= -> H]. destruct Ha as [_ Ha], Hb as [_ Hb].
    by destruct (IH b x y Ha Hb H) as [-> ->].
Qed.

Lemma string_app_inv_head (p s1 s2 : string) : p +:+ s1 = p +:+ s2 -> s1 = s2.
Proof.
  induction p as [|c p IH]; rewrite ?string_app_nil, ?string_app_cons; [done|].
  intros [= H]. by apply IH.
Qed.

(** Within a run the name of a shard determines the worker and the
    position. *)
Lemma shard_path_inj_worker st1 st2 i j k l :
  outdir st1 = outdir st2 -> db_name st1 = db_name st2 ->
  id st1 = str i -> id st2 = str j ->
  shard_path st1 k = shard_path st2 l -> i = j /\ k = l.
Proof.
  unfold shard_path. intros -> -> -> -> H.
  do 4 apply string_app_inv_head in H.
  apply dash_split in H as [Hi Hk]; [|apply str_no_dash..].
  apply string_app_inv_tail in Hk.
  split; by apply str_inj.
Qed.

Lemma make_settings_fields c file_list : forall k gcd_file_list event_nos i st,
  make_settings c k file_list gcd_file_list event_nos !! i = Some st ->
  outdir st = c_outdir c /\ db_name st = c_db_name c
  /\ file_list !! i = Some (input_files st)
  /\ gcd_file_list !! i = Some (gcd_files st).
Proof.
  induction file_list as [|files file_list IH];
    intros k [|gcds gcd_file_list] [|nos event_nos] i st; simpl; try done.
  destruct i as [|i]; simpl.
  - by intros [= <-].
  - apply IH.
Qed.

(** What [plan] computed when it returns. *)
Lemma plan_Ok c input_files gcd_files settings :
  plan c input_files gcd_files = Ok settings ->
  exists W ranges,
    W = Nat.min (length input_files) (c_workers c)
    /\ (1 <= W)%nat
    /\ event_nos W = Ok ranges
    /\ settings =
         make_settings c 0
           (chunks input_files (section_sizes (Z.of_nat (length input_files)) W))
           (chunks gcd_files (section_sizes (Z.of_nat (length gcd_files)) W))
           ranges.
Proof.
  unfold plan.
  set (W0 := if (length input_files <? c_workers c)%nat
             then length input_files else c_workers c).
  assert (W0 = Nat.min (length input_files) (c_workers c)) as HW.
  { unfold W0. destruct (Nat.ltb_spec (length input_files) (c_workers c)); lia. }
  rewrite HW. clear W0 HW.
  destruct (Nat.min (length input_files) (c_workers c)) as [|W'] eqn:HW; [done|].
  unfold array_split_arange, array_split_list, res_bind.
  intros [= <-]. eexists (S W'), _.
  split; [done|]. split; [lia|]. split; reflexivity.
Qed.

Lemma plan_lookup c input_files gcd_files settings i st :
  plan c input_files gcd_files = Ok settings ->
  settings !! i = Some st ->
  id st = str i /\ outdir st = c_outdir c /\ db_name st = c_db_name c.
Proof.
  intros Hplan Hst. apply plan_Ok in Hplan as (W & ranges & _ & _ & _ & ->).
  pose proof (make_settings_lookup _ _ _ _ _ _ _ Hst) as [_ Hid].
  pose proof (make_settings_fields _ _ _ _ _ _ _ Hst) as (Ho & Hd & _).
  by rewrite Hid.
Qed.

(** The [i]-th entry of a list computed from what each worker left. *)
Lemma pool_lookup {A} (g : list File -> A) w settings i a :
  map g (map files_of (map_async w settings)) !! i = Some a ->
  exists st, settings !! i = Some st
             /\ a = g (files_of (parallel_extraction (wenv w) st)).
Proof.
  intros H. apply list_lookup_fmap_Some in H as (fs & -> & H).
  apply list_lookup_fmap_Some in H as (r & -> & H).
  apply list_lookup_fmap_Some in H as (st & -> & H). eauto.
Qed.

(** X16. No two shards of a run have the same name, whether written by
    one worker or by two. *)
Theorem run_shard_names_unique c w input_files gcd_files settings :
  plan c input_files gcd_files = Ok settings ->
  NoDup (map fst (concat (map files_of (map_async w settings)))).
Proof.
  intros Hplan. rewrite concat_map. apply NoDup_concat_indexed.
  - intros i l Hl. apply pool_lookup in Hl as (st & _ & ->).
    apply (positional_names_NoDup st), written_positional.
  - intros i j l1 l2 x Hi Hj H1 H2.
    apply pool_lookup in Hi as (st1 & Hst1 & ->).
    apply pool_lookup in Hj as (st2 & Hst2 & ->).
    apply list_elem_of_fmap in H1 as (f1 & -> & H1).
    apply list_elem_of_fmap in H2 as (f2 & Hx & H2).
    apply list_elem_of_lookup in H1 as [k Hk], H2 as [l Hl].
    apply written_positional in Hk, Hl.
    destruct (plan_lookup _ _ _ _ _ _ Hplan Hst1) as (Hid1 & Ho1 & Hd1).
    destruct (plan_lookup _ _ _ _ _ _ Hplan Hst2) as (Hid2 & Ho2 & Hd2).
    rewrite Hk, Hl in Hx.
    apply (shard_path_inj_worker st1 st2 i j k l); congruence.
Qed.

(** X16 at three files shared between two workers. *)
Lemma run_shard_names_unique_witness :
  exists settings,
    plan Scenario.converter ["data/b.i3.zst"; "data/c.i3.zst"; "data/a.i3.zst"]
         ["g.i3.gz"; "g.i3.gz"; "g.i3.gz"] = Ok settings
    /\ NoDup (map fst (concat (map files_of
                (map_async Scenario.world_five_frames settings)))).
Proof.
  eexists. split; [vm_compute; reflexivity|].
  eapply (run_shard_names_unique Scenario.converter Scenario.world_five_frames
            ["data/b.i3.zst"; "data/c.i3.zst"; "data/a.i3.zst"]
            ["g.i3.gz"; "g.i3.gz"; "g.i3.gz"]).
  vm_compute. reflexivity.
Defined.

(** The truth rows of a run, worker after worker. *)
Definition run_truth_rows (pool : list wres) : list (gmap string Z) :=
  concat (map truth_rows_of (map files_of pool)).

Lemma ids_from_NoDup r a n : NoDup (ids_from r a n).
Proof.
  unfold ids_from. apply NoDup_fmap_2_strong; [|apply NoDup_seq].
  intros x y _ _ [= H]. lia.
Qed.

Lemma truth_rows_in_range env st row :
  row ∈ truth_rows_of (files_of (parallel_extraction env st)) ->
  exists z, event_no_of row = Some z /\ in_range z (event_no_list st).
Proof.
  intros Hrow. unfold truth_rows_of in Hrow.
  apply list_elem_of_In, in_concat in Hrow as (l & Hl & Hrow).
  apply in_map_iff in Hl as (f & <- & Hf).
  pose proof (parallel_extraction_ids env st) as Hids.
  rewrite Forall_forall in Hids.
  destruct (Hids f (proj2 (list_elem_of_In _ _) Hf)) as (Ht & _).
  unfold frame_ids_in in Ht. rewrite Forall_forall in Ht.
  apply Ht. by apply list_elem_of_In.
Qed.

Lemma run_ids_unique c w input_files gcd_files settings :
  plan c input_files gcd_files = Ok settings ->
  env_one_truth_row (wenv w) ->
  NoDup (map event_no_of (run_truth_rows (map_async w settings)))
  /\ Forall (fun row => is_Some (event_no_of row))
            (run_truth_rows (map_async w settings)).
Proof.
  intros Hplan Henv. split.
  - unfold run_truth_rows. rewrite concat_map, map_map.
    apply NoDup_concat_indexed.
    + intros i l Hl. apply pool_lookup in Hl as (st & _ & ->).
      destruct (worker_ids_seq (wenv w) st Henv) as (n & -> & _).
      apply ids_from_NoDup.
    + intros i j l1 l2 x Hi Hj H1 H2.
      apply pool_lookup in Hi as (st1 & Hst1 & ->).
      apply pool_lookup in Hj as (st2 & Hst2 & ->).
      apply list_elem_of_fmap in H1 as (r1 & -> & H1).
      apply list_elem_of_fmap in H2 as (r2 & Hx & H2).
      apply truth_rows_in_range in H1 as (z1 & Hz1 & Hr1).
      apply truth_rows_in_range in H2 as (z2 & Hz2 & Hr2).
      rewrite Hz1, Hz2 in Hx. injection Hx as <-.
      apply plan_Ok in Hplan as (W & ranges & _ & HW & Hranges & ->).
      destruct (event_nos_partition W HW)
        as (ranges' & Hranges' & _ & _ & _ & _ & _ & Hord & _).
      rewrite Hranges in Hranges'. injection Hranges' as <-.
      apply make_settings_lookup in Hst1 as [Hst1 _], Hst2 as [Hst2 _].
      by apply (ranges_disjoint ranges Hord i j _ _ z1 Hst1 Hst2).
  - apply Forall_forall. intros row Hrow. unfold run_truth_rows in Hrow.
    apply list_elem_of_In, in_concat in Hrow as (l & Hl & Hrow).
    apply in_map_iff in Hl as (fs & <- & Hr).
    apply in_map_iff in Hr as (r & <- & Hr).
    unfold map_async in Hr. apply in_map_iff in Hr as (st & <- & _).
    apply list_elem_of_In, truth_rows_in_range in Hrow as (z & -> & _).
    by eexists.
Qed.

(** X17. When every frame gives one truth row, every truth row of a run
    has an [event_no], and no two truth rows of the run, of one worker or
    of two, have the same. *)
Theorem run_event_nos_unique c w input_files gcd_files settings :
  plan c input_files gcd_files = Ok settings ->
  env_one_truth_row (wenv w) ->
  NoDup (map event_no_of (run_truth_rows (map_async w settings)))
  /\ Forall (fun row => is_Some (event_no_of row))
            (run_truth_rows (map_async w settings)).
Proof. apply run_ids_unique. Qed.

(** X17 at five frames in three files shared between two workers. *)
Lemma run_event_nos_unique_witness :
  exists settings,
    plan Scenario.converter ["data/b.i3.zst"; "data/c.i3.zst"; "data/a.i3.zst"]
         ["g.i3.gz"; "g.i3.gz"; "g.i3.gz"] = Ok settings
    /\ NoDup (map event_no_of
                (run_truth_rows (map_async Scenario.world_five_frames settings)))
    /\ Forall (fun row => is_Some (event_no_of row))
              (run_truth_rows (map_async Scenario.world_five_frames settings)).
Proof.
  eexists. split; [vm_compute; reflexivity|].
  eapply (run_event_nos_unique Scenario.converter Scenario.world_five_frames
            ["data/b.i3.zst"; "data/c.i3.zst"; "data/a.i3.zst"]
            ["g.i3.gz"; "g.i3.gz"; "g.i3.gz"]).
  - vm_compute. reflexivity.
  - intros file pops. simpl.
    destruct (String.eqb file "data/a.i3.zst"); [intros [= <-]; repeat constructor|].
    destruct (String.eqb file "data/b.i3.zst"); intros [= <-]; repeat constructor.
Defined.

End RunUnique.

(** ** The orchestrator: how the files are shared out *)

Section Sharing.
Import Pandas Worker Merger Orchestrator.

Lemma chunks_length {A} (l : list A) sizes : length (chunks l sizes) = length sizes.
Proof. revert l. induction sizes as [|n ns IH]; intros l; simpl; auto. Qed.

Lemma sumZ_nonneg l : Forall (fun n => 0 <= n) l -> 0 <= sumZ l.
Proof. induction 1; simpl; lia. Qed.

Lemma chunks_concat {A} sizes : forall l : list A,
  Forall (fun n => 0 <= n) sizes ->
  Z.of_nat (length l) <= sumZ sizes ->
  concat (chunks l sizes) = l.
Proof.
  induction sizes as [|n ns IH]; intros l Hnn Hsum; simpl in *.
  - destruct l; [done|simpl in Hsum; lia].
  - inversion Hnn as [|? ? Hn Hns]; subst.
    rewrite IH; [apply take_drop|done|].
    pose proof (sumZ_nonneg ns Hns). rewrite length_drop. lia.
Qed.

(** The [i]-th chunk: where it starts, and how long it is. *)
Lemma chunks_lookup {A} sizes : forall (l : list A) i ch,
  Forall (fun n => 0 <= n) sizes ->
  chunks l sizes !! i = Some ch ->
  exists n, sizes !! i = Some n
            /\ ch = take (Z.to_nat n) (drop (Z.to_nat (sumZ (take i sizes))) l).
Proof.
  induction sizes as [|n ns IH]; intros l i ch Hnn Hi; [done|].
  inversion Hnn as [|? ? Hn Hns]; subst.
  destruct i as [|i]; simpl in Hi.
  - injection Hi as <-. exists n. by split.
  - apply IH in Hi as (m & Hm & ->); [|done]. exists m. split; [done|].
    simpl. rewrite drop_drop. do 2 f_equal.
    assert (0 <= sumZ (take i ns)) as Hpos
      by (apply sumZ_nonneg, Forall_take, Hns).
    lia.
Qed.

Lemma sumZ_take_le sizes i :
  Forall (fun n => 0 <= n) sizes ->
  forall n, sizes !! i = Some n -> sumZ (take i sizes) + n <= sumZ sizes.
Proof.
  intros Hnn. revert i. induction Hnn as [|m ms Hm Hms IH]; intros i n Hi; [done|].
  destruct i as [|i]; simpl in *.
  - injection Hi as ->. pose proof (sumZ_nonneg ms Hms). lia.
  - specialize (IH i n Hi). lia.
Qed.

Lemma section_sizes_elem Ntotal Nsections n :
  n ∈ section_sizes Ntotal Nsections ->
  n = Ntotal / Z.of_nat Nsections \/ n = Ntotal / Z.of_nat Nsections + 1.
Proof.
  unfold section_sizes. rewrite elem_of_app.
  intros [H|H]; apply list_elem_of_In, repeat_spec in H; auto.
Qed.

Lemma make_settings_lists c file_list : forall k gcd_file_list event_nos,
  length gcd_file_list = length file_list ->
  length event_nos = length file_list ->
  length (make_settings c k file_list gcd_file_list event_nos) = length file_list
  /\ map input_files (make_settings c k file_list gcd_file_list event_nos) = file_list
  /\ map gcd_files (make_settings c k file_list gcd_file_list event_nos) = gcd_file_list.
Proof.
  induction file_list as [|files file_list IH];
    intros k [|gcds gcd_file_list] [|nos event_nos] Hg He; simpl in *; try done.
  destruct (IH (S k) gcd_file_list event_nos) as (-> & -> & ->); [lia..|done].
Qed.

Lemma plan_spec c input gcds settings :
  length input = length gcds ->
  plan c input gcds = Ok settings ->
  length settings = Nat.min (length input) (c_workers c)
  /\ concat (map input_files settings) = input
  /\ concat (map gcd_files settings) = gcds
  /\ forall i st, settings !! i = Some st ->
       id st = str i
       /\ (1 <= length (input_files st))%nat
       /\ (length input / length settings <= length (input_files st)
           <= length input / length settings + 1)%nat
       /\ exists offset,
            input_files st = take (length (input_files st)) (drop offset input)
            /\ gcd_files st = take (length (input_files st)) (drop offset gcds).
Proof.
  intros Hlen Hplan.
  apply plan_Ok in Hplan as (W & ranges & HW & HW1 & Hranges & ->).
  destruct (event_nos_partition W HW1) as (ranges' & Hranges' & Hrl & _).
  rewrite Hranges in Hranges'. injection Hranges' as <-.
  rewrite <- Hlen.
  set (sizes := section_sizes (Z.of_nat (length input)) W).
  assert (Forall (fun n => 0 <= n) sizes) as Hnn
    by (apply section_sizes_nonneg; lia).
  assert (sumZ sizes = Z.of_nat (length input)) as Hsum
    by (apply section_sizes_sum; lia).
  assert (length sizes = W) as Hsl by (apply section_sizes_length; lia).
  destruct (make_settings_lists c (chunks input sizes) 0 (chunks gcds sizes) ranges)
    as (Hl & Hin & Hg); [by rewrite !chunks_length|by rewrite chunks_length; lia|].
  rewrite chunks_length in Hl.
  split; [lia|].
  split; [rewrite Hin; apply chunks_concat; [done|lia]|].
  split; [rewrite Hg; apply chunks_concat; [done|lia]|].
  intros i st Hst.
  pose proof (make_settings_lookup _ _ _ _ _ _ _ Hst) as [_ Hid].
  pose proof (make_settings_fields _ _ _ _ _ _ _ Hst) as (_ & _ & Hfi & Hgi).
  apply chunks_lookup in Hfi as (n & Hn & Hfi); [|done].
  apply chunks_lookup in Hgi as (n' & Hn' & Hgi); [|done].
  rewrite Hn in Hn'. injection Hn' as <-.
  pose proof (sumZ_take_le sizes i Hnn n Hn) as Hfit.
  assert (0 <= sumZ (take i sizes)) as Hpos
    by (apply sumZ_nonneg, Forall_take, Hnn).
  assert (0 <= n) as Hn0.
  { rewrite Forall_forall in Hnn. apply Hnn. by eapply list_elem_of_lookup_2. }
  assert (length (input_files st) = Z.to_nat n) as Hlenst.
  { rewrite Hfi, length_take, length_drop. lia. }
  assert (n = Z.of_nat (length input) / Z.of_nat W
          \/ n = Z.of_nat (length input) / Z.of_nat W + 1) as Hsize
    by (eapply section_sizes_elem, list_elem_of_lookup_2, Hn).
  assert (Z.of_nat (length input / W) = Z.of_nat (length input) / Z.of_nat W) as Hdiv
    by (apply Nat2Z.inj_div).
  assert (1 <= Z.of_nat (length input) / Z.of_nat W) as Hge.
  { apply Z.div_le_lower_bound; lia. }
  split; [done|]. rewrite Hl, Hsl, Hlenst.
  split; [lia|]. split; [lia|].
  exists (Z.to_nat (sumZ (take i sizes))). by split.
Qed.

(** X18. [_processfiles] gives every input file to exactly one worker,
    together with the gcd file paired with it: the shares are consecutive
    pieces of the two lists, cut at the same places, none of them empty
    and no two differing in length by more than one. *)
Theorem plan_shares_files_with_their_gcd c input gcds settings :
  length input = length gcds ->
  plan c input gcds = Ok settings ->
  length settings = Nat.min (length input) (c_workers c)
  /\ concat (map input_files settings) = input
  /\ concat (map gcd_files settings) = gcds
  /\ forall i st, settings !! i = Some st ->
       id st = str i
       /\ (1 <= length (input_files st))%nat
       /\ (length input / length settings <= length (input_files st)
           <= length input / length settings + 1)%nat
       /\ exists offset,
            input_files st = take (length (input_files st)) (drop offset input)
            /\ gcd_files st = take (length (input_files st)) (drop offset gcds).
Proof. apply plan_spec. Qed.

(** X18 at three files shared between two workers. *)
Lemma plan_shares_files_with_their_gcd_witness :
  exists settings,
    plan Scenario.converter ["b.i3.zst"; "c.i3.zst"; "a.i3.zst"]
         ["g2.i3.gz"; "g3.i3.gz"; "g1.i3.gz"] = Ok settings
    /\ map input_files settings = [["b.i3.zst"; "c.i3.zst"]; ["a.i3.zst"]]
    /\ map gcd_files settings = [["g2.i3.gz"; "g3.i3.gz"]; ["g1.i3.gz"]]
    /\ length settings = Nat.min 3 2
    /\ concat (map input_files settings) = ["b.i3.zst"; "c.i3.zst"; "a.i3.zst"].
Proof.
  eexists. split; [vm_compute; reflexivity|].
  split; [reflexivity|]. split; [reflexivity|].
  refine (let H := plan_shares_files_with_their_gcd Scenario.converter
                     ["b.i3.zst"; "c.i3.zst"; "a.i3.zst"]
                     ["g2.i3.gz"; "g3.i3.gz"; "g1.i3.gz"] _ eq_refl _ in
          conj (proj1 H) (proj1 (proj2 H))).
  vm_compute. reflexivity.
Defined.

Lemma plan_returns c input gcds :
  (1 <= length input)%nat -> (1 <= c_workers c)%nat ->
  exists settings, plan c input gcds = Ok settings.
Proof.
  intros Hi Hw. unfold plan.
  destruct (if (length input <? c_workers c)%nat then length input else c_workers c)
    as [|W'] eqn:HW.
  - destruct (length input <? c_workers c)%nat; lia.
  - unfold array_split_arange, array_split_list, res_bind. eauto.
Qed.

(** X19. With a worker count of zero, and input files found,
    [_processfiles] raises ValueError: the manifest has been written, but
    no worker has run and nothing is merged. *)
Theorem zero_workers_raise_after_manifest c w input gcds manifest :
  Discovery.find_files (tree w) (rng w) (c_paths c) (c_gcd_rescue c) None
    = Ok (input, gcds, manifest) ->
  input <> [] ->
  c_workers c = 0%nat ->
  _processfiles c w =
    {| csv := Some input; pool := []; merged := None;
       log := [counting (c_paths c)]; raised := Some ValueError |}.
Proof.
  intros Hfind Hin Hw. unfold _processfiles. rewrite Hfind.
  apply find_files_csv in Hfind as [_ ->].
  destruct input as [|f input]; [done|]. simpl length.
  unfold plan. rewrite Hw. simpl. done.
Qed.

Definition converter_without_workers : Converter :=
  {| c_paths := ["data"]; c_mode := "oscNext"; c_pulsemap := "SRTInIcePulses";
     c_gcd_rescue := "rescue.i3.gz"; c_outdir := "out"; c_db_name := "db";
     c_workers := 0; c_max_dict_size := 2 |}.

(** X19 at a directory holding three i3 files. *)
Lemma zero_workers_raise_after_manifest_witness :
  _processfiles converter_without_workers Scenario.world_five_frames =
    {| csv := Some ["data/b.i3.zst"; "data/c.i3.zst"; "data/a.i3.zst"];
       pool := []; merged := None;
       log := [counting ["data"]]; raised := Some ValueError |}.
Proof.
  eapply (zero_workers_raise_after_manifest converter_without_workers
            Scenario.world_five_frames).
  - vm_compute. reflexivity.
  - done.
  - reflexivity.
Defined.

(** An environment none of whose files gives a frame. *)
Definition no_frames (env : Env) : Prop :=
  forall file pops, I3File env file = Ok pops ->
                    Forall (fun p => is_frame p = false) pops.

Lemma frames_loop_no_frames st pops : forall s,
  Forall (fun p => is_frame p = false) pops ->
  frames_loop st s pops = Running s.
Proof.
  induction pops as [|p pops IH]; intros s Hp; [done|].
  inversion Hp as [|? ? Hp1 Hp2]; subst. simpl.
  destruct p as [[f|]|e]; [done|by apply IH..].
Qed.

Lemma files_loop_no_frames env st files : forall s u,
  no_frames env ->
  files_loop env st s u files = Running s
  \/ exists e, files_loop env st s u files = Crashed e (written s).
Proof.
  induction files as [|file files IH]; intros s u Henv; simpl; [by left|].
  destruct (gcd_files st !! u); [|by eauto].
  destruct (load_geospatial_data env _); [|by eauto].
  destruct (I3File env file) as [pops|] eqn:Hfile; [|by eauto].
  rewrite (frames_loop_no_frames st pops s (Henv _ _ Hfile)). by apply IH.
Qed.

Lemma parallel_extraction_no_frames env st :
  no_frames env -> files_of (parallel_extraction env st) = [].
Proof.
  intros Henv. unfold parallel_extraction.
  by destruct (files_loop_no_frames env st (input_files st) init 0%nat Henv)
    as [->|[e ->]].
Qed.

(** X20. When none of the input files gives a frame, be it that the files
    hold none or that they cannot be read, [_processfiles] ends without an
    exception and without a database: the workers write no shard, and the
    merge only reports that it found none. *)
Theorem run_without_frames_leaves_no_database c w input gcds manifest :
  Discovery.find_files (tree w) (rng w) (c_paths c) (c_gcd_rescue c) None
    = Ok (input, gcds, manifest) ->
  input <> [] ->
  (1 <= c_workers c)%nat ->
  no_frames (wenv w) ->
  raised (_processfiles c w) = None
  /\ Forall (fun r => files_of r = []) (pool (_processfiles c w))
  /\ merged (_processfiles c w)
     = Some {| final := None; tmp_left := [];
               merge_log := ["No temporary database files found!"];
               merge_raised := None |}.
Proof.
  intros Hfind Hin Hw Henv. unfold _processfiles. rewrite Hfind.
  destruct input as [|f input]; [done|]. simpl length.
  destruct (plan_returns c (f :: input) gcds) as [settings ->]; [simpl; lia|done|].
  change (0 <? S (length input))%nat with true. cbv iota.
  assert (Forall (fun r => files_of r = []) (map_async w settings)) as Hpool.
  { apply Forall_forall. intros r Hr.
    apply list_elem_of_fmap in Hr as (st & -> & _).
    by apply parallel_extraction_no_frames. }
  assert (concat (map files_of (map_async w settings)) = []) as Hnone.
  { clear -Hpool. induction Hpool as [|r rs Hr Hrs IH]; [done|].
    simpl. by rewrite Hr, IH. }
  cbn [raised pool merged]. rewrite Hnone.
  split; [done|]. split; [done|]. done.
Qed.

(** Two files, one that cannot be opened and one whose [pop_physics]
    gives nothing or raises. *)
Definition world_without_frames : World :=
  {| tree := Scenario.tree_two_files; rng := fun _ _ => 0%nat;
     wenv := {| load_geospatial_data := fun _ => Ok tt;
                I3File := fun file =>
                  if String.eqb file "data/a.i3.zst" then Raise OpenError
                  else Ok [Ok None; Raise ExtractorError] |};
     listdir_draws := fun _ => 0%nat |}.

(** X20 at these two files and two workers. *)
Lemma run_without_frames_leaves_no_database_witness :
  raised (_processfiles Scenario.converter world_without_frames) = None
  /\ Forall (fun r => files_of r = [])
            (pool (_processfiles Scenario.converter world_without_frames))
  /\ merged (_processfiles Scenario.converter world_without_frames)
     = Some {| final := None; tmp_left := [];
               merge_log := ["No temporary database files found!"];
               merge_raised := None |}.
Proof.
  eapply (run_without_frames_leaves_no_database Scenario.converter
            world_without_frames).
  - vm_compute. reflexivity.
  - done.
  - simpl. lia.
  - intros file pops. simpl.
    destruct (String.eqb file "data/a.i3.zst"); [done|].
    intros [= <-]. repeat constructor.
Defined.

End Sharing.

(** ** The merge: the empty tables *)

Section Creation.
Import Pandas Worker Merger.

Lemma table_columns_declared is_pulse_map cols t :
  schema t = declared_schema is_pulse_map cols -> table_columns t = cols.
Proof.
  unfold table_columns, declared_schema. intros ->.
  rewrite map_map. simpl. apply map_id.
Qed.

(** When [_create_table] succeeds, and what it then leaves. *)
Lemma _create_table_iff table_name cols is_pulse_map db db' :
  _create_table table_name cols is_pulse_map db = (db', None) <->
  cols <> []
  /\ tables db !! table_name = None
  /\ (is_pulse_map = true ->
      "event_no" ∈ cols /\ indexes db !! ("event_no_" +:+ table_name) = None)
  /\ db' = {| tables := <[table_name := {| schema := declared_schema is_pulse_map cols;
                                           trows := [] |}]> (tables db);
              indexes := if is_pulse_map
                         then <["event_no_" +:+ table_name := (table_name, "event_no")]>
                                (indexes db)
                         else indexes db |}.
Proof.
  split.
  - destruct cols as [|c cols].
    { unfold _create_table. by rewrite create_table_code_empty. }
    unfold _create_table.
    rewrite create_table_code_render by done.
    unfold exec, create_table.
    destruct (tables db !! table_name) eqn:Hnone; [done|].
    unfold and_then. cbn [fst snd].
    destruct is_pulse_map.
    + unfold _attach_index, exec, create_index. cbn [indexes tables].
      destruct (indexes db !! _) eqn:Hidx; [done|].
      rewrite lookup_insert_eq.
      case_bool_decide as Hin; [|done].
      intros [= <-]. split; [done|]. split; [done|]. split; [|done].
      intros _. split; [|done].
      by rewrite (table_columns_declared true (c :: cols)) in Hin.
    + intros [= <-]. done.
  - intros (Hcols & Hnone & Hpm & ->). destruct is_pulse_map.
    + destruct (Hpm eq_refl) as [Hin Hidx]. by apply _create_table_pulsemap.
    + by apply _create_table_plain.
Qed.

(** The database [_create_empty_tables] leaves when every statement went
    through. *)
Definition created_db (pulse_map : string)
    (truth_columns pulse_map_columns retro_columns : list string) : Database :=
  let with_truth :=
    <["truth" := {| schema := declared_schema false truth_columns; trows := [] |}]>
      (∅ : gmap string Table) in
  let with_retro :=
    if (1 <? length retro_columns)%nat
    then <["RetroReco" := {| schema := declared_schema false retro_columns;
                             trows := [] |}]> with_truth
    else with_truth in
  {| tables := <[pulse_map := {| schema := declared_schema true pulse_map_columns;
                                 trows := [] |}]> with_retro;
     indexes := <["event_no_" +:+ pulse_map := (pulse_map, "event_no")]> ∅ |}.

Lemma create_empty_tables_iff pulse_map tc pc rc db' :
  _create_empty_tables pulse_map tc pc rc empty_db = (db', None) <->
  tc <> []
  /\ "event_no" ∈ pc
  /\ pulse_map <> "truth"
  /\ ((1 < length rc)%nat -> pulse_map <> "RetroReco")
  /\ db' = created_db pulse_map tc pc rc.
Proof.
  unfold _create_empty_tables, created_db. split.
  - intros H.
    apply and_then_Ok in H as (db1 & H1 & H).
    apply and_then_Ok in H as (db2 & H2 & H3).
    apply _create_table_iff in H1 as (Htc & _ & _ & ->).
    apply _create_table_iff in H3 as (_ & Hpm & Hidx & ->).
    destruct (Hidx eq_refl) as [Hin _].
    split; [done|]. split; [done|].
    destruct (1 <? length rc)%nat eqn:Hrc.
    + apply _create_table_iff in H2 as (_ & _ & _ & ->). cbn [tables indexes] in *.
      split. { intros ->. rewrite lookup_insert_ne, lookup_insert_eq in Hpm; done. }
      split; [|done].
      intros _ ->. by rewrite lookup_insert_eq in Hpm.
    + injection H2 as <-. cbn [tables indexes] in *.
      split. { intros ->. by rewrite lookup_insert_eq in Hpm. }
      split; [|done].
      intros Hlen. apply Nat.ltb_ge in Hrc. lia.
  - intros (Htc & Hin & Hpt & Hpr & ->).
    rewrite (_create_table_plain "truth" tc empty_db Htc) by done.
    unfold and_then at 1. cbn [fst snd].
    destruct (1 <? length rc)%nat eqn:Hrc.
    + apply Nat.ltb_lt in Hrc.
      assert (rc <> []) as Hrcne by (intros ->; simpl in Hrc; lia).
      rewrite (_create_table_plain "RetroReco" rc _ Hrcne)
        by (cbn [tables]; by rewrite lookup_insert_ne).
      unfold and_then. cbn [fst snd].
      rewrite (_create_table_pulsemap pulse_map pc _ Hin); [done| |done].
      cbn [tables].
      rewrite lookup_insert_ne by (intros Heq; subst pulse_map; by apply Hpr).
      rewrite lookup_insert_ne by (intros Heq; by subst pulse_map).
      apply lookup_empty.
    + unfold and_then. cbn [fst snd].
      rewrite (_create_table_pulsemap pulse_map pc _ Hin); [done| |done].
      cbn [tables].
      rewrite lookup_insert_ne by (intros Heq; by subst pulse_map).
      apply lookup_empty.
Qed.


End Creation.

(** ** The merge: the rows of the final tables *)

Section MergeRows.
Import Pandas Worker Merger.

(** The rows [to_sql] takes from a frame. *)
Definition projected (df : DataFrame) : list (gmap string Z) :=
  map (project (columns df)) (rows df).

(** The frames [_merge_temporary_databases] writes to the table [n] for
    one shard, in the order in which it writes them. *)
Definition frames_for (n pulse_map : string) (f : File) : list DataFrame :=
  (if decide (n = "truth") then [truth_table (snd f)] else [])
  ++ (if decide (n = pulse_map) then [pulsemap_table (snd f)] else [])
  ++ (if decide (n = "RetroReco") then
        match retro_table (snd f) with
        | Some df => if (0 <? len df)%nat then [df] else []
        | None => []
        end
      else []).

Definition rows_for (n pulse_map : string) (files : list File)
    : list (gmap string Z) :=
  concat (map projected (concat (map (frames_for n pulse_map) files))).

Lemma insert_rows_appends rows : forall t t',
  insert_rows t rows = Ok t' ->
  exists new, t' = {| schema := schema t; trows := trows t ++ new |}
              /\ Forall2 (⊆) rows new.
Proof.
  induction rows as [|row rows IH]; intros t t'; simpl.
  - intros [= <-]. exists []. rewrite app_nil_r. by destruct t.
  - unfold res_bind. destruct (insert_row t row) as [t1|] eqn:Hrow; [|done].
    apply insert_row_Ok in Hrow as (row' & Hcheck & ->).
    intros H. apply IH in H as (new & -> & Hnew). simpl.
    exists (row' :: new). rewrite <- app_assoc. split; [done|].
    constructor; [|done].
    apply map_subseteq_spec. intros k v. by eapply check_columns_extends.
Qed.

(** One [to_sql], seen from a table [n] that exists. *)
Lemma to_sql_at n m df db db' t :
  tables db !! n = Some t ->
  to_sql m df db = Ok db' ->
  exists new,
    tables db' !! n = Some {| schema := schema t; trows := trows t ++ new |}
    /\ Forall2 (⊆) (if decide (n = m) then projected df else []) new
    /\ (n = m -> rows df <> [] ->
        Forall (fun c => c ∈ table_columns t) (columns df)).
Proof.
  intros Ht Hsql. destruct (decide (n = m)) as [->|Hne].
  - unfold to_sql in Hsql. rewrite Ht in Hsql.
    destruct (rows df) as [|r rs] eqn:Hrows.
    + injection Hsql as <-. exists []. rewrite app_nil_r.
      split; [by destruct t|]. split; [|done].
      unfold projected. rewrite Hrows. constructor.
    + destruct (forallb _ _) eqn:Hcols; [|done].
      unfold res_bind in Hsql.
      destruct (insert_rows t _) as [t'|] eqn:Hins; [|done].
      injection Hsql as <-.
      apply insert_rows_appends in Hins as (new & -> & Hnew).
      exists new. cbn [tables]. rewrite lookup_insert_eq.
      split; [done|]. split; [by unfold projected; rewrite Hrows|].
      intros _ _. apply Forall_forall. intros c Hc.
      rewrite forallb_forall in Hcols.
      specialize (Hcols c (proj1 (list_elem_of_In _ _) Hc)).
      by apply bool_decide_eq_true in Hcols.
  - exists []. rewrite app_nil_r.
    rewrite (to_sql_other _ _ _ _ n Hsql) by done.
    split; [by destruct t|]. split; [constructor|done].
Qed.

Lemma table_step (t : Table) new1 new2 :
  {| schema := schema {| schema := schema t; trows := trows t ++ new1 |};
     trows := trows {| schema := schema t; trows := trows t ++ new1 |} ++ new2 |}
  = {| schema := schema t; trows := trows t ++ (new1 ++ new2) |}.
Proof. simpl. by rewrite app_assoc. Qed.

(** The merge, seen from a table [n] that exists before it starts. *)
Lemma merge_at n pulse_map files : forall db db' t,
  tables db !! n = Some t ->
  _merge_temporary_databases files pulse_map db = (db', None) ->
  exists new,
    tables db' !! n = Some {| schema := schema t; trows := trows t ++ new |}
    /\ Forall2 (⊆) (rows_for n pulse_map files) new
    /\ forall f df, f ∈ files -> df ∈ frames_for n pulse_map f ->
                    rows df <> [] ->
                    Forall (fun c => c ∈ table_columns t) (columns df).
Proof.
  induction files as [|f files IH]; intros db db' t Ht Hmerge.
  - injection Hmerge as <-. exists []. rewrite app_nil_r.
    split; [by destruct t|]. split; [constructor|].
    intros f df Hf. by apply elem_of_nil in Hf.
  - apply merge_cons_Ok in Hmerge as (db1 & db2 & db3 & H1 & H2 & H3 & Hrest).
    destruct (to_sql_at n "truth" _ _ _ _ Ht H1) as (new1 & Ht1 & Hnew1 & Hc1).
    destruct (to_sql_at n pulse_map _ _ _ _ Ht1 H2) as (new2 & Ht2 & Hnew2 & Hc2).
    rewrite table_step in Ht2.
    assert (exists new3,
              tables db3 !! n
              = Some {| schema := schema t; trows := trows t ++ (new1 ++ new2) ++ new3 |}
              /\ Forall2 (⊆)
                   (if decide (n = "RetroReco") then
                      match retro_table (snd f) with
                      | Some df => if (0 <? len df)%nat then projected df else []
                      | None => []
                      end
                    else []) new3
              /\ forall df, n = "RetroReco" -> retro_table (snd f) = Some df ->
                            (0 <? len df)%nat = true -> rows df <> [] ->
                            Forall (fun c => c ∈ table_columns t) (columns df))
      as (new3 & Ht3 & Hnew3 & Hc3).
    { unfold _submit_retro in H3.
      destruct (retro_table (snd f)) as [df|] eqn:Hretro.
      - destruct (0 <? len df)%nat eqn:Hlen.
        + apply exec_Ok in H3.
          destruct (to_sql_at n "RetroReco" _ _ _ _ Ht2 H3) as (new3 & Ht3 & Hnew3 & Hc3).
          rewrite table_step in Ht3. exists new3. split; [done|]. split; [done|].
          intros df' Hn [= <-] _. by apply Hc3.
        + injection H3 as <-. exists []. rewrite app_nil_r.
          split; [done|]. split; [by destruct (decide (n = "RetroReco")); constructor|].
          intros df' _ [= <-] Hpos. congruence.
      - injection H3 as <-. exists []. rewrite app_nil_r.
        split; [done|]. split; [by destruct (decide (n = "RetroReco")); constructor|done]. }
    destruct (IH _ _ _ Ht3 Hrest) as (new & Hfinal & Hnew & Hcols).
    rewrite table_step in Hfinal.
    exists (((new1 ++ new2) ++ new3) ++ new). split; [done|]. split.
    + unfold rows_for. cbn [map concat]. rewrite map_app, concat_app.
      apply Forall2_app; [|exact Hnew].
      unfold frames_for. rewrite !map_app, !concat_app.
      rewrite <- app_assoc.
      apply Forall2_app; [|apply Forall2_app].
      * destruct (decide (n = "truth")); simpl; [by rewrite app_nil_r|done].
      * destruct (decide (n = pulse_map)); simpl; [by rewrite app_nil_r|done].
      * destruct (decide (n = "RetroReco")); [|done].
        destruct (retro_table (snd f)) as [df|]; [|done].
        destruct (0 <? len df)%nat; simpl; [by rewrite app_nil_r|done].
    + intros g df Hg Hdf Hrows. apply elem_of_cons in Hg as [->|Hg].
      * unfold frames_for in Hdf. rewrite !elem_of_app in Hdf.
        destruct Hdf as [Hdf|[Hdf|Hdf]].
        -- destruct (decide (n = "truth")) as [Hn|]; [|by apply elem_of_nil in Hdf].
           apply list_elem_of_singleton in Hdf as ->. by apply Hc1.
        -- destruct (decide (n = pulse_map)) as [Hn|]; [|by apply elem_of_nil in Hdf].
           apply list_elem_of_singleton in Hdf as ->. by apply Hc2.
        -- destruct (decide (n = "RetroReco")) as [Hn|]; [|by apply elem_of_nil in Hdf].
           destruct (retro_table (snd f)) as [df'|] eqn:Hretro;
             [|by apply elem_of_nil in Hdf].
           destruct (0 <? len df')%nat eqn:Hlen; [|by apply elem_of_nil in Hdf].
           apply list_elem_of_singleton in Hdf as ->. by apply (Hc3 df').
      * by apply (Hcols g).
Qed.



(** What a merge that went through has done, from the shards found. *)
Lemma merge_databases_Ok outdir db_name pulsemap tmp :
  get_temporary_database_paths tmp <> [] ->
  merge_raised (_merge_databases outdir db_name pulsemap tmp) = None ->
  exists tc pc rc db,
    _extract_column_names (get_temporary_database_paths tmp) = Ok (tc, pc, rc)
    /\ pulsemap <> "truth"
    /\ _merge_temporary_databases (get_temporary_database_paths tmp) pulsemap
         (created_db pulsemap tc pc rc) = (db, None)
    /\ final (_merge_databases outdir db_name pulsemap tmp) = Some db.
Proof.
  intros Hfiles. unfold _merge_databases.
  destruct (get_temporary_database_paths tmp) as [|f files] eqn:Hdb; [done|].
  change (0 <? length (f :: files))%nat with true. cbv iota.
  destruct (_extract_column_names (f :: files)) as [[[tc pc] rc]|] eqn:Hcols; [|done].
  cbn [merge_raised final].
  destruct (and_then _ _) as [db r] eqn:Hrun. simpl. intros ->.
  apply and_then_Ok in Hrun as (db1 & Hcreate & Hmerge).
  apply create_empty_tables_iff in Hcreate as (Htc & _ & Hpt & _ & ->).
  exists tc, pc, rc, db. split; [done|]. split; [done|]. split; [done|].
  by destruct tc.
Qed.

Lemma created_db_truth pulsemap tc pc rc :
  pulsemap <> "truth" ->
  tables (created_db pulsemap tc pc rc) !! "truth"
  = Some {| schema := declared_schema false tc; trows := [] |}.
Proof.
  intros Hne. unfold created_db. cbn [tables].
  rewrite lookup_insert_ne by done.
  destruct (1 <? length rc)%nat.
  - rewrite lookup_insert_ne by done. apply lookup_insert_eq.
  - apply lookup_insert_eq.
Qed.




(** X23. The truth columns of the final database are those of the first
    shard: when another shard has truth rows under a column the first
    shard lacks, the merge raises, and the tmp directory is kept. *)
Theorem later_truth_column_fails_merge outdir db_name pulsemap tmp first rest f c :
  get_temporary_database_paths tmp = first :: rest ->
  f ∈ rest ->
  rows (truth_table (snd f)) <> [] ->
  c ∈ columns (truth_table (snd f)) ->
  c ∉ columns (truth_table (snd first)) ->
  merge_raised (_merge_databases outdir db_name pulsemap tmp) <> None
  /\ tmp_left (_merge_databases outdir db_name pulsemap tmp) = tmp.
Proof.
  intros Hdb Hf Hrows Hc Hnc.
  assert (merge_raised (_merge_databases outdir db_name pulsemap tmp) <> None) as Hr.
  { intros Hnone.
    destruct (merge_databases_Ok outdir db_name pulsemap tmp) as
      (tc & pc & rc & db & Hcols & Hpt & Hmerge & _); [by rewrite Hdb|done|].
    rewrite Hdb in Hcols, Hmerge.
    assert (tc = columns (truth_table (snd first))) as ->.
    { unfold _extract_column_names in Hcols.
      destruct (scan_retro _ _); [|done]. by injection Hcols as <- _ _. }
    destruct (merge_at "truth" pulsemap _ _ _ _
                (created_db_truth pulsemap _ pc rc Hpt) Hmerge)
      as (_ & _ & _ & Hall).
    specialize (Hall f (truth_table (snd f))).
    rewrite Forall_forall in Hall.
    apply Hnc.
    rewrite <- (table_columns_declared false (columns (truth_table (snd first)))
                  {| schema := declared_schema false (columns (truth_table (snd first)));
                     trows := [] |} eq_refl).
    apply Hall; [by right| |done|done].
    unfold frames_for. destruct (decide ("truth" = "truth")); [|done].
    apply elem_of_app. left. left. }
  split; [done|].
  unfold _merge_databases in *. rewrite Hdb in *.
  change (0 <? length (first :: rest))%nat with true in *. cbv iota in *.
  destruct (_extract_column_names (first :: rest)) as [[[tc pc] rc]|]; [|done].
  cbn [merge_raised tmp_left] in *.
  match goal with
  | H : ?x <> None |- _ => destruct x; [done|by destruct H]
  end.
Qed.

(** A shard whose truth table has a column more than that of
    [Scenario.shard_plain]. *)
Definition shard_with_zenith : Shard :=
  {| truth_table := {| columns := ["energy"; "event_no"; "zenith"];
                       rows := [{[ "energy" := 6; "event_no" := 1; "zenith" := 2 ]}] |};
     retro_table := None;
     pulsemap_table := {| columns := ["dom_x"; "event_no"];
                          rows := [{[ "dom_x" := 2; "event_no" := 1 ]}] |} |}.

(** X23 at two shards, the second with the additional column. *)
Lemma later_truth_column_fails_merge_witness :
  let tmp := [("worker-0-0.db", Scenario.shard_plain);
              ("worker-0-1.db", shard_with_zenith)] in
  merge_raised (_merge_databases "out" "db" "SRTInIcePulses" tmp) <> None
  /\ tmp_left (_merge_databases "out" "db" "SRTInIcePulses" tmp) = tmp.
Proof.
  intros tmp.
  apply (later_truth_column_fails_merge "out" "db" "SRTInIcePulses" tmp
           ("worker-0-0.db", Scenario.shard_plain)
           [("worker-0-1.db", shard_with_zenith)]
           ("worker-0-1.db", shard_with_zenith) "zenith").
  - vm_compute. reflexivity.
  - left.
  - done.
  - apply list_elem_of_In. simpl. tauto.
  - intros H. apply list_elem_of_In in H. simpl in H. intuition discriminate.
Defined.

End MergeRows.

(** ** A complete run over frames of one form *)

Section UniformRun.
Import Pandas Worker Merger Orchestrator.

(** The keys of the truth dictionary and of the pulse dictionary. *)
Variables TK FK : list string.






(** *** The workers return *)




(** *** The shards written *)









End UniformRun.

(** *** Statements that go through *)

Section Inserting.
Import Pandas Worker Merger Orchestrator.









End Inserting.

(** *** Counting frames and rows *)

Section Counting.
Import Pandas Worker Merger Orchestrator.















End Counting.

(** *** The run *)

Section UniformRunCompletes.
Import Pandas Worker Merger Orchestrator.





End UniformRunCompletes.

(** ** Deployment: the files [apply_to_files] reads and writes *)

Section DeploymentFacts.
Import Deployment.

Lemma split_no_sep (name : string) :
  Discovery.contains "/" name = false -> split "/" name = [name].
Proof.
  induction name as [|c name IH]; [done|].
  cbn [Discovery.contains split]. intros H.
  apply orb_false_iff in H as [Hc Hrest].
  destruct (Ascii.eqb c "/") eqn:Heq.
  - apply Ascii.eqb_eq in Heq as ->. simpl in Hc. by destruct name.
  - by rewrite (IH Hrest).
Qed.

Lemma last_item_cons {A} (x : A) rest :
  rest <> [] -> last_item (x :: rest) = last_item rest.
Proof. by destruct rest. Qed.

Lemma last_item_split (dir name : string) :
  Discovery.contains "/" name = false ->
  exists piece rest,
    split "/" (dir +:+ "/" +:+ name) = piece :: rest
    /\ rest <> []
    /\ last_item rest = Ok name.
Proof.
  intros Hname. induction dir as [|c dir (piece & rest & Hsplit & Hne & Hlast)].
  - rewrite string_app_nil, string_app_cons, string_app_nil.
    cbn [split]. rewrite Ascii.eqb_refl, (split_no_sep name Hname).
    by eexists _, _.
  - rewrite string_app_cons. cbn [split]. rewrite Hsplit.
    destruct (Ascii.eqb c "/"); eexists _, _; (split; [reflexivity|]).
    + split; [done|]. by rewrite last_item_cons.
    + by split.
Qed.

Lemma last_item_split_Ok (f : string) : exists n, last_item (split "/" f) = Ok n.
Proof.
  assert (split "/" f <> []) as Hne.
  { destruct f as [|c f]; [done|]. cbn [split].
    destruct (Ascii.eqb c "/"); [done|]. by destruct (split "/" f). }
  destruct (split "/" f) as [|p l]; [done|]. clear.
  revert p. induction l as [|q l IH]; intros p; [by eexists|].
  rewrite last_item_cons by done. apply IH.
Qed.

(** X25. For an input [dir/name], [name] without a slash, the tray
    [apply_to_files] sets up reads the gcd file and then [dir/name], and
    writes [output_folder/name], whatever [dir] is: inputs of one name
    from two folders are written to one file, and an input that lies in
    [output_folder] is written onto itself. *)
Theorem apply_to_files_writes_under_base_name {Module_}
    (i3_files : list string) gcd_file output_folder (modules : list Module_)
    i dir name :
  Discovery.contains "/" name = false ->
  i3_files !! i = Some (dir +:+ "/" +:+ name) ->
  exists trays tray,
    apply_to_files i3_files gcd_file output_folder modules = Ok trays
    /\ trays !! i = Some tray
    /\ reader_filenames tray = [gcd_file; dir +:+ "/" +:+ name]
    /\ tray_modules tray = modules
    /\ writer_filename tray = output_folder +:+ "/" +:+ name.
Proof.
  intros Hname. revert i.
  induction i3_files as [|f fs IH]; intros i Hi; [done|].
  cbn [apply_to_files]. unfold res_bind.
  destruct (last_item_split_Ok f) as [n Hn]. rewrite Hn.
  assert (exists ts, apply_to_files fs gcd_file output_folder modules = Ok ts)
    as [ts Hts].
  { clear. induction fs as [|g fs [ts IH]]; [by eexists|].
    cbn [apply_to_files]. unfold res_bind.
    destruct (last_item_split_Ok g) as [m ->]. rewrite IH. by eexists. }
  destruct i as [|i]; simpl in Hi.
  - injection Hi as ->. rewrite Hts. eexists _, _.
    split; [reflexivity|]. split; [reflexivity|]. simpl.
    destruct (last_item_split dir name Hname)
      as (piece & rest & Hsplit & Hne & Hlast).
    rewrite Hsplit, last_item_cons, Hlast in Hn by done. by injection Hn as <-.
  - destruct (IH i Hi) as (ts' & tray & Hts' & Htray & ?).
    rewrite Hts'. by eexists _, tray.
Qed.

(** X25 at two inputs of one name, the second lying in the output
    folder. *)
Lemma apply_to_files_writes_under_base_name_witness :
  exists (trays : list (Tray nat)) tray,
    apply_to_files ["in/run1/a.i3.gz"; "out/a.i3.gz"] "gcd.i3.bz2" "out" [7%nat]
    = Ok trays
    /\ trays !! 1%nat = Some tray
    /\ reader_filenames tray = ["gcd.i3.bz2"; "out" +:+ "/" +:+ "a.i3.gz"]
    /\ tray_modules tray = [7%nat]
    /\ writer_filename tray = "out" +:+ "/" +:+ "a.i3.gz".
Proof.
  apply (apply_to_files_writes_under_base_name
           ["in/run1/a.i3.gz"; "out/a.i3.gz"] "gcd.i3.bz2" "out" [7%nat]
           1%nat "out" "a.i3.gz"); reflexivity.
Defined.

End DeploymentFacts.
